(** * MAX2870 frequency calculators: a shallow embedding

    The repository holds two stand-alone Python scripts:

    - [MAX2870pf.py]  ("advanced precision"): one reference frequency,
      integer mode first, fractional mode otherwise;
    - [MAX2870spf.py] ("super precision"): the same search swept over a
      range of integer reference frequencies.

    Both scripts work on module-level variables that the loops mutate; the
    embedding keeps them as the fields of a [state] record that is threaded
    through the loops, with the names of the scripts.  Python [int]s are
    [Z].  Printing is modelled by the value that is printed.

    The scripts are embedded twice.  In the modules [PF] and [SPF] a Python
    [float] is a rational of [Q] and arithmetic is exact: this is the
    arithmetic the searches are meant to carry out, and the structure of
    the loops (what is tried, in which order, what is kept, when a loop is
    left) is studied there.  In the modules [PF64] and [SPF64] a [float] is
    a binary64 number and every [/], [*], [-] and [+] rounds as it does in
    the source: the behaviour that depends on the rounding of a quotient is
    studied there. *)

From Stdlib Require Import ZArith QArith Qround Qabs List Bool Lia Lqa.
From Stdlib Require Floats.
Import ListNotations.

Open Scope Z_scope.

(** ** Python primitives used by the scripts *)

Module Py.

(** [int -> float] as used implicitly by Python in mixed arithmetic. *)
Definition Zq (z : Z) : Q := inject_Z z.

Definition ltb (x y : Q) : bool := negb (Qle_bool y x).
Definition leb (x y : Q) : bool := Qle_bool x y.
Definition eqb (x y : Q) : bool := Qeq_bool x y.

(** [math.floor], [math.ceil] and [int()] (truncation toward zero). *)
Definition floor (x : Q) : Z := Qfloor x.
Definition ceil (x : Q) : Z := Qceiling x.
Definition int (x : Q) : Z := if Qle_bool 0 x then Qfloor x else Qceiling x.

(** Nearest integer, ties to even: the quotient IEEE [remainder] uses. *)
Definition round_half_even (x : Q) : Z :=
  let f := Qfloor x in
  let d := (x - inject_Z f)%Q in
  if ltb d (1 # 2) then f
  else if ltb (1 # 2) d then f + 1
  else if Z.even f then f else f + 1.

(** [math.remainder(x, y)]. *)
Definition remainder (x y : Q) : Q :=
  (x - inject_Z (round_half_even (x / y)) * y)%Q.

(** [range(n)]: 0, 1, ..., n-1 (empty when [n <= 0]). *)
Definition range (n : Z) : list Z := map Z.of_nat (seq 0 (Z.to_nat n)).

(** A [for] loop whose body may [break]. *)
Inductive flow := Next | Break.

Fixpoint for_in {S : Type} (body : Z -> S -> S * flow) (xs : list Z) (s : S) : S :=
  match xs with
  | [] => s
  | x :: xs' =>
      match body x s with
      | (s', Break) => s'
      | (s', Next) => for_in body xs' s'
      end
  end.

(** A [for] loop whose body may [break] and may fail to return. *)
Fixpoint for_in_opt {S : Type} (body : Z -> S -> option (S * flow))
    (xs : list Z) (s : S) : option S :=
  match xs with
  | [] => Some s
  | x :: xs' =>
      match body x s with
      | None => None
      | Some (s', Break) => Some s'
      | Some (s', Next) => for_in_opt body xs' s'
      end
  end.

End Py.

Import Py.

(** ** Text shared by the two scripts

    The rounding of [FracToMatch] and its clamp (MAX2870pf.py lines 88-93,
    MAX2870spf.py lines 112-117) are the same statements in both files. *)

Definition round_frac (FracToMatch : Q) : Z :=
  if leb (1 # 2) (FracToMatch - Zq (int FracToMatch)) then ceil FracToMatch
  else floor FracToMatch.

Definition clamp_frac (FracToMatch ModToMatch : Z) : Z :=
  if ModToMatch <=? FracToMatch then ModToMatch - 1 else FracToMatch.

(** ** MAX2870pf.py: fixed reference *)

Module PF.

(** MAX2870 limits as per datasheet (lines 11-20).  [MinimumInt],
    [MaximumInt] and [MaximumPFDFrequency] are reassigned before the
    fractional search, so they live in the state; these are their initial
    values. *)
Definition MaximumR : Z := 1023.
Definition MinimumInt_init : Z := 16.
Definition MaximumInt_init : Z := 65535.
Definition MaximumMod : Z := 4095.
Definition MaximumPFDFrequency_init : Z := 105000000.
Definition MinimumPFDFrequency : Z := 125000.
Definition MinimumRFFrequency : Z := 23475000.
Definition MaximumRFFrequency : Z := 6000000000.
Definition MinimumReferenceFrequency : Z := 10000000.
Definition MaximumReferenceFrequency : Z := 200000000.

Record state : Type := mkState {
  DesiredFrequency : Q;
  MinimumInt : Z;
  MaximumInt : Z;
  MaximumPFDFrequency : Z;
  NegativeFrequencyError : bool;
  MatchAttempted : bool;
  FrequencyError : Q;
  MatchingR : Z;
  MatchingInt : Q;
  MatchingMod : Z;
  MatchingFrac : Z;
  MatchingDivider : Z;
  MatchingDivider_PowerOf2 : Z;
  FractionalMode : bool
}.

(** Assignments to the module-level variables. *)
Definition set_DesiredFrequency v s :=
  mkState v (MinimumInt s) (MaximumInt s) (MaximumPFDFrequency s)
    (NegativeFrequencyError s) (MatchAttempted s) (FrequencyError s)
    (MatchingR s) (MatchingInt s) (MatchingMod s) (MatchingFrac s)
    (MatchingDivider s) (MatchingDivider_PowerOf2 s) (FractionalMode s).
Definition set_MinimumInt v s :=
  mkState (DesiredFrequency s) v (MaximumInt s) (MaximumPFDFrequency s)
    (NegativeFrequencyError s) (MatchAttempted s) (FrequencyError s)
    (MatchingR s) (MatchingInt s) (MatchingMod s) (MatchingFrac s)
    (MatchingDivider s) (MatchingDivider_PowerOf2 s) (FractionalMode s).
Definition set_MaximumInt v s :=
  mkState (DesiredFrequency s) (MinimumInt s) v (MaximumPFDFrequency s)
    (NegativeFrequencyError s) (MatchAttempted s) (FrequencyError s)
    (MatchingR s) (MatchingInt s) (MatchingMod s) (MatchingFrac s)
    (MatchingDivider s) (MatchingDivider_PowerOf2 s) (FractionalMode s).
Definition set_MaximumPFDFrequency v s :=
  mkState (DesiredFrequency s) (MinimumInt s) (MaximumInt s) v
    (NegativeFrequencyError s) (MatchAttempted s) (FrequencyError s)
    (MatchingR s) (MatchingInt s) (MatchingMod s) (MatchingFrac s)
    (MatchingDivider s) (MatchingDivider_PowerOf2 s) (FractionalMode s).
Definition set_NegativeFrequencyError v s :=
  mkState (DesiredFrequency s) (MinimumInt s) (MaximumInt s) (MaximumPFDFrequency s)
    v (MatchAttempted s) (FrequencyError s)
    (MatchingR s) (MatchingInt s) (MatchingMod s) (MatchingFrac s)
    (MatchingDivider s) (MatchingDivider_PowerOf2 s) (FractionalMode s).
Definition set_MatchAttempted v s :=
  mkState (DesiredFrequency s) (MinimumInt s) (MaximumInt s) (MaximumPFDFrequency s)
    (NegativeFrequencyError s) v (FrequencyError s)
    (MatchingR s) (MatchingInt s) (MatchingMod s) (MatchingFrac s)
    (MatchingDivider s) (MatchingDivider_PowerOf2 s) (FractionalMode s).
Definition set_FrequencyError v s :=
  mkState (DesiredFrequency s) (MinimumInt s) (MaximumInt s) (MaximumPFDFrequency s)
    (NegativeFrequencyError s) (MatchAttempted s) v
    (MatchingR s) (MatchingInt s) (MatchingMod s) (MatchingFrac s)
    (MatchingDivider s) (MatchingDivider_PowerOf2 s) (FractionalMode s).
Definition set_MatchingR v s :=
  mkState (DesiredFrequency s) (MinimumInt s) (MaximumInt s) (MaximumPFDFrequency s)
    (NegativeFrequencyError s) (MatchAttempted s) (FrequencyError s)
    v (MatchingInt s) (MatchingMod s) (MatchingFrac s)
    (MatchingDivider s) (MatchingDivider_PowerOf2 s) (FractionalMode s).
Definition set_MatchingInt v s :=
  mkState (DesiredFrequency s) (MinimumInt s) (MaximumInt s) (MaximumPFDFrequency s)
    (NegativeFrequencyError s) (MatchAttempted s) (FrequencyError s)
    (MatchingR s) v (MatchingMod s) (MatchingFrac s)
    (MatchingDivider s) (MatchingDivider_PowerOf2 s) (FractionalMode s).
Definition set_MatchingMod v s :=
  mkState (DesiredFrequency s) (MinimumInt s) (MaximumInt s) (MaximumPFDFrequency s)
    (NegativeFrequencyError s) (MatchAttempted s) (FrequencyError s)
    (MatchingR s) (MatchingInt s) v (MatchingFrac s)
    (MatchingDivider s) (MatchingDivider_PowerOf2 s) (FractionalMode s).
Definition set_MatchingFrac v s :=
  mkState (DesiredFrequency s) (MinimumInt s) (MaximumInt s) (MaximumPFDFrequency s)
    (NegativeFrequencyError s) (MatchAttempted s) (FrequencyError s)
    (MatchingR s) (MatchingInt s) (MatchingMod s) v
    (MatchingDivider s) (MatchingDivider_PowerOf2 s) (FractionalMode s).
Definition set_MatchingDivider v s :=
  mkState (DesiredFrequency s) (MinimumInt s) (MaximumInt s) (MaximumPFDFrequency s)
    (NegativeFrequencyError s) (MatchAttempted s) (FrequencyError s)
    (MatchingR s) (MatchingInt s) (MatchingMod s) (MatchingFrac s)
    v (MatchingDivider_PowerOf2 s) (FractionalMode s).
Definition set_MatchingDivider_PowerOf2 v s :=
  mkState (DesiredFrequency s) (MinimumInt s) (MaximumInt s) (MaximumPFDFrequency s)
    (NegativeFrequencyError s) (MatchAttempted s) (FrequencyError s)
    (MatchingR s) (MatchingInt s) (MatchingMod s) (MatchingFrac s)
    (MatchingDivider s) v (FractionalMode s).
Definition set_FractionalMode v s :=
  mkState (DesiredFrequency s) (MinimumInt s) (MaximumInt s) (MaximumPFDFrequency s)
    (NegativeFrequencyError s) (MatchAttempted s) (FrequencyError s)
    (MatchingR s) (MatchingInt s) (MatchingMod s) (MatchingFrac s)
    (MatchingDivider s) (MatchingDivider_PowerOf2 s) v.

(** The variables after lines 7-43: the defaults, then the two arguments
    and [FrequencyError = ReferenceFrequency]. *)
Definition init (ReferenceFrequency DesiredFrequency : Q) : state :=
  {| DesiredFrequency := DesiredFrequency;
     MinimumInt := MinimumInt_init;
     MaximumInt := MaximumInt_init;
     MaximumPFDFrequency := MaximumPFDFrequency_init;
     NegativeFrequencyError := false;
     MatchAttempted := false;
     FrequencyError := ReferenceFrequency;
     MatchingR := 1;
     MatchingInt := Zq 1;
     MatchingMod := 2;
     MatchingFrac := 0;
     MatchingDivider := 1;
     MatchingDivider_PowerOf2 := 0;
     FractionalMode := true |}.

(** Lines 47-49: [while DesiredFrequency < MaximumRFFrequency / 2].  The
    loop has no bound of its own, so the model counts passes down from
    [fuel] and answers [None] when it runs out. *)
Fixpoint vco_loop (fuel : nat) (s : state) : option state :=
  if ltb (DesiredFrequency s) (Zq MaximumRFFrequency / 2) then
    match fuel with
    | O => None
    | S fuel' =>
        vco_loop fuel'
          (set_DesiredFrequency (DesiredFrequency s * 2)
             (set_MatchingDivider_PowerOf2 (MatchingDivider_PowerOf2 s + 1) s))
    end
  else Some s.

(** Lines 47-50. *)
Definition normalize (fuel : nat) (s : state) : option state :=
  match vco_loop fuel s with
  | Some s' => Some (set_MatchingDivider (2 ^ MatchingDivider_PowerOf2 s') s')
  | None => None
  end.

(** The guard of lines 54 and 77. *)
Definition pfd_ok (ReferenceFrequency : Q) (RtoMatch : Z) (s : state) : bool :=
  (0 <? RtoMatch)
  && leb (Zq MinimumPFDFrequency) (ReferenceFrequency / Zq RtoMatch)
  && leb (ReferenceFrequency / Zq RtoMatch) (Zq (MaximumPFDFrequency s)).

(** Lines 54-68: the body of the integer-mode loop. *)
Definition int_body (ReferenceFrequency : Q) (RtoMatch : Z) (s : state) : state * flow :=
  if pfd_ok ReferenceFrequency RtoMatch s then
    let IntTemp := (DesiredFrequency s / (ReferenceFrequency / Zq RtoMatch))%Q in
    if leb (Zq (MinimumInt s)) IntTemp && leb IntTemp (Zq (MaximumInt s)) then
      let s := set_MatchAttempted true s in
      if eqb (remainder IntTemp 1) 0 then
        (set_MatchingInt IntTemp
           (set_MatchingR RtoMatch
              (set_FractionalMode false (set_MatchAttempted true s))), Break)
      else (s, Next)
    else (s, Break)
  else if 0 <? RtoMatch then (s, Break) else (s, Next).

(** Lines 53-68. *)
Definition integer_search (ReferenceFrequency : Q) (s : state) : state :=
  for_in (int_body ReferenceFrequency) (range (MaximumR + 1)) s.

(** Lines 84-107: the body of the MOD loop. *)
Definition mod_body (ReferenceFrequency : Q) (RtoMatch IntTemp : Z)
    (FrequencyRemainder : Q) (ModToMatch : Z) (s : state) : state * flow :=
  if 2 <=? ModToMatch then
    let OldFrequencyError := FrequencyError s in
    let ModFrequencyStep := (ReferenceFrequency / Zq RtoMatch / Zq ModToMatch)%Q in
    let FracToMatch := (FrequencyRemainder / ModFrequencyStep)%Q in
    let FracToMatch := round_frac FracToMatch in
    let FracToMatch := clamp_frac FracToMatch ModToMatch in
    let s := set_FrequencyError
               (FrequencyRemainder - ModFrequencyStep * Zq FracToMatch)%Q s in
    let s := if ltb (FrequencyError s) 0
             then set_NegativeFrequencyError true
                    (set_FrequencyError (FrequencyError s * Zq (-1))%Q s)
             else set_NegativeFrequencyError false s in
    let s := if ltb (FrequencyError s) OldFrequencyError
             then set_MatchingFrac FracToMatch
                    (set_MatchingMod ModToMatch
                       (set_MatchingInt (Zq IntTemp)
                          (set_MatchingR RtoMatch s)))
             else s in
    if eqb (FrequencyError s) 0 then (s, Break) else (s, Next)
  else (s, Next).

(** Lines 77-115: the body of the fractional-mode R loop. *)
Definition frac_body (ReferenceFrequency : Q) (RtoMatch : Z) (s : state) : state * flow :=
  if pfd_ok ReferenceFrequency RtoMatch s then
    let IntTemp := (DesiredFrequency s / (ReferenceFrequency / Zq RtoMatch))%Q in
    let IntTemp := floor IntTemp in
    if (MinimumInt s <=? IntTemp) && (IntTemp <=? MaximumInt s) then
      let s := set_MatchAttempted true s in
      let FrequencyRemainder :=
        (DesiredFrequency s - Zq IntTemp * (ReferenceFrequency / Zq RtoMatch))%Q in
      let s := for_in (mod_body ReferenceFrequency RtoMatch IntTemp FrequencyRemainder)
                 (range (MaximumMod + 1)) s in
      if eqb (FrequencyError s) 0 then (s, Break) else (s, Next)
    else if MaximumInt s <? IntTemp then (s, Break) else (s, Next)
  else if 0 <? RtoMatch then (s, Break) else (s, Next).

(** Lines 71-115. *)
Definition fractional_search (ReferenceFrequency : Q) (s : state) : state :=
  if FractionalMode s then
    let s := set_MinimumInt 19 s in
    let s := set_MaximumInt 4091 s in
    let s := set_MaximumPFDFrequency 50000000 s in
    for_in (frac_body ReferenceFrequency) (range (MaximumR + 1)) s
  else s.

(** What the script prints (lines 117-139). *)
Inductive printed : Type :=
| ReferenceOutOfRange
| RFOutOfRange
| NotPossible
| IntegerReport (R : Z) (Int : Q) (Mod Frac Divider Divider_PowerOf2 : Z)
| FractionalReport (error actual : Q)
    (R : Z) (Int : Q) (Mod Frac Divider Divider_PowerOf2 : Z).

(** Lines 117-135. *)
Definition report (s : state) : state * printed :=
  if MatchAttempted s then
    let s := set_DesiredFrequency (DesiredFrequency s / Zq (MatchingDivider s)) s in
    if FractionalMode s then
      let s := if NegativeFrequencyError s
               then set_FrequencyError (FrequencyError s * Zq (-1)) s else s in
      let s := set_FrequencyError (FrequencyError s / Zq (MatchingDivider s)) s in
      (s, FractionalReport (FrequencyError s) (DesiredFrequency s + FrequencyError s)
            (MatchingR s) (MatchingInt s) (MatchingMod s) (MatchingFrac s)
            (MatchingDivider s) (MatchingDivider_PowerOf2 s))
    else
      (s, IntegerReport (MatchingR s) (MatchingInt s) (MatchingMod s) (MatchingFrac s)
            (MatchingDivider s) (MatchingDivider_PowerOf2 s))
  else (s, NotPossible).

(** Lines 47-115: normalisation and the two searches. *)
Definition search (fuel : nat) (ReferenceFrequency : Q) (s : state) : option state :=
  match normalize fuel s with
  | Some s => Some (fractional_search ReferenceFrequency
                      (integer_search ReferenceFrequency s))
  | None => None
  end.

(** Lines 41-139: the whole script on [--ref] and [--rf]. *)
Definition main (fuel : nat) (ReferenceFrequency DesiredFrequency : Q)
  : option (state * printed) :=
  let s := init ReferenceFrequency DesiredFrequency in
  if leb (Zq MinimumReferenceFrequency) ReferenceFrequency
     && leb ReferenceFrequency (Zq MaximumReferenceFrequency) then
    if leb (Zq MinimumRFFrequency) (PF.DesiredFrequency s)
       && leb (PF.DesiredFrequency s) (Zq MaximumRFFrequency) then
      match search fuel ReferenceFrequency s with
      | Some s => Some (report s)
      | None => None
      end
    else Some (s, RFOutOfRange)
  else Some (s, ReferenceOutOfRange).

End PF.

(** ** MAX2870spf.py: reference sweep *)

Module SPF.

(** MAX2870 limits as per datasheet (lines 11-20); as in the other script
    three of them are reassigned later and live in the state. *)
Definition MaximumR : Z := 1023.
Definition MinimumInt_init : Z := 16.
Definition MaximumInt_init : Z := 65535.
Definition MaximumMod : Z := 4095.
Definition MaximumPFDFrequency_init : Z := 45000000.
Definition MinimumPFDFrequency : Z := 125000.
Definition MinimumRFFrequency : Z := 2347500.
Definition MaximumRFFrequency : Z := 6000000000.
Definition MinimumReferenceFrequency : Z := 10000000.
Definition MaximumReferenceFrequency : Z := 200000000.

Record state : Type := mkState {
  DesiredFrequency : Q;
  MinimumInt : Z;
  MaximumInt : Z;
  MaximumPFDFrequency : Z;
  NegativeFrequencyError : bool;
  MatchAttempted : bool;
  IntegerMode : bool;
  FrequencyError : Q;
  ReferenceFrequencyToMatch : Z;
  FinalReferenceFrequency : Z;
  MatchingR : Z;
  MatchingInt : Q;
  MatchingMod : Z;
  MatchingFrac : Z;
  MatchingDivider : Z;
  MatchingDivider_PowerOf2 : Z;
  FractionalMode : bool
}.

(** Assignments to the module-level variables. *)
Definition set_DesiredFrequency v s :=
  mkState v (MinimumInt s) (MaximumInt s) (MaximumPFDFrequency s)
    (NegativeFrequencyError s) (MatchAttempted s) (IntegerMode s) (FrequencyError s)
    (ReferenceFrequencyToMatch s) (FinalReferenceFrequency s) (MatchingR s)
    (MatchingInt s) (MatchingMod s) (MatchingFrac s) (MatchingDivider s)
    (MatchingDivider_PowerOf2 s) (FractionalMode s).
Definition set_MinimumInt v s :=
  mkState (DesiredFrequency s) v (MaximumInt s) (MaximumPFDFrequency s)
    (NegativeFrequencyError s) (MatchAttempted s) (IntegerMode s) (FrequencyError s)
    (ReferenceFrequencyToMatch s) (FinalReferenceFrequency s) (MatchingR s)
    (MatchingInt s) (MatchingMod s) (MatchingFrac s) (MatchingDivider s)
    (MatchingDivider_PowerOf2 s) (FractionalMode s).
Definition set_MaximumInt v s :=
  mkState (DesiredFrequency s) (MinimumInt s) v (MaximumPFDFrequency s)
    (NegativeFrequencyError s) (MatchAttempted s) (IntegerMode s) (FrequencyError s)
    (ReferenceFrequencyToMatch s) (FinalReferenceFrequency s) (MatchingR s)
    (MatchingInt s) (MatchingMod s) (MatchingFrac s) (MatchingDivider s)
    (MatchingDivider_PowerOf2 s) (FractionalMode s).
Definition set_MaximumPFDFrequency v s :=
  mkState (DesiredFrequency s) (MinimumInt s) (MaximumInt s) v
    (NegativeFrequencyError s) (MatchAttempted s) (IntegerMode s) (FrequencyError s)
    (ReferenceFrequencyToMatch s) (FinalReferenceFrequency s) (MatchingR s)
    (MatchingInt s) (MatchingMod s) (MatchingFrac s) (MatchingDivider s)
    (MatchingDivider_PowerOf2 s) (FractionalMode s).
Definition set_NegativeFrequencyError v s :=
  mkState (DesiredFrequency s) (MinimumInt s) (MaximumInt s) (MaximumPFDFrequency s) v
    (MatchAttempted s) (IntegerMode s) (FrequencyError s) (ReferenceFrequencyToMatch s)
    (FinalReferenceFrequency s) (MatchingR s) (MatchingInt s) (MatchingMod s)
    (MatchingFrac s) (MatchingDivider s) (MatchingDivider_PowerOf2 s) (FractionalMode s).
Definition set_MatchAttempted v s :=
  mkState (DesiredFrequency s) (MinimumInt s) (MaximumInt s) (MaximumPFDFrequency s)
    (NegativeFrequencyError s) v (IntegerMode s) (FrequencyError s)
    (ReferenceFrequencyToMatch s) (FinalReferenceFrequency s) (MatchingR s)
    (MatchingInt s) (MatchingMod s) (MatchingFrac s) (MatchingDivider s)
    (MatchingDivider_PowerOf2 s) (FractionalMode s).
Definition set_IntegerMode v s :=
  mkState (DesiredFrequency s) (MinimumInt s) (MaximumInt s) (MaximumPFDFrequency s)
    (NegativeFrequencyError s) (MatchAttempted s) v (FrequencyError s)
    (ReferenceFrequencyToMatch s) (FinalReferenceFrequency s) (MatchingR s)
    (MatchingInt s) (MatchingMod s) (MatchingFrac s) (MatchingDivider s)
    (MatchingDivider_PowerOf2 s) (FractionalMode s).
Definition set_FrequencyError v s :=
  mkState (DesiredFrequency s) (MinimumInt s) (MaximumInt s) (MaximumPFDFrequency s)
    (NegativeFrequencyError s) (MatchAttempted s) (IntegerMode s) v
    (ReferenceFrequencyToMatch s) (FinalReferenceFrequency s) (MatchingR s)
    (MatchingInt s) (MatchingMod s) (MatchingFrac s) (MatchingDivider s)
    (MatchingDivider_PowerOf2 s) (FractionalMode s).
Definition set_ReferenceFrequencyToMatch v s :=
  mkState (DesiredFrequency s) (MinimumInt s) (MaximumInt s) (MaximumPFDFrequency s)
    (NegativeFrequencyError s) (MatchAttempted s) (IntegerMode s) (FrequencyError s) v
    (FinalReferenceFrequency s) (MatchingR s) (MatchingInt s) (MatchingMod s)
    (MatchingFrac s) (MatchingDivider s) (MatchingDivider_PowerOf2 s) (FractionalMode s).
Definition set_FinalReferenceFrequency v s :=
  mkState (DesiredFrequency s) (MinimumInt s) (MaximumInt s) (MaximumPFDFrequency s)
    (NegativeFrequencyError s) (MatchAttempted s) (IntegerMode s) (FrequencyError s)
    (ReferenceFrequencyToMatch s) v (MatchingR s) (MatchingInt s) (MatchingMod s)
    (MatchingFrac s) (MatchingDivider s) (MatchingDivider_PowerOf2 s) (FractionalMode s).
Definition set_MatchingR v s :=
  mkState (DesiredFrequency s) (MinimumInt s) (MaximumInt s) (MaximumPFDFrequency s)
    (NegativeFrequencyError s) (MatchAttempted s) (IntegerMode s) (FrequencyError s)
    (ReferenceFrequencyToMatch s) (FinalReferenceFrequency s) v (MatchingInt s)
    (MatchingMod s) (MatchingFrac s) (MatchingDivider s) (MatchingDivider_PowerOf2 s)
    (FractionalMode s).
Definition set_MatchingInt v s :=
  mkState (DesiredFrequency s) (MinimumInt s) (MaximumInt s) (MaximumPFDFrequency s)
    (NegativeFrequencyError s) (MatchAttempted s) (IntegerMode s) (FrequencyError s)
    (ReferenceFrequencyToMatch s) (FinalReferenceFrequency s) (MatchingR s) v
    (MatchingMod s) (MatchingFrac s) (MatchingDivider s) (MatchingDivider_PowerOf2 s)
    (FractionalMode s).
Definition set_MatchingMod v s :=
  mkState (DesiredFrequency s) (MinimumInt s) (MaximumInt s) (MaximumPFDFrequency s)
    (NegativeFrequencyError s) (MatchAttempted s) (IntegerMode s) (FrequencyError s)
    (ReferenceFrequencyToMatch s) (FinalReferenceFrequency s) (MatchingR s)
    (MatchingInt s) v (MatchingFrac s) (MatchingDivider s) (MatchingDivider_PowerOf2 s)
    (FractionalMode s).
Definition set_MatchingFrac v s :=
  mkState (DesiredFrequency s) (MinimumInt s) (MaximumInt s) (MaximumPFDFrequency s)
    (NegativeFrequencyError s) (MatchAttempted s) (IntegerMode s) (FrequencyError s)
    (ReferenceFrequencyToMatch s) (FinalReferenceFrequency s) (MatchingR s)
    (MatchingInt s) (MatchingMod s) v (MatchingDivider s) (MatchingDivider_PowerOf2 s)
    (FractionalMode s).
Definition set_MatchingDivider v s :=
  mkState (DesiredFrequency s) (MinimumInt s) (MaximumInt s) (MaximumPFDFrequency s)
    (NegativeFrequencyError s) (MatchAttempted s) (IntegerMode s) (FrequencyError s)
    (ReferenceFrequencyToMatch s) (FinalReferenceFrequency s) (MatchingR s)
    (MatchingInt s) (MatchingMod s) (MatchingFrac s) v (MatchingDivider_PowerOf2 s)
    (FractionalMode s).
Definition set_MatchingDivider_PowerOf2 v s :=
  mkState (DesiredFrequency s) (MinimumInt s) (MaximumInt s) (MaximumPFDFrequency s)
    (NegativeFrequencyError s) (MatchAttempted s) (IntegerMode s) (FrequencyError s)
    (ReferenceFrequencyToMatch s) (FinalReferenceFrequency s) (MatchingR s)
    (MatchingInt s) (MatchingMod s) (MatchingFrac s) (MatchingDivider s) v
    (FractionalMode s).
Definition set_FractionalMode v s :=
  mkState (DesiredFrequency s) (MinimumInt s) (MaximumInt s) (MaximumPFDFrequency s)
    (NegativeFrequencyError s) (MatchAttempted s) (IntegerMode s) (FrequencyError s)
    (ReferenceFrequencyToMatch s) (FinalReferenceFrequency s) (MatchingR s)
    (MatchingInt s) (MatchingMod s) (MatchingFrac s) (MatchingDivider s)
    (MatchingDivider_PowerOf2 s) v.

(** The variables after lines 7-46.  [FractionalMode] is first assigned at
    line 62, inside the sweep, and is only read after that assignment or
    when [MatchAttempted] has been set; its value here is never read. *)
Definition init (DesiredFrequency : Q) : state :=
  {| DesiredFrequency := DesiredFrequency;
     MinimumInt := MinimumInt_init;
     MaximumInt := MaximumInt_init;
     MaximumPFDFrequency := MaximumPFDFrequency_init;
     NegativeFrequencyError := false;
     MatchAttempted := false;
     IntegerMode := true;
     FrequencyError := Zq MaximumReferenceFrequency;
     ReferenceFrequencyToMatch := 0;
     FinalReferenceFrequency := 0;
     MatchingR := 1;
     MatchingInt := Zq 1;
     MatchingMod := 2;
     MatchingFrac := 0;
     MatchingDivider := 1;
     MatchingDivider_PowerOf2 := 0;
     FractionalMode := true |}.

(** Lines 48-49: the clamp of the step count. *)
Definition clamp_steps (ReferenceSteps : Z) : Z :=
  if MaximumReferenceFrequency - MinimumReferenceFrequency <? ReferenceSteps
  then MaximumReferenceFrequency - MinimumReferenceFrequency
  else ReferenceSteps.

(** Lines 51-55: the two adjustments of the start, on the clamped count. *)
Definition clamp_start (ReferenceFrequencyStart ReferenceSteps : Z) : Z :=
  let ReferenceFrequencyStart :=
    if MaximumReferenceFrequency <? ReferenceFrequencyStart + ReferenceSteps
    then MaximumReferenceFrequency - ReferenceSteps
    else ReferenceFrequencyStart in
  if ReferenceFrequencyStart <? MinimumReferenceFrequency
  then MinimumReferenceFrequency
  else ReferenceFrequencyStart.

(** Lines 64-66, with the same pass counter as in the other script. *)
Fixpoint vco_loop (fuel : nat) (s : state) : option state :=
  if ltb (DesiredFrequency s) (Zq MaximumRFFrequency / 2) then
    match fuel with
    | O => None
    | S fuel' =>
        vco_loop fuel'
          (set_DesiredFrequency (DesiredFrequency s * 2)
             (set_MatchingDivider_PowerOf2 (MatchingDivider_PowerOf2 s + 1) s))
    end
  else Some s.

(** Lines 64-67. *)
Definition normalize (fuel : nat) (s : state) : option state :=
  match vco_loop fuel s with
  | Some s' => Some (set_MatchingDivider (2 ^ MatchingDivider_PowerOf2 s') s')
  | None => None
  end.

(** The guard of lines 76 and 102, on the integer reference of the step. *)
Definition pfd_ok (RtoMatch : Z) (s : state) : bool :=
  (0 <? RtoMatch)
  && leb (Zq MinimumPFDFrequency) (Zq (ReferenceFrequencyToMatch s) / Zq RtoMatch)
  && leb (Zq (ReferenceFrequencyToMatch s) / Zq RtoMatch) (Zq (MaximumPFDFrequency s)).

(** Lines 76-90: the body of the integer-mode loop.  The outer [if] has no
    [else] here. *)
Definition int_body (RtoMatch : Z) (s : state) : state * flow :=
  if pfd_ok RtoMatch s then
    let IntTemp :=
      (DesiredFrequency s / (Zq (ReferenceFrequencyToMatch s) / Zq RtoMatch))%Q in
    if leb (Zq (MinimumInt s)) IntTemp && leb IntTemp (Zq (MaximumInt s)) then
      let s := set_MatchAttempted true s in
      if eqb (remainder IntTemp 1) 0 then
        (set_MatchingFrac 0
           (set_MatchingMod 2
              (set_MatchingInt IntTemp
                 (set_MatchingR RtoMatch
                    (set_FractionalMode false
                       (set_MatchAttempted true
                          (set_FinalReferenceFrequency
                             (ReferenceFrequencyToMatch s) s)))))), Break)
      else (s, Next)
    else (s, Break)
  else (s, Next).

(** Lines 74-90. *)
Definition integer_search (s : state) : state :=
  let s := set_MaximumPFDFrequency 105000000 s in
  for_in int_body (range (MaximumR + 1)) s.

(** Lines 109-132: the body of the MOD loop. *)
Definition mod_body (RtoMatch IntTemp : Z) (FrequencyRemainder : Q)
    (ModToMatch : Z) (s : state) : state * flow :=
  if 2 <=? ModToMatch then
    let ModFrequencyStep :=
      (Zq (ReferenceFrequencyToMatch s) / Zq RtoMatch / Zq ModToMatch)%Q in
    let FracToMatch := (FrequencyRemainder / ModFrequencyStep)%Q in
    let FracToMatch := round_frac FracToMatch in
    let FracToMatch := clamp_frac FracToMatch ModToMatch in
    let NewFrequencyError :=
      (FrequencyRemainder - ModFrequencyStep * Zq FracToMatch)%Q in
    let '(NewFrequencyError, s) :=
      if ltb NewFrequencyError 0
      then ((NewFrequencyError * Zq (-1))%Q, set_NegativeFrequencyError true s)
      else (NewFrequencyError, set_NegativeFrequencyError false s) in
    let s := if ltb NewFrequencyError (FrequencyError s)
             then set_MatchingFrac FracToMatch
                    (set_MatchingMod ModToMatch
                       (set_MatchingInt (Zq IntTemp)
                          (set_MatchingR RtoMatch
                             (set_FrequencyError NewFrequencyError
                                (set_FinalReferenceFrequency
                                   (ReferenceFrequencyToMatch s) s)))))
             else s in
    if eqb (FrequencyError s) 0 then (s, Break) else (s, Next)
  else (s, Next).

(** Lines 102-134: the body of the fractional-mode R loop.  Neither [if]
    has an [else] here. *)
Definition frac_body (RtoMatch : Z) (s : state) : state * flow :=
  if pfd_ok RtoMatch s then
    let IntTemp :=
      (DesiredFrequency s / (Zq (ReferenceFrequencyToMatch s) / Zq RtoMatch))%Q in
    let IntTemp := floor IntTemp in
    if (MinimumInt s <=? IntTemp) && (IntTemp <=? MaximumInt s) then
      let s := set_MatchAttempted true s in
      let FrequencyRemainder :=
        (DesiredFrequency s
         - Zq IntTemp * (Zq (ReferenceFrequencyToMatch s) / Zq RtoMatch))%Q in
      let s := for_in (mod_body RtoMatch IntTemp FrequencyRemainder)
                 (range (MaximumMod + 1)) s in
      if eqb (FrequencyError s) 0 then (s, Break) else (s, Next)
    else (s, Next)
  else (s, Next).

(** Lines 96-134. *)
Definition fractional_search (s : state) : state :=
  let s := set_IntegerMode false s in
  let s := set_MinimumInt 19 s in
  let s := set_MaximumInt 4091 s in
  let s := set_MaximumPFDFrequency 50000000 s in
  for_in frac_body (range (MaximumR + 1)) s.

(** Lines 72-136: the searches of one step, on the normalised state, and
    whether the sweep goes on. *)
Definition search_step (s : state) : state * flow :=
  let s := if IntegerMode s then integer_search s else s in
  if IntegerMode s && negb (FractionalMode s) then (s, Break)
  else
    let s := if FractionalMode s then fractional_search s else s in
    if eqb (FrequencyError s) 0 then (s, Break) else (s, Next).

(** Lines 59-136: the body of the sweep, for one step. *)
Definition sweep_body (fuel : nat) (ReferenceFrequencyStart : Z)
    (ReferenceFrequencyStepToMatch : Z) (s : state) : option (state * flow) :=
  let s := set_ReferenceFrequencyToMatch
             (ReferenceFrequencyStart + ReferenceFrequencyStepToMatch) s in
  let s := set_FractionalMode true s in
  if leb (Zq MinimumRFFrequency) (DesiredFrequency s)
     && leb (DesiredFrequency s) (Zq MaximumRFFrequency) then
    match normalize fuel s with
    | None => None
    | Some s => Some (search_step s)
    end
  else Some (s, Break).

(** Lines 48-136: the clamps and the sweep. *)
Definition sweep (fuel : nat) (DesiredFrequency : Q)
    (ReferenceFrequencyStart ReferenceSteps : Z) : option state :=
  let ReferenceSteps := clamp_steps ReferenceSteps in
  let ReferenceFrequencyStart := clamp_start ReferenceFrequencyStart ReferenceSteps in
  for_in_opt (sweep_body fuel ReferenceFrequencyStart)
    (range (ReferenceSteps + 1)) (init DesiredFrequency).

(** What the script prints at the end (lines 138-157).  The progress lines,
    the two "Changing ..." lines and "RF frequency is out of range" change
    no variable; they are added by [spf_output] further down. *)
Inductive printed : Type :=
| NotPossible
| IntegerReport (R : Z) (Int : Q) (Mod Frac Divider Divider_PowerOf2 : Z)
    (Reference : Z)
| FractionalReport (error actual : Q)
    (R : Z) (Int : Q) (Mod Frac Divider Divider_PowerOf2 : Z) (Reference : Z).

(** Lines 138-157.  The division of the error by the divider is inside the
    [if NegativeFrequencyError] of line 142. *)
Definition report (s : state) : state * printed :=
  if MatchAttempted s then
    let s := set_DesiredFrequency (DesiredFrequency s / Zq (MatchingDivider s)) s in
    if FractionalMode s then
      let s := if NegativeFrequencyError s
               then set_FrequencyError
                      (FrequencyError s * Zq (-1) / Zq (MatchingDivider s)) s
               else s in
      (s, FractionalReport (FrequencyError s) (DesiredFrequency s + FrequencyError s)
            (MatchingR s) (MatchingInt s) (MatchingMod s) (MatchingFrac s)
            (MatchingDivider s) (MatchingDivider_PowerOf2 s)
            (FinalReferenceFrequency s))
    else
      (s, IntegerReport (MatchingR s) (MatchingInt s) (MatchingMod s) (MatchingFrac s)
            (MatchingDivider s) (MatchingDivider_PowerOf2 s)
            (FinalReferenceFrequency s))
  else (s, NotPossible).

(** Lines 43-157: the whole script on [--rf], [--refstart] and [--steps]. *)
Definition main (fuel : nat) (DesiredFrequency : Q)
    (ReferenceFrequencyStart ReferenceSteps : Z) : option (state * printed) :=
  match sweep fuel DesiredFrequency ReferenceFrequencyStart ReferenceSteps with
  | Some s => Some (report s)
  | None => None
  end.

End SPF.

(** ** Binary64 arithmetic

    A Python [float] is an IEEE-754 binary64 number, and [+], [-], [*] and
    [/] round to the nearest one, ties to even.  Rocq's primitive floats
    are the same numbers with the same operations.  The modules [PF64] and
    [SPF64] below embed the two scripts once more, statement by statement,
    with the floats of the source in place of the rationals; they are used
    where the rounding of a quotient decides which branch is taken. *)

Module B64.

Definition float : Set := PrimFloat.float.

(** [float(z)], the conversion Python applies to an [int] operand of a
    mixed operation; exact for [|z| <= 2^53], which covers every integer of
    the scripts. *)
Definition of_Z (z : Z) : float :=
  if z <? 0 then PrimFloat.opp (PrimFloat.of_uint63 (Uint63.of_Z (- z)))
  else PrimFloat.of_uint63 (Uint63.of_Z z).

Definition mul (x y : float) : float := PrimFloat.mul x y.
Definition div (x y : float) : float := PrimFloat.div x y.
Definition sub (x y : float) : float := PrimFloat.sub x y.
Definition add (x y : float) : float := PrimFloat.add x y.

Definition ltb (x y : float) : bool := PrimFloat.ltb x y.
Definition leb (x y : float) : bool := PrimFloat.leb x y.
Definition eqb (x y : float) : bool := PrimFloat.eqb x y.

(** The rational number a finite float stands for.  An infinity or a NaN,
    on which [math.floor], [math.ceil] and [int] raise, is given 0; none
    arises from the finite inputs and non-zero divisors of the searches. *)
Definition value (x : float) : Q :=
  match FloatOps.Prim2SF x with
  | SpecFloat.S754_finite s m e =>
      (inject_Z (if s then Z.neg m else Z.pos m)
       * (if 0 <=? e then inject_Z (2 ^ e) else / inject_Z (2 ^ (- e))))%Q
  | _ => 0%Q
  end.

(** [math.floor], [math.ceil] and [int()] of a float: exact integers. *)
Definition floor (x : float) : Z := Py.floor (value x).
Definition ceil (x : float) : Z := Py.ceil (value x).
Definition int (x : float) : Z := Py.int (value x).

(** [math.remainder(x, 1) == 0].  The IEEE remainder is computed without
    rounding, so the test is the one on the value of [x]. *)
Definition remainder_1_is_0 (x : float) : bool :=
  Py.eqb (Py.remainder (value x) 1) 0.

End B64.

(** Lines 88-91 of MAX2870pf.py and 112-115 of MAX2870spf.py on a float:
    [FracToMatch - int(FracToMatch)] is the fractional part of a float, a
    float itself, so the subtraction and the comparison with 0.5 are exact
    and the rounding is [round_frac] on the value of the quotient. *)
Definition round_frac64 (FracToMatch : B64.float) : Z :=
  round_frac (B64.value FracToMatch).

(** ** MAX2870pf.py in binary64 *)

Module PF64.

(** The variables of [PF.state]; the three that hold floats are floats. *)
Record state : Type := mkState {
  DesiredFrequency : B64.float;
  MinimumInt : Z;
  MaximumInt : Z;
  MaximumPFDFrequency : Z;
  NegativeFrequencyError : bool;
  MatchAttempted : bool;
  FrequencyError : B64.float;
  MatchingR : Z;
  MatchingInt : B64.float;
  MatchingMod : Z;
  MatchingFrac : Z;
  MatchingDivider : Z;
  MatchingDivider_PowerOf2 : Z;
  FractionalMode : bool
}.

(** Assignments to the module-level variables. *)
Definition set_DesiredFrequency v s :=
  mkState v (MinimumInt s) (MaximumInt s) (MaximumPFDFrequency s)
    (NegativeFrequencyError s) (MatchAttempted s) (FrequencyError s) (MatchingR s)
    (MatchingInt s) (MatchingMod s) (MatchingFrac s) (MatchingDivider s)
    (MatchingDivider_PowerOf2 s) (FractionalMode s).
Definition set_MinimumInt v s :=
  mkState (DesiredFrequency s) v (MaximumInt s) (MaximumPFDFrequency s)
    (NegativeFrequencyError s) (MatchAttempted s) (FrequencyError s) (MatchingR s)
    (MatchingInt s) (MatchingMod s) (MatchingFrac s) (MatchingDivider s)
    (MatchingDivider_PowerOf2 s) (FractionalMode s).
Definition set_MaximumInt v s :=
  mkState (DesiredFrequency s) (MinimumInt s) v (MaximumPFDFrequency s)
    (NegativeFrequencyError s) (MatchAttempted s) (FrequencyError s) (MatchingR s)
    (MatchingInt s) (MatchingMod s) (MatchingFrac s) (MatchingDivider s)
    (MatchingDivider_PowerOf2 s) (FractionalMode s).
Definition set_MaximumPFDFrequency v s :=
  mkState (DesiredFrequency s) (MinimumInt s) (MaximumInt s) v
    (NegativeFrequencyError s) (MatchAttempted s) (FrequencyError s) (MatchingR s)
    (MatchingInt s) (MatchingMod s) (MatchingFrac s) (MatchingDivider s)
    (MatchingDivider_PowerOf2 s) (FractionalMode s).
Definition set_NegativeFrequencyError v s :=
  mkState (DesiredFrequency s) (MinimumInt s) (MaximumInt s) (MaximumPFDFrequency s) v
    (MatchAttempted s) (FrequencyError s) (MatchingR s) (MatchingInt s) (MatchingMod s)
    (MatchingFrac s) (MatchingDivider s) (MatchingDivider_PowerOf2 s) (FractionalMode s).
Definition set_MatchAttempted v s :=
  mkState (DesiredFrequency s) (MinimumInt s) (MaximumInt s) (MaximumPFDFrequency s)
    (NegativeFrequencyError s) v (FrequencyError s) (MatchingR s) (MatchingInt s)
    (MatchingMod s) (MatchingFrac s) (MatchingDivider s) (MatchingDivider_PowerOf2 s)
    (FractionalMode s).
Definition set_FrequencyError v s :=
  mkState (DesiredFrequency s) (MinimumInt s) (MaximumInt s) (MaximumPFDFrequency s)
    (NegativeFrequencyError s) (MatchAttempted s) v (MatchingR s) (MatchingInt s)
    (MatchingMod s) (MatchingFrac s) (MatchingDivider s) (MatchingDivider_PowerOf2 s)
    (FractionalMode s).
Definition set_MatchingR v s :=
  mkState (DesiredFrequency s) (MinimumInt s) (MaximumInt s) (MaximumPFDFrequency s)
    (NegativeFrequencyError s) (MatchAttempted s) (FrequencyError s) v (MatchingInt s)
    (MatchingMod s) (MatchingFrac s) (MatchingDivider s) (MatchingDivider_PowerOf2 s)
    (FractionalMode s).
Definition set_MatchingInt v s :=
  mkState (DesiredFrequency s) (MinimumInt s) (MaximumInt s) (MaximumPFDFrequency s)
    (NegativeFrequencyError s) (MatchAttempted s) (FrequencyError s) (MatchingR s) v
    (MatchingMod s) (MatchingFrac s) (MatchingDivider s) (MatchingDivider_PowerOf2 s)
    (FractionalMode s).
Definition set_MatchingMod v s :=
  mkState (DesiredFrequency s) (MinimumInt s) (MaximumInt s) (MaximumPFDFrequency s)
    (NegativeFrequencyError s) (MatchAttempted s) (FrequencyError s) (MatchingR s)
    (MatchingInt s) v (MatchingFrac s) (MatchingDivider s) (MatchingDivider_PowerOf2 s)
    (FractionalMode s).
Definition set_MatchingFrac v s :=
  mkState (DesiredFrequency s) (MinimumInt s) (MaximumInt s) (MaximumPFDFrequency s)
    (NegativeFrequencyError s) (MatchAttempted s) (FrequencyError s) (MatchingR s)
    (MatchingInt s) (MatchingMod s) v (MatchingDivider s) (MatchingDivider_PowerOf2 s)
    (FractionalMode s).
Definition set_MatchingDivider v s :=
  mkState (DesiredFrequency s) (MinimumInt s) (MaximumInt s) (MaximumPFDFrequency s)
    (NegativeFrequencyError s) (MatchAttempted s) (FrequencyError s) (MatchingR s)
    (MatchingInt s) (MatchingMod s) (MatchingFrac s) v (MatchingDivider_PowerOf2 s)
    (FractionalMode s).
Definition set_MatchingDivider_PowerOf2 v s :=
  mkState (DesiredFrequency s) (MinimumInt s) (MaximumInt s) (MaximumPFDFrequency s)
    (NegativeFrequencyError s) (MatchAttempted s) (FrequencyError s) (MatchingR s)
    (MatchingInt s) (MatchingMod s) (MatchingFrac s) (MatchingDivider s) v
    (FractionalMode s).
Definition set_FractionalMode v s :=
  mkState (DesiredFrequency s) (MinimumInt s) (MaximumInt s) (MaximumPFDFrequency s)
    (NegativeFrequencyError s) (MatchAttempted s) (FrequencyError s) (MatchingR s)
    (MatchingInt s) (MatchingMod s) (MatchingFrac s) (MatchingDivider s)
    (MatchingDivider_PowerOf2 s) v.

(** The variables after lines 7-43. *)
Definition init (ReferenceFrequency DesiredFrequency : B64.float) : state :=
  {| DesiredFrequency := DesiredFrequency;
     MinimumInt := PF.MinimumInt_init;
     MaximumInt := PF.MaximumInt_init;
     MaximumPFDFrequency := PF.MaximumPFDFrequency_init;
     NegativeFrequencyError := false;
     MatchAttempted := false;
     FrequencyError := ReferenceFrequency;
     MatchingR := 1;
     MatchingInt := B64.of_Z 1;
     MatchingMod := 2;
     MatchingFrac := 0;
     MatchingDivider := 1;
     MatchingDivider_PowerOf2 := 0;
     FractionalMode := true |}.

(** Lines 47-49, with the pass counter of [PF.vco_loop]. *)
Fixpoint vco_loop (fuel : nat) (s : state) : option state :=
  if B64.ltb (DesiredFrequency s)
       (B64.div (B64.of_Z PF.MaximumRFFrequency) (B64.of_Z 2)) then
    match fuel with
    | O => None
    | S fuel' =>
        vco_loop fuel'
          (set_DesiredFrequency (B64.mul (DesiredFrequency s) (B64.of_Z 2))
             (set_MatchingDivider_PowerOf2 (MatchingDivider_PowerOf2 s + 1) s))
    end
  else Some s.

(** Lines 47-50. *)
Definition normalize (fuel : nat) (s : state) : option state :=
  match vco_loop fuel s with
  | Some s' => Some (set_MatchingDivider (2 ^ MatchingDivider_PowerOf2 s') s')
  | None => None
  end.

(** The guard of lines 54 and 77. *)
Definition pfd_ok (ReferenceFrequency : B64.float) (RtoMatch : Z) (s : state) : bool :=
  (0 <? RtoMatch)
  && B64.leb (B64.of_Z PF.MinimumPFDFrequency)
       (B64.div ReferenceFrequency (B64.of_Z RtoMatch))
  && B64.leb (B64.div ReferenceFrequency (B64.of_Z RtoMatch))
       (B64.of_Z (MaximumPFDFrequency s)).

(** Lines 54-68: the body of the integer-mode loop. *)
Definition int_body (ReferenceFrequency : B64.float) (RtoMatch : Z) (s : state)
  : state * flow :=
  if pfd_ok ReferenceFrequency RtoMatch s then
    let IntTemp :=
      B64.div (DesiredFrequency s) (B64.div ReferenceFrequency (B64.of_Z RtoMatch)) in
    if B64.leb (B64.of_Z (MinimumInt s)) IntTemp
       && B64.leb IntTemp (B64.of_Z (MaximumInt s)) then
      let s := set_MatchAttempted true s in
      if B64.remainder_1_is_0 IntTemp then
        (set_MatchingInt IntTemp
           (set_MatchingR RtoMatch
              (set_FractionalMode false (set_MatchAttempted true s))), Break)
      else (s, Next)
    else (s, Break)
  else if 0 <? RtoMatch then (s, Break) else (s, Next).

(** Lines 53-68. *)
Definition integer_search (ReferenceFrequency : B64.float) (s : state) : state :=
  for_in (int_body ReferenceFrequency) (range (PF.MaximumR + 1)) s.

(** Lines 84-107: the body of the MOD loop. *)
Definition mod_body (ReferenceFrequency : B64.float) (RtoMatch IntTemp : Z)
    (FrequencyRemainder : B64.float) (ModToMatch : Z) (s : state) : state * flow :=
  if 2 <=? ModToMatch then
    let OldFrequencyError := FrequencyError s in
    let ModFrequencyStep :=
      B64.div (B64.div ReferenceFrequency (B64.of_Z RtoMatch)) (B64.of_Z ModToMatch) in
    let FracToMatch := B64.div FrequencyRemainder ModFrequencyStep in
    let FracToMatch := round_frac64 FracToMatch in
    let FracToMatch := clamp_frac FracToMatch ModToMatch in
    let s := set_FrequencyError
               (B64.sub FrequencyRemainder
                  (B64.mul ModFrequencyStep (B64.of_Z FracToMatch))) s in
    let s := if B64.ltb (FrequencyError s) (B64.of_Z 0)
             then set_NegativeFrequencyError true
                    (set_FrequencyError
                       (B64.mul (FrequencyError s) (B64.of_Z (-1))) s)
             else set_NegativeFrequencyError false s in
    let s := if B64.ltb (FrequencyError s) OldFrequencyError
             then set_MatchingFrac FracToMatch
                    (set_MatchingMod ModToMatch
                       (set_MatchingInt (B64.of_Z IntTemp)
                          (set_MatchingR RtoMatch s)))
             else s in
    if B64.eqb (FrequencyError s) (B64.of_Z 0) then (s, Break) else (s, Next)
  else (s, Next).

(** Lines 77-115: the body of the fractional-mode R loop. *)
Definition frac_body (ReferenceFrequency : B64.float) (RtoMatch : Z) (s : state)
  : state * flow :=
  if pfd_ok ReferenceFrequency RtoMatch s then
    let IntTemp :=
      B64.div (DesiredFrequency s) (B64.div ReferenceFrequency (B64.of_Z RtoMatch)) in
    let IntTemp := B64.floor IntTemp in
    if (MinimumInt s <=? IntTemp) && (IntTemp <=? MaximumInt s) then
      let s := set_MatchAttempted true s in
      let FrequencyRemainder :=
        B64.sub (DesiredFrequency s)
          (B64.mul (B64.of_Z IntTemp)
             (B64.div ReferenceFrequency (B64.of_Z RtoMatch))) in
      let s := for_in (mod_body ReferenceFrequency RtoMatch IntTemp FrequencyRemainder)
                 (range (PF.MaximumMod + 1)) s in
      if B64.eqb (FrequencyError s) (B64.of_Z 0) then (s, Break) else (s, Next)
    else if MaximumInt s <? IntTemp then (s, Break) else (s, Next)
  else if 0 <? RtoMatch then (s, Break) else (s, Next).

(** Lines 71-115. *)
Definition fractional_search (ReferenceFrequency : B64.float) (s : state) : state :=
  if FractionalMode s then
    let s := set_MinimumInt 19 s in
    let s := set_MaximumInt 4091 s in
    let s := set_MaximumPFDFrequency 50000000 s in
    for_in (frac_body ReferenceFrequency) (range (PF.MaximumR + 1)) s
  else s.

(** What the script prints (lines 117-139). *)
Inductive printed : Type :=
| ReferenceOutOfRange
| RFOutOfRange
| NotPossible
| IntegerReport (R : Z) (Int : B64.float) (Mod Frac Divider Divider_PowerOf2 : Z)
| FractionalReport (error actual : B64.float)
    (R : Z) (Int : B64.float) (Mod Frac Divider Divider_PowerOf2 : Z).

(** Lines 117-135. *)
Definition report (s : state) : state * printed :=
  if MatchAttempted s then
    let s := set_DesiredFrequency
               (B64.div (DesiredFrequency s) (B64.of_Z (MatchingDivider s))) s in
    if FractionalMode s then
      let s := if NegativeFrequencyError s
               then set_FrequencyError
                      (B64.mul (FrequencyError s) (B64.of_Z (-1))) s
               else s in
      let s := set_FrequencyError
                 (B64.div (FrequencyError s) (B64.of_Z (MatchingDivider s))) s in
      (s, FractionalReport (FrequencyError s)
            (B64.add (DesiredFrequency s) (FrequencyError s))
            (MatchingR s) (MatchingInt s) (MatchingMod s) (MatchingFrac s)
            (MatchingDivider s) (MatchingDivider_PowerOf2 s))
    else
      (s, IntegerReport (MatchingR s) (MatchingInt s) (MatchingMod s) (MatchingFrac s)
            (MatchingDivider s) (MatchingDivider_PowerOf2 s))
  else (s, NotPossible).

(** Lines 47-115: normalisation and the two searches. *)
Definition search (fuel : nat) (ReferenceFrequency : B64.float) (s : state)
  : option state :=
  match normalize fuel s with
  | Some s => Some (fractional_search ReferenceFrequency
                      (integer_search ReferenceFrequency s))
  | None => None
  end.

(** Lines 41-139: the whole script on [--ref] and [--rf]. *)
Definition main (fuel : nat) (ReferenceFrequency DesiredFrequency : B64.float)
  : option (state * printed) :=
  let s := init ReferenceFrequency DesiredFrequency in
  if B64.leb (B64.of_Z PF.MinimumReferenceFrequency) ReferenceFrequency
     && B64.leb ReferenceFrequency (B64.of_Z PF.MaximumReferenceFrequency) then
    if B64.leb (B64.of_Z PF.MinimumRFFrequency) (PF64.DesiredFrequency s)
       && B64.leb (PF64.DesiredFrequency s) (B64.of_Z PF.MaximumRFFrequency) then
      match search fuel ReferenceFrequency s with
      | Some s => Some (report s)
      | None => None
      end
    else Some (s, RFOutOfRange)
  else Some (s, ReferenceOutOfRange).

End PF64.

(** ** MAX2870spf.py in binary64 *)

Module SPF64.

(** The variables of [SPF.state]; the three that hold floats are floats. *)
Record state : Type := mkState {
  DesiredFrequency : B64.float;
  MinimumInt : Z;
  MaximumInt : Z;
  MaximumPFDFrequency : Z;
  NegativeFrequencyError : bool;
  MatchAttempted : bool;
  IntegerMode : bool;
  FrequencyError : B64.float;
  ReferenceFrequencyToMatch : Z;
  FinalReferenceFrequency : Z;
  MatchingR : Z;
  MatchingInt : B64.float;
  MatchingMod : Z;
  MatchingFrac : Z;
  MatchingDivider : Z;
  MatchingDivider_PowerOf2 : Z;
  FractionalMode : bool
}.

(** Assignments to the module-level variables. *)
Definition set_DesiredFrequency v s :=
  mkState v (MinimumInt s) (MaximumInt s) (MaximumPFDFrequency s)
    (NegativeFrequencyError s) (MatchAttempted s) (IntegerMode s) (FrequencyError s)
    (ReferenceFrequencyToMatch s) (FinalReferenceFrequency s) (MatchingR s)
    (MatchingInt s) (MatchingMod s) (MatchingFrac s) (MatchingDivider s)
    (MatchingDivider_PowerOf2 s) (FractionalMode s).
Definition set_MinimumInt v s :=
  mkState (DesiredFrequency s) v (MaximumInt s) (MaximumPFDFrequency s)
    (NegativeFrequencyError s) (MatchAttempted s) (IntegerMode s) (FrequencyError s)
    (ReferenceFrequencyToMatch s) (FinalReferenceFrequency s) (MatchingR s)
    (MatchingInt s) (MatchingMod s) (MatchingFrac s) (MatchingDivider s)
    (MatchingDivider_PowerOf2 s) (FractionalMode s).
Definition set_MaximumInt v s :=
  mkState (DesiredFrequency s) (MinimumInt s) v (MaximumPFDFrequency s)
    (NegativeFrequencyError s) (MatchAttempted s) (IntegerMode s) (FrequencyError s)
    (ReferenceFrequencyToMatch s) (FinalReferenceFrequency s) (MatchingR s)
    (MatchingInt s) (MatchingMod s) (MatchingFrac s) (MatchingDivider s)
    (MatchingDivider_PowerOf2 s) (FractionalMode s).
Definition set_MaximumPFDFrequency v s :=
  mkState (DesiredFrequency s) (MinimumInt s) (MaximumInt s) v
    (NegativeFrequencyError s) (MatchAttempted s) (IntegerMode s) (FrequencyError s)
    (ReferenceFrequencyToMatch s) (FinalReferenceFrequency s) (MatchingR s)
    (MatchingInt s) (MatchingMod s) (MatchingFrac s) (MatchingDivider s)
    (MatchingDivider_PowerOf2 s) (FractionalMode s).
Definition set_NegativeFrequencyError v s :=
  mkState (DesiredFrequency s) (MinimumInt s) (MaximumInt s) (MaximumPFDFrequency s) v
    (MatchAttempted s) (IntegerMode s) (FrequencyError s) (ReferenceFrequencyToMatch s)
    (FinalReferenceFrequency s) (MatchingR s) (MatchingInt s) (MatchingMod s)
    (MatchingFrac s) (MatchingDivider s) (MatchingDivider_PowerOf2 s) (FractionalMode s).
Definition set_MatchAttempted v s :=
  mkState (DesiredFrequency s) (MinimumInt s) (MaximumInt s) (MaximumPFDFrequency s)
    (NegativeFrequencyError s) v (IntegerMode s) (FrequencyError s)
    (ReferenceFrequencyToMatch s) (FinalReferenceFrequency s) (MatchingR s)
    (MatchingInt s) (MatchingMod s) (MatchingFrac s) (MatchingDivider s)
    (MatchingDivider_PowerOf2 s) (FractionalMode s).
Definition set_IntegerMode v s :=
  mkState (DesiredFrequency s) (MinimumInt s) (MaximumInt s) (MaximumPFDFrequency s)
    (NegativeFrequencyError s) (MatchAttempted s) v (FrequencyError s)
    (ReferenceFrequencyToMatch s) (FinalReferenceFrequency s) (MatchingR s)
    (MatchingInt s) (MatchingMod s) (MatchingFrac s) (MatchingDivider s)
    (MatchingDivider_PowerOf2 s) (FractionalMode s).
Definition set_FrequencyError v s :=
  mkState (DesiredFrequency s) (MinimumInt s) (MaximumInt s) (MaximumPFDFrequency s)
    (NegativeFrequencyError s) (MatchAttempted s) (IntegerMode s) v
    (ReferenceFrequencyToMatch s) (FinalReferenceFrequency s) (MatchingR s)
    (MatchingInt s) (MatchingMod s) (MatchingFrac s) (MatchingDivider s)
    (MatchingDivider_PowerOf2 s) (FractionalMode s).
Definition set_ReferenceFrequencyToMatch v s :=
  mkState (DesiredFrequency s) (MinimumInt s) (MaximumInt s) (MaximumPFDFrequency s)
    (NegativeFrequencyError s) (MatchAttempted s) (IntegerMode s) (FrequencyError s) v
    (FinalReferenceFrequency s) (MatchingR s) (MatchingInt s) (MatchingMod s)
    (MatchingFrac s) (MatchingDivider s) (MatchingDivider_PowerOf2 s) (FractionalMode s).
Definition set_FinalReferenceFrequency v s :=
  mkState (DesiredFrequency s) (MinimumInt s) (MaximumInt s) (MaximumPFDFrequency s)
    (NegativeFrequencyError s) (MatchAttempted s) (IntegerMode s) (FrequencyError s)
    (ReferenceFrequencyToMatch s) v (MatchingR s) (MatchingInt s) (MatchingMod s)
    (MatchingFrac s) (MatchingDivider s) (MatchingDivider_PowerOf2 s) (FractionalMode s).
Definition set_MatchingR v s :=
  mkState (DesiredFrequency s) (MinimumInt s) (MaximumInt s) (MaximumPFDFrequency s)
    (NegativeFrequencyError s) (MatchAttempted s) (IntegerMode s) (FrequencyError s)
    (ReferenceFrequencyToMatch s) (FinalReferenceFrequency s) v (MatchingInt s)
    (MatchingMod s) (MatchingFrac s) (MatchingDivider s) (MatchingDivider_PowerOf2 s)
    (FractionalMode s).
Definition set_MatchingInt v s :=
  mkState (DesiredFrequency s) (MinimumInt s) (MaximumInt s) (MaximumPFDFrequency s)
    (NegativeFrequencyError s) (MatchAttempted s) (IntegerMode s) (FrequencyError s)
    (ReferenceFrequencyToMatch s) (FinalReferenceFrequency s) (MatchingR s) v
    (MatchingMod s) (MatchingFrac s) (MatchingDivider s) (MatchingDivider_PowerOf2 s)
    (FractionalMode s).
Definition set_MatchingMod v s :=
  mkState (DesiredFrequency s) (MinimumInt s) (MaximumInt s) (MaximumPFDFrequency s)
    (NegativeFrequencyError s) (MatchAttempted s) (IntegerMode s) (FrequencyError s)
    (ReferenceFrequencyToMatch s) (FinalReferenceFrequency s) (MatchingR s)
    (MatchingInt s) v (MatchingFrac s) (MatchingDivider s) (MatchingDivider_PowerOf2 s)
    (FractionalMode s).
Definition set_MatchingFrac v s :=
  mkState (DesiredFrequency s) (MinimumInt s) (MaximumInt s) (MaximumPFDFrequency s)
    (NegativeFrequencyError s) (MatchAttempted s) (IntegerMode s) (FrequencyError s)
    (ReferenceFrequencyToMatch s) (FinalReferenceFrequency s) (MatchingR s)
    (MatchingInt s) (MatchingMod s) v (MatchingDivider s) (MatchingDivider_PowerOf2 s)
    (FractionalMode s).
Definition set_MatchingDivider v s :=
  mkState (DesiredFrequency s) (MinimumInt s) (MaximumInt s) (MaximumPFDFrequency s)
    (NegativeFrequencyError s) (MatchAttempted s) (IntegerMode s) (FrequencyError s)
    (ReferenceFrequencyToMatch s) (FinalReferenceFrequency s) (MatchingR s)
    (MatchingInt s) (MatchingMod s) (MatchingFrac s) v (MatchingDivider_PowerOf2 s)
    (FractionalMode s).
Definition set_MatchingDivider_PowerOf2 v s :=
  mkState (DesiredFrequency s) (MinimumInt s) (MaximumInt s) (MaximumPFDFrequency s)
    (NegativeFrequencyError s) (MatchAttempted s) (IntegerMode s) (FrequencyError s)
    (ReferenceFrequencyToMatch s) (FinalReferenceFrequency s) (MatchingR s)
    (MatchingInt s) (MatchingMod s) (MatchingFrac s) (MatchingDivider s) v
    (FractionalMode s).
Definition set_FractionalMode v s :=
  mkState (DesiredFrequency s) (MinimumInt s) (MaximumInt s) (MaximumPFDFrequency s)
    (NegativeFrequencyError s) (MatchAttempted s) (IntegerMode s) (FrequencyError s)
    (ReferenceFrequencyToMatch s) (FinalReferenceFrequency s) (MatchingR s)
    (MatchingInt s) (MatchingMod s) (MatchingFrac s) (MatchingDivider s)
    (MatchingDivider_PowerOf2 s) v.

(** The variables after lines 7-46. *)
Definition init (DesiredFrequency : B64.float) : state :=
  {| DesiredFrequency := DesiredFrequency;
     MinimumInt := SPF.MinimumInt_init;
     MaximumInt := SPF.MaximumInt_init;
     MaximumPFDFrequency := SPF.MaximumPFDFrequency_init;
     NegativeFrequencyError := false;
     MatchAttempted := false;
     IntegerMode := true;
     FrequencyError := B64.of_Z SPF.MaximumReferenceFrequency;
     ReferenceFrequencyToMatch := 0;
     FinalReferenceFrequency := 0;
     MatchingR := 1;
     MatchingInt := B64.of_Z 1;
     MatchingMod := 2;
     MatchingFrac := 0;
     MatchingDivider := 1;
     MatchingDivider_PowerOf2 := 0;
     FractionalMode := true |}.

(** Lines 64-66, with the pass counter of [SPF.vco_loop]. *)
Fixpoint vco_loop (fuel : nat) (s : state) : option state :=
  if B64.ltb (DesiredFrequency s)
       (B64.div (B64.of_Z SPF.MaximumRFFrequency) (B64.of_Z 2)) then
    match fuel with
    | O => None
    | S fuel' =>
        vco_loop fuel'
          (set_DesiredFrequency (B64.mul (DesiredFrequency s) (B64.of_Z 2))
             (set_MatchingDivider_PowerOf2 (MatchingDivider_PowerOf2 s + 1) s))
    end
  else Some s.

(** Lines 64-67. *)
Definition normalize (fuel : nat) (s : state) : option state :=
  match vco_loop fuel s with
  | Some s' => Some (set_MatchingDivider (2 ^ MatchingDivider_PowerOf2 s') s')
  | None => None
  end.

(** [ReferenceFrequencyToMatch / RtoMatch]: the quotient of two [int]s,
    rounded once. *)
Definition pfd (RtoMatch : Z) (s : state) : B64.float :=
  B64.div (B64.of_Z (ReferenceFrequencyToMatch s)) (B64.of_Z RtoMatch).

(** The guard of lines 76 and 102. *)
Definition pfd_ok (RtoMatch : Z) (s : state) : bool :=
  (0 <? RtoMatch)
  && B64.leb (B64.of_Z SPF.MinimumPFDFrequency) (pfd RtoMatch s)
  && B64.leb (pfd RtoMatch s) (B64.of_Z (MaximumPFDFrequency s)).

(** Lines 76-90: the body of the integer-mode loop. *)
Definition int_body (RtoMatch : Z) (s : state) : state * flow :=
  if pfd_ok RtoMatch s then
    let IntTemp := B64.div (DesiredFrequency s) (pfd RtoMatch s) in
    if B64.leb (B64.of_Z (MinimumInt s)) IntTemp
       && B64.leb IntTemp (B64.of_Z (MaximumInt s)) then
      let s := set_MatchAttempted true s in
      if B64.remainder_1_is_0 IntTemp then
        (set_MatchingFrac 0
           (set_MatchingMod 2
              (set_MatchingInt IntTemp
                 (set_MatchingR RtoMatch
                    (set_FractionalMode false
                       (set_MatchAttempted true
                          (set_FinalReferenceFrequency
                             (ReferenceFrequencyToMatch s) s)))))), Break)
      else (s, Next)
    else (s, Break)
  else (s, Next).

(** Lines 74-90. *)
Definition integer_search (s : state) : state :=
  let s := set_MaximumPFDFrequency 105000000 s in
  for_in int_body (range (SPF.MaximumR + 1)) s.

(** Lines 103-104: [IntTemp] of the fractional-mode loop. *)
Definition int_temp (RtoMatch : Z) (s : state) : Z :=
  B64.floor (B64.div (DesiredFrequency s) (pfd RtoMatch s)).

(** Line 107. *)
Definition frequency_remainder (RtoMatch IntTemp : Z) (s : state) : B64.float :=
  B64.sub (DesiredFrequency s) (B64.mul (B64.of_Z IntTemp) (pfd RtoMatch s)).

(** Line 110. *)
Definition mod_frequency_step (RtoMatch ModToMatch : Z) (s : state) : B64.float :=
  B64.div (pfd RtoMatch s) (B64.of_Z ModToMatch).

(** Lines 111-117: FRAC of the pair. *)
Definition frac_to_match (FrequencyRemainder ModFrequencyStep : B64.float)
    (ModToMatch : Z) : Z :=
  let FracToMatch := B64.div FrequencyRemainder ModFrequencyStep in
  let FracToMatch := round_frac64 FracToMatch in
  clamp_frac FracToMatch ModToMatch.

(** Lines 109-132: the body of the MOD loop. *)
Definition mod_body (RtoMatch IntTemp : Z) (FrequencyRemainder : B64.float)
    (ModToMatch : Z) (s : state) : state * flow :=
  if 2 <=? ModToMatch then
    let ModFrequencyStep := mod_frequency_step RtoMatch ModToMatch s in
    let FracToMatch := frac_to_match FrequencyRemainder ModFrequencyStep ModToMatch in
    let NewFrequencyError :=
      B64.sub FrequencyRemainder (B64.mul ModFrequencyStep (B64.of_Z FracToMatch)) in
    let '(NewFrequencyError, s) :=
      if B64.ltb NewFrequencyError (B64.of_Z 0)
      then (B64.mul NewFrequencyError (B64.of_Z (-1)), set_NegativeFrequencyError true s)
      else (NewFrequencyError, set_NegativeFrequencyError false s) in
    let s := if B64.ltb NewFrequencyError (FrequencyError s)
             then set_MatchingFrac FracToMatch
                    (set_MatchingMod ModToMatch
                       (set_MatchingInt (B64.of_Z IntTemp)
                          (set_MatchingR RtoMatch
                             (set_FrequencyError NewFrequencyError
                                (set_FinalReferenceFrequency
                                   (ReferenceFrequencyToMatch s) s)))))
             else s in
    if B64.eqb (FrequencyError s) (B64.of_Z 0) then (s, Break) else (s, Next)
  else (s, Next).

(** Lines 102-134: the body of the fractional-mode R loop. *)
Definition frac_body (RtoMatch : Z) (s : state) : state * flow :=
  if pfd_ok RtoMatch s then
    let IntTemp := int_temp RtoMatch s in
    if (MinimumInt s <=? IntTemp) && (IntTemp <=? MaximumInt s) then
      let s := set_MatchAttempted true s in
      let FrequencyRemainder := frequency_remainder RtoMatch IntTemp s in
      let s := for_in (mod_body RtoMatch IntTemp FrequencyRemainder)
                 (range (SPF.MaximumMod + 1)) s in
      if B64.eqb (FrequencyError s) (B64.of_Z 0) then (s, Break) else (s, Next)
    else (s, Next)
  else (s, Next).

(** Lines 96-134. *)
Definition fractional_search (s : state) : state :=
  let s := set_IntegerMode false s in
  let s := set_MinimumInt 19 s in
  let s := set_MaximumInt 4091 s in
  let s := set_MaximumPFDFrequency 50000000 s in
  for_in frac_body (range (SPF.MaximumR + 1)) s.

(** Lines 72-136: the searches of one step, on the normalised state. *)
Definition search_step (s : state) : state * flow :=
  let s := if IntegerMode s then integer_search s else s in
  if IntegerMode s && negb (FractionalMode s) then (s, Break)
  else
    let s := if FractionalMode s then fractional_search s else s in
    if B64.eqb (FrequencyError s) (B64.of_Z 0) then (s, Break) else (s, Next).

(** Lines 59-136: the body of the sweep, for one step. *)
Definition sweep_body (fuel : nat) (ReferenceFrequencyStart : Z)
    (ReferenceFrequencyStepToMatch : Z) (s : state) : option (state * flow) :=
  let s := set_ReferenceFrequencyToMatch
             (ReferenceFrequencyStart + ReferenceFrequencyStepToMatch) s in
  let s := set_FractionalMode true s in
  if B64.leb (B64.of_Z SPF.MinimumRFFrequency) (DesiredFrequency s)
     && B64.leb (DesiredFrequency s) (B64.of_Z SPF.MaximumRFFrequency) then
    match normalize fuel s with
    | None => None
    | Some s => Some (search_step s)
    end
  else Some (s, Break).

(** Lines 48-136: the clamps and the sweep. *)
Definition sweep (fuel : nat) (DesiredFrequency : B64.float)
    (ReferenceFrequencyStart ReferenceSteps : Z) : option state :=
  let ReferenceSteps := SPF.clamp_steps ReferenceSteps in
  let ReferenceFrequencyStart :=
    SPF.clamp_start ReferenceFrequencyStart ReferenceSteps in
  for_in_opt (sweep_body fuel ReferenceFrequencyStart)
    (range (ReferenceSteps + 1)) (init DesiredFrequency).

(** What the script prints at the end (lines 138-157). *)
Inductive printed : Type :=
| NotPossible
| IntegerReport (R : Z) (Int : B64.float) (Mod Frac Divider Divider_PowerOf2 : Z)
    (Reference : Z)
| FractionalReport (error actual : B64.float)
    (R : Z) (Int : B64.float) (Mod Frac Divider Divider_PowerOf2 : Z) (Reference : Z).

(** Lines 138-157. *)
Definition report (s : state) : state * printed :=
  if MatchAttempted s then
    let s := set_DesiredFrequency
               (B64.div (DesiredFrequency s) (B64.of_Z (MatchingDivider s))) s in
    if FractionalMode s then
      let s := if NegativeFrequencyError s
               then set_FrequencyError
                      (B64.div (B64.mul (FrequencyError s) (B64.of_Z (-1)))
                         (B64.of_Z (MatchingDivider s))) s
               else s in
      (s, FractionalReport (FrequencyError s)
            (B64.add (DesiredFrequency s) (FrequencyError s))
            (MatchingR s) (MatchingInt s) (MatchingMod s) (MatchingFrac s)
            (MatchingDivider s) (MatchingDivider_PowerOf2 s)
            (FinalReferenceFrequency s))
    else
      (s, IntegerReport (MatchingR s) (MatchingInt s) (MatchingMod s) (MatchingFrac s)
            (MatchingDivider s) (MatchingDivider_PowerOf2 s)
            (FinalReferenceFrequency s))
  else (s, NotPossible).

(** Lines 43-157: the whole script on [--rf], [--refstart] and [--steps]. *)
Definition main (fuel : nat) (DesiredFrequency : B64.float)
    (ReferenceFrequencyStart ReferenceSteps : Z) : option (state * printed) :=
  match sweep fuel DesiredFrequency ReferenceFrequencyStart ReferenceSteps with
  | Some s => Some (report s)
  | None => None
  end.

End SPF64.
(** ** Vocabulary of the statements *)

(** [dbl j f]: the frequency after [j] passes of the doubling loop. *)
Fixpoint dbl (j : nat) (f : Q) : Q :=
  match j with
  | O => f
  | S j' => dbl j' (f * 2)
  end.

(** Reduce the assignments and the reads of the fields they set:
    [pf_fields] unfolds the assignments to records (for a few of them),
    [pf_get] only reads fields through them. *)
Ltac pf_fields :=
  unfold PF.set_DesiredFrequency, PF.set_MinimumInt, PF.set_MaximumInt,
    PF.set_MaximumPFDFrequency, PF.set_NegativeFrequencyError, PF.set_MatchAttempted,
    PF.set_FrequencyError, PF.set_MatchingR, PF.set_MatchingInt, PF.set_MatchingMod,
    PF.set_MatchingFrac, PF.set_MatchingDivider, PF.set_MatchingDivider_PowerOf2,
    PF.set_FractionalMode;
  cbn [PF.DesiredFrequency PF.MinimumInt PF.MaximumInt PF.MaximumPFDFrequency
    PF.NegativeFrequencyError PF.MatchAttempted PF.FrequencyError PF.MatchingR
    PF.MatchingInt PF.MatchingMod PF.MatchingFrac PF.MatchingDivider
    PF.MatchingDivider_PowerOf2 PF.FractionalMode].
Ltac pf_get :=
  cbn [
    PF.set_DesiredFrequency PF.set_MinimumInt PF.set_MaximumInt
    PF.set_MaximumPFDFrequency PF.set_NegativeFrequencyError PF.set_MatchAttempted
    PF.set_FrequencyError PF.set_MatchingR PF.set_MatchingInt PF.set_MatchingMod
    PF.set_MatchingFrac PF.set_MatchingDivider PF.set_MatchingDivider_PowerOf2
    PF.set_FractionalMode PF.DesiredFrequency PF.MinimumInt PF.MaximumInt
    PF.MaximumPFDFrequency PF.NegativeFrequencyError PF.MatchAttempted
    PF.FrequencyError PF.MatchingR PF.MatchingInt PF.MatchingMod PF.MatchingFrac
    PF.MatchingDivider PF.MatchingDivider_PowerOf2 PF.FractionalMode].
Ltac pf_fields_in H :=
  unfold PF.set_DesiredFrequency, PF.set_MinimumInt, PF.set_MaximumInt,
    PF.set_MaximumPFDFrequency, PF.set_NegativeFrequencyError, PF.set_MatchAttempted,
    PF.set_FrequencyError, PF.set_MatchingR, PF.set_MatchingInt, PF.set_MatchingMod,
    PF.set_MatchingFrac, PF.set_MatchingDivider, PF.set_MatchingDivider_PowerOf2,
    PF.set_FractionalMode in H;
  cbn [PF.DesiredFrequency PF.MinimumInt PF.MaximumInt PF.MaximumPFDFrequency
    PF.NegativeFrequencyError PF.MatchAttempted PF.FrequencyError PF.MatchingR
    PF.MatchingInt PF.MatchingMod PF.MatchingFrac PF.MatchingDivider
    PF.MatchingDivider_PowerOf2 PF.FractionalMode] in H.
Ltac pf_get_in H :=
  cbn [
    PF.set_DesiredFrequency PF.set_MinimumInt PF.set_MaximumInt
    PF.set_MaximumPFDFrequency PF.set_NegativeFrequencyError PF.set_MatchAttempted
    PF.set_FrequencyError PF.set_MatchingR PF.set_MatchingInt PF.set_MatchingMod
    PF.set_MatchingFrac PF.set_MatchingDivider PF.set_MatchingDivider_PowerOf2
    PF.set_FractionalMode PF.DesiredFrequency PF.MinimumInt PF.MaximumInt
    PF.MaximumPFDFrequency PF.NegativeFrequencyError PF.MatchAttempted
    PF.FrequencyError PF.MatchingR PF.MatchingInt PF.MatchingMod PF.MatchingFrac
    PF.MatchingDivider PF.MatchingDivider_PowerOf2 PF.FractionalMode] in H.

Ltac spf_fields :=
  unfold SPF.set_DesiredFrequency, SPF.set_MinimumInt, SPF.set_MaximumInt,
    SPF.set_MaximumPFDFrequency, SPF.set_NegativeFrequencyError,
    SPF.set_MatchAttempted, SPF.set_IntegerMode, SPF.set_FrequencyError,
    SPF.set_ReferenceFrequencyToMatch, SPF.set_FinalReferenceFrequency,
    SPF.set_MatchingR, SPF.set_MatchingInt, SPF.set_MatchingMod, SPF.set_MatchingFrac,
    SPF.set_MatchingDivider, SPF.set_MatchingDivider_PowerOf2, SPF.set_FractionalMode;
  cbn [SPF.DesiredFrequency SPF.MinimumInt SPF.MaximumInt SPF.MaximumPFDFrequency
    SPF.NegativeFrequencyError SPF.MatchAttempted SPF.IntegerMode SPF.FrequencyError
    SPF.ReferenceFrequencyToMatch SPF.FinalReferenceFrequency SPF.MatchingR
    SPF.MatchingInt SPF.MatchingMod SPF.MatchingFrac SPF.MatchingDivider
    SPF.MatchingDivider_PowerOf2 SPF.FractionalMode].
Ltac spf_get :=
  cbn [
    SPF.set_DesiredFrequency SPF.set_MinimumInt SPF.set_MaximumInt
    SPF.set_MaximumPFDFrequency SPF.set_NegativeFrequencyError SPF.set_MatchAttempted
    SPF.set_IntegerMode SPF.set_FrequencyError SPF.set_ReferenceFrequencyToMatch
    SPF.set_FinalReferenceFrequency SPF.set_MatchingR SPF.set_MatchingInt
    SPF.set_MatchingMod SPF.set_MatchingFrac SPF.set_MatchingDivider
    SPF.set_MatchingDivider_PowerOf2 SPF.set_FractionalMode SPF.DesiredFrequency
    SPF.MinimumInt SPF.MaximumInt SPF.MaximumPFDFrequency SPF.NegativeFrequencyError
    SPF.MatchAttempted SPF.IntegerMode SPF.FrequencyError
    SPF.ReferenceFrequencyToMatch SPF.FinalReferenceFrequency SPF.MatchingR
    SPF.MatchingInt SPF.MatchingMod SPF.MatchingFrac SPF.MatchingDivider
    SPF.MatchingDivider_PowerOf2 SPF.FractionalMode].
Ltac spf_fields_in H :=
  unfold SPF.set_DesiredFrequency, SPF.set_MinimumInt, SPF.set_MaximumInt,
    SPF.set_MaximumPFDFrequency, SPF.set_NegativeFrequencyError,
    SPF.set_MatchAttempted, SPF.set_IntegerMode, SPF.set_FrequencyError,
    SPF.set_ReferenceFrequencyToMatch, SPF.set_FinalReferenceFrequency,
    SPF.set_MatchingR, SPF.set_MatchingInt, SPF.set_MatchingMod, SPF.set_MatchingFrac,
    SPF.set_MatchingDivider, SPF.set_MatchingDivider_PowerOf2, SPF.set_FractionalMode in H;
  cbn [SPF.DesiredFrequency SPF.MinimumInt SPF.MaximumInt SPF.MaximumPFDFrequency
    SPF.NegativeFrequencyError SPF.MatchAttempted SPF.IntegerMode SPF.FrequencyError
    SPF.ReferenceFrequencyToMatch SPF.FinalReferenceFrequency SPF.MatchingR
    SPF.MatchingInt SPF.MatchingMod SPF.MatchingFrac SPF.MatchingDivider
    SPF.MatchingDivider_PowerOf2 SPF.FractionalMode] in H.
Ltac spf_get_in H :=
  cbn [
    SPF.set_DesiredFrequency SPF.set_MinimumInt SPF.set_MaximumInt
    SPF.set_MaximumPFDFrequency SPF.set_NegativeFrequencyError SPF.set_MatchAttempted
    SPF.set_IntegerMode SPF.set_FrequencyError SPF.set_ReferenceFrequencyToMatch
    SPF.set_FinalReferenceFrequency SPF.set_MatchingR SPF.set_MatchingInt
    SPF.set_MatchingMod SPF.set_MatchingFrac SPF.set_MatchingDivider
    SPF.set_MatchingDivider_PowerOf2 SPF.set_FractionalMode SPF.DesiredFrequency
    SPF.MinimumInt SPF.MaximumInt SPF.MaximumPFDFrequency SPF.NegativeFrequencyError
    SPF.MatchAttempted SPF.IntegerMode SPF.FrequencyError
    SPF.ReferenceFrequencyToMatch SPF.FinalReferenceFrequency SPF.MatchingR
    SPF.MatchingInt SPF.MatchingMod SPF.MatchingFrac SPF.MatchingDivider
    SPF.MatchingDivider_PowerOf2 SPF.FractionalMode] in H.

(** The three guards of the integer-mode loop taken together (lines 54, 56
    and 58 of MAX2870pf.py): [R] is an exact integer match on state [s]. *)
Definition pf_IntTemp (ref : Q) (s : PF.state) (R : Z) : Q :=
  (PF.DesiredFrequency s / (ref / Zq R))%Q.

Definition pf_exact_at (ref : Q) (s : PF.state) (R : Z) : bool :=
  PF.pfd_ok ref R s
  && (leb (Zq (PF.MinimumInt s)) (pf_IntTemp ref s R)
      && leb (pf_IntTemp ref s R) (Zq (PF.MaximumInt s)))
  && eqb (remainder (pf_IntTemp ref s R) 1) 0.

(** The assignments of lines 59-62. *)
Definition pf_matched (ref : Q) (R : Z) (s : PF.state) : PF.state :=
  PF.set_MatchingInt (pf_IntTemp ref s R)
    (PF.set_MatchingR R (PF.set_FractionalMode false (PF.set_MatchAttempted true s))).

(** The same for MAX2870spf.py (lines 76, 78, 80 and 81-87). *)
Definition spf_IntTemp (s : SPF.state) (R : Z) : Q :=
  (SPF.DesiredFrequency s / (Zq (SPF.ReferenceFrequencyToMatch s) / Zq R))%Q.

Definition spf_exact_at (s : SPF.state) (R : Z) : bool :=
  SPF.pfd_ok R s
  && (leb (Zq (SPF.MinimumInt s)) (spf_IntTemp s R)
      && leb (spf_IntTemp s R) (Zq (SPF.MaximumInt s)))
  && eqb (remainder (spf_IntTemp s R) 1) 0.

Definition spf_matched (R : Z) (s : SPF.state) : SPF.state :=
  SPF.set_MatchingFrac 0
    (SPF.set_MatchingMod 2
       (SPF.set_MatchingInt (spf_IntTemp s R)
          (SPF.set_MatchingR R
             (SPF.set_FractionalMode false
                (SPF.set_MatchAttempted true
                   (SPF.set_FinalReferenceFrequency
                      (SPF.ReferenceFrequencyToMatch s) s)))))).

(** Case analysis on every [if] of the goal. *)
Ltac split_ifs :=
  repeat match goal with
    | |- context [if ?c then _ else _] => destruct c eqn:?
    end.

(** The reported FRAC and MOD are in range. *)
Definition pf_frac_ok (s : PF.state) : Prop :=
  0 <= PF.MatchingFrac s < PF.MatchingMod s
  /\ 2 <= PF.MatchingMod s <= PF.MaximumMod.

Definition spf_frac_ok (s : SPF.state) : Prop :=
  0 <= SPF.MatchingFrac s < SPF.MatchingMod s
  /\ 2 <= SPF.MatchingMod s <= SPF.MaximumMod.

(** What the fractional-mode loops of MAX2870pf.py leave as it was. *)
Definition pf_kept (s s' : PF.state) : Prop :=
  PF.DesiredFrequency s' = PF.DesiredFrequency s
  /\ PF.MatchingDivider s' = PF.MatchingDivider s
  /\ PF.MatchingDivider_PowerOf2 s' = PF.MatchingDivider_PowerOf2 s
  /\ PF.FractionalMode s' = PF.FractionalMode s
  /\ PF.MinimumInt s' = PF.MinimumInt s
  /\ PF.MaximumInt s' = PF.MaximumInt s
  /\ PF.MaximumPFDFrequency s' = PF.MaximumPFDFrequency s
  /\ (PF.MatchAttempted s = true -> PF.MatchAttempted s' = true).

(** An exact integer-mode solution at [R]: the phase-detector frequency
    [ref / R] is within the integer-mode limits and [vco / (ref / R)] is an
    integer within [[16, 65535]]. *)
Definition integer_match (ref vco : Q) (R : Z) : Prop :=
  0 < R
  /\ (125000 <= ref / Zq R)%Q /\ (ref / Zq R <= 105000000)%Q
  /\ exists n : Z, (vco / (ref / Zq R) == Zq n)%Q /\ 16 <= n <= 65535.

(** What the fractional-mode loops of MAX2870spf.py leave as it was. *)
Definition spf_kept (s s' : SPF.state) : Prop :=
  SPF.DesiredFrequency s' = SPF.DesiredFrequency s
  /\ SPF.MatchingDivider s' = SPF.MatchingDivider s
  /\ SPF.MatchingDivider_PowerOf2 s' = SPF.MatchingDivider_PowerOf2 s
  /\ SPF.FractionalMode s' = SPF.FractionalMode s
  /\ SPF.IntegerMode s' = SPF.IntegerMode s
  /\ SPF.MinimumInt s' = SPF.MinimumInt s
  /\ SPF.MaximumInt s' = SPF.MaximumInt s
  /\ SPF.MaximumPFDFrequency s' = SPF.MaximumPFDFrequency s
  /\ SPF.ReferenceFrequencyToMatch s' = SPF.ReferenceFrequencyToMatch s
  /\ (SPF.MatchAttempted s = true -> SPF.MatchAttempted s' = true).

(** The sweep of MAX2870spf.py, step by step: the assignments at the top
    of a pass (lines 59 and 62), the guard of line 63, and the test of
    line 135 that ends the sweep. *)
Definition spf_prep (start i : Z) (s : SPF.state) : SPF.state :=
  SPF.set_FractionalMode true (SPF.set_ReferenceFrequencyToMatch (start + i) s).

Definition spf_rf_ok (s : SPF.state) : bool :=
  leb (Zq SPF.MinimumRFFrequency) (SPF.DesiredFrequency s)
  && leb (SPF.DesiredFrequency s) (Zq SPF.MaximumRFFrequency).

Definition spf_flow (s : SPF.state) : flow :=
  if eqb (SPF.FrequencyError s) 0 then Break else Next.

(** One candidate of the MOD loop, as both scripts compute it from the
    phase-detector frequency [pfd = reference / R], the remainder and MOD:
    its FRAC, its signed error and the absolute value of the error (lines
    86-96 of MAX2870pf.py, 110-120 of MAX2870spf.py). *)
Definition cand_frac (pfd rem : Q) (m : Z) : Z :=
  clamp_frac (round_frac (rem / (pfd / Zq m))) m.

Definition cand_err (pfd rem : Q) (m : Z) : Q :=
  (rem - pfd / Zq m * Zq (cand_frac pfd rem m))%Q.

Definition cand_abs (pfd rem : Q) (m : Z) : Q :=
  if ltb (cand_err pfd rem m) 0 then (cand_err pfd rem m * Zq (-1))%Q
  else cand_err pfd rem m.

(** The state after the candidate (R, MOD) in MAX2870pf.py: its error
    replaces [FrequencyError]; the candidate is recorded when its error is
    below the error of the candidate before it. *)
Definition pf_cand (ref : Q) (R N : Z) (rem : Q) (m : Z) (s : PF.state) : PF.state :=
  let pfd := (ref / Zq R)%Q in
  let s1 := PF.set_NegativeFrequencyError (ltb (cand_err pfd rem m) 0)
              (PF.set_FrequencyError (cand_abs pfd rem m) s) in
  if ltb (cand_abs pfd rem m) (PF.FrequencyError s)
  then PF.set_MatchingFrac (cand_frac pfd rem m)
         (PF.set_MatchingMod m
            (PF.set_MatchingInt (Zq N) (PF.set_MatchingR R s1)))
  else s1.

(** The state after the candidate (R, MOD) in MAX2870spf.py: the candidate
    is recorded, with its error, when its error is below
    [FrequencyError]. *)
Definition spf_cand (R N : Z) (rem : Q) (m : Z) (s : SPF.state) : SPF.state :=
  let pfd := (Zq (SPF.ReferenceFrequencyToMatch s) / Zq R)%Q in
  let s1 := SPF.set_NegativeFrequencyError (ltb (cand_err pfd rem m) 0) s in
  if ltb (cand_abs pfd rem m) (SPF.FrequencyError s)
  then SPF.set_MatchingFrac (cand_frac pfd rem m)
         (SPF.set_MatchingMod m
            (SPF.set_MatchingInt (Zq N)
               (SPF.set_MatchingR R
                  (SPF.set_FrequencyError (cand_abs pfd rem m)
                     (SPF.set_FinalReferenceFrequency
                        (SPF.ReferenceFrequencyToMatch s) s1)))))
  else s1.

(** The fractional-mode limits that both scripts set before the
    fractional search (MAX2870pf.py lines 73-75). *)
Definition pf_frac_limits (s : PF.state) : PF.state :=
  PF.set_MaximumPFDFrequency 50000000 (PF.set_MaximumInt 4091 (PF.set_MinimumInt 19 s)).

(** The guard of line 77 of MAX2870pf.py under the fractional-mode PFD
    limit, for an integer reference [r]. *)
Definition pf_pfd_in (r R : Z) : bool :=
  (0 <? R)
  && leb (Zq PF.MinimumPFDFrequency) (Zq r / Zq R)
  && leb (Zq r / Zq R) (Zq 50000000).

(** [IntTemp] of lines 78-79 for an integer reference [r] and an integer
    VCO frequency [v]. *)
Definition pf_frac_N (r v R : Z) : Z := floor (Zq v / (Zq r / Zq R)).

(** The fractional search runs the MOD loop at [R] (lines 77 and 80). *)
Definition pf_frac_feasible (r v R : Z) : bool :=
  pf_pfd_in r R && ((19 <=? pf_frac_N r v R) && (pf_frac_N r v R <=? 4091)).

(** The fractional search leaves its R loop at [R] without a MOD loop
    (lines 110-115). *)
Definition pf_frac_stops (r v R : Z) : bool :=
  (0 <? R) && (negb (pf_pfd_in r R) || (4091 <? pf_frac_N r v R)).

(** The signed residual of a reported tuple: the VCO frequency minus the
    frequency that [(R, Int, Mod, Frac)] produces from the reference. *)
Definition residual (vco ref : Q) (R : Z) (N : Q) (M F : Z) : Q :=
  (vco - ref / Zq R * (N + Zq F / Zq M))%Q.
(** The fractional-mode limits of MAX2870spf.py (lines 96-100). *)
Definition spf_frac_limits (s : SPF.state) : SPF.state :=
  SPF.set_MaximumPFDFrequency 50000000
    (SPF.set_MaximumInt 4091 (SPF.set_MinimumInt 19 (SPF.set_IntegerMode false s))).

(** [IntTemp] of lines 103-104 at [R]. *)
Definition spf_frac_N (s : SPF.state) (R : Z) : Z :=
  floor (SPF.DesiredFrequency s / (Zq (SPF.ReferenceFrequencyToMatch s) / Zq R)).

(** The fractional search of MAX2870spf.py runs the MOD loop at [R]
    (lines 102 and 105). *)
Definition spf_feasible (s : SPF.state) (R : Z) : bool :=
  SPF.pfd_ok R (spf_frac_limits s)
  && ((19 <=? spf_frac_N s R) && (spf_frac_N s R <=? 4091)).

(** The absolute error of the candidate [(R, m)] at the reference and the
    VCO frequency of [s] (lines 107-120). *)
Definition spf_cand_abs (s : SPF.state) (R m : Z) : Q :=
  let pfd := (Zq (SPF.ReferenceFrequencyToMatch s) / Zq R)%Q in
  cand_abs pfd (SPF.DesiredFrequency s - Zq (spf_frac_N s R) * pfd) m.

(** A state with VCO frequency [v] at the reference [ref]: what
    feasibility and the error of a candidate are read from. *)
Definition spf_at (v : Q) (ref : Z) : SPF.state :=
  SPF.set_ReferenceFrequencyToMatch ref (SPF.init v).
(** Command-line arguments of the examples in binary64.  [type=float] of
    argparse is [float()], which reads a decimal as the nearest binary64
    number; so does the parser of the float literals here. *)
Module Args.
Import PrimFloat.
Local Set Warnings "-inexact-float".

(** [--rf 5319771954.000001] *)
Definition rf_5319771954_000001 : B64.float := 5319771954.000001%float.

(** [--rf 3943332912.3999996] *)
Definition rf_3943332912_3999996 : B64.float := 3943332912.3999996%float.

End Args.

(** The variables of MAX2870spf.py that the fractional-mode R loop reads
    (lines 101-134), as they are when the loop is entered at the reference
    [ref] with the VCO frequency [vco]. *)
Definition spf64_at (vco : B64.float) (ref : Z) : SPF64.state :=
  SPF64.set_MaximumPFDFrequency 50000000
    (SPF64.set_MaximumInt 4091
       (SPF64.set_MinimumInt 19
          (SPF64.set_IntegerMode false
             (SPF64.set_ReferenceFrequencyToMatch ref (SPF64.init vco))))).

(** The body of the fractional-mode R loop of MAX2870pf.py (lines 77-115)
    without the early exit of lines 110-112: an [IntTemp] outside the
    limits goes on to the next R.  It is [PF.frac_body] everywhere else,
    and is written for comparison with it. *)
Definition pf_frac_body_no_exit (ReferenceFrequency : Q) (RtoMatch : Z) (s : PF.state)
  : PF.state * flow :=
  if PF.pfd_ok ReferenceFrequency RtoMatch s then
    let IntTemp := (PF.DesiredFrequency s / (ReferenceFrequency / Zq RtoMatch))%Q in
    let IntTemp := floor IntTemp in
    if (PF.MinimumInt s <=? IntTemp) && (IntTemp <=? PF.MaximumInt s) then
      PF.frac_body ReferenceFrequency RtoMatch s
    else (s, Next)
  else if 0 <? RtoMatch then (s, Break) else (s, Next).

(** The body of the integer-mode loop of MAX2870pf.py (lines 54-68) without
    the [else: break] of lines 64-65, in the same way. *)
Definition pf_int_body_no_exit (ReferenceFrequency : Q) (RtoMatch : Z) (s : PF.state)
  : PF.state * flow :=
  if PF.pfd_ok ReferenceFrequency RtoMatch s then
    let IntTemp := (PF.DesiredFrequency s / (ReferenceFrequency / Zq RtoMatch))%Q in
    if leb (Zq (PF.MinimumInt s)) IntTemp && leb IntTemp (Zq (PF.MaximumInt s)) then
      PF.int_body ReferenceFrequency RtoMatch s
    else (s, Next)
  else if 0 <? RtoMatch then (s, Break) else (s, Next).

(** ** What MAX2870spf.py prints, line by line

    [SPF.sweep_body] keeps the variables only.  The lines the script
    prints are added here: the two kinds of "Changing ..." lines of the
    clamps (lines 50, 53 and 56), the step number at every tenth step (line
    61), "RF frequency is out of range" (line 69) and the final report
    (lines 138-157). *)
Inductive spf_line : Type :=
| ChangingStepCount (ReferenceSteps : Z)
| ChangingStart (ReferenceFrequencyStart : Z)
| StepNumber (ReferenceFrequencyStepToMatch : Z)
| RFOutOfRangeLine
| FinalReport (p : SPF.printed).

(** Lines 48-56. *)
Definition spf_clamp_lines (ReferenceFrequencyStart ReferenceSteps : Z)
  : list spf_line :=
  let l1 :=
    if SPF.MaximumReferenceFrequency - SPF.MinimumReferenceFrequency <? ReferenceSteps
    then [ChangingStepCount (SPF.clamp_steps ReferenceSteps)] else [] in
  let ReferenceSteps := SPF.clamp_steps ReferenceSteps in
  let l2 :=
    if SPF.MaximumReferenceFrequency <? ReferenceFrequencyStart + ReferenceSteps
    then [ChangingStart (SPF.MaximumReferenceFrequency - ReferenceSteps)] else [] in
  let ReferenceFrequencyStart :=
    if SPF.MaximumReferenceFrequency <? ReferenceFrequencyStart + ReferenceSteps
    then SPF.MaximumReferenceFrequency - ReferenceSteps
    else ReferenceFrequencyStart in
  let l3 :=
    if ReferenceFrequencyStart <? SPF.MinimumReferenceFrequency
    then [ChangingStart SPF.MinimumReferenceFrequency] else [] in
  l1 ++ l2 ++ l3.

(** Lines 60-61 and 63-69: what one step of the sweep prints.  The
    searches of lines 72-136 print nothing. *)
Definition spf_step_lines (ReferenceFrequencyStepToMatch : Z) (s : SPF.state)
  : list spf_line :=
  (if ReferenceFrequencyStepToMatch mod 10 =? 0
   then [StepNumber ReferenceFrequencyStepToMatch] else [])
  ++ (if leb (Zq SPF.MinimumRFFrequency) (SPF.DesiredFrequency s)
         && leb (SPF.DesiredFrequency s) (Zq SPF.MaximumRFFrequency)
      then [] else [RFOutOfRangeLine]).

(** Lines 58-136: the sweep of [for_in_opt (SPF.sweep_body ...)], with the
    lines printed on the way. *)
Fixpoint spf_sweep_lines (fuel : nat) (ReferenceFrequencyStart : Z)
    (xs : list Z) (s : SPF.state) : option (SPF.state * list spf_line) :=
  match xs with
  | [] => Some (s, [])
  | x :: xs' =>
      match SPF.sweep_body fuel ReferenceFrequencyStart x s with
      | None => None
      | Some (s', Break) => Some (s', spf_step_lines x s)
      | Some (s', Next) =>
          match spf_sweep_lines fuel ReferenceFrequencyStart xs' s' with
          | None => None
          | Some (s'', ls) => Some (s'', spf_step_lines x s ++ ls)
          end
      end
  end.

(** Lines 43-157: everything the script prints. *)
Definition spf_output (fuel : nat) (DesiredFrequency : Q)
    (ReferenceFrequencyStart ReferenceSteps : Z) : option (list spf_line) :=
  let steps := SPF.clamp_steps ReferenceSteps in
  let start := SPF.clamp_start ReferenceFrequencyStart steps in
  match spf_sweep_lines fuel start (range (steps + 1)) (SPF.init DesiredFrequency) with
  | None => None
  | Some (s, ls) =>
      Some (spf_clamp_lines ReferenceFrequencyStart ReferenceSteps
            ++ ls ++ [FinalReport (snd (SPF.report s))])
  end.

(** * Properties *)

(** ** The Python primitives *)

Lemma ltb_lt x y : ltb x y = true <-> (x < y)%Q.
Proof.
  unfold ltb. rewrite negb_true_iff, <- not_true_iff_false, Qle_bool_iff.
  split; [apply Qnot_le_lt | apply Qlt_not_le].
Qed.

Lemma ltb_ge x y : ltb x y = false <-> (y <= x)%Q.
Proof.
  unfold ltb. rewrite negb_false_iff. apply Qle_bool_iff.
Qed.

Lemma leb_le x y : leb x y = true <-> (x <= y)%Q.
Proof. apply Qle_bool_iff. Qed.

Lemma leb_gt x y : leb x y = false <-> (y < x)%Q.
Proof.
  unfold leb. rewrite <- not_true_iff_false, Qle_bool_iff.
  split; [apply Qnot_le_lt | apply Qlt_not_le].
Qed.

Lemma eqb_eq x y : eqb x y = true <-> (x == y)%Q.
Proof. apply Qeq_bool_iff. Qed.

Lemma eqb_neq x y : eqb x y = false <-> ~ (x == y)%Q.
Proof.
  unfold eqb. rewrite <- not_true_iff_false, Qeq_bool_iff. tauto.
Qed.

Lemma in_range x n : In x (range n) <-> 0 <= x < n.
Proof.
  unfold range. rewrite in_map_iff. split.
  - intros (k & <- & Hk). apply in_seq in Hk. lia.
  - intros H. exists (Z.to_nat x). split; [lia | apply in_seq; lia].
Qed.

(** An invariant of the state is kept by a [for] loop when every pass
    keeps it. *)
Lemma for_in_inv {S : Type} (P : S -> Prop) body (xs : list Z) :
  (forall x s, In x xs -> P s -> P (fst (body x s))) ->
  forall s, P s -> P (for_in body xs s).
Proof.
  induction xs as [|x xs IH]; intros Hb s Hs; simpl; [exact Hs|].
  pose proof (Hb x s (or_introl eq_refl) Hs) as H1.
  destruct (body x s) as [s' [|]]; simpl in H1.
  - apply IH; [|exact H1]. intros y t Hy. apply Hb. now right.
  - exact H1.
Qed.

Lemma for_in_opt_inv {S : Type} (P : S -> Prop) body (xs : list Z) :
  (forall x s s' f, In x xs -> P s -> body x s = Some (s', f) -> P s') ->
  forall s r, P s -> for_in_opt body xs s = Some r -> P r.
Proof.
  induction xs as [|x xs IH]; intros Hb s r Hs; simpl.
  - intros [= <-]. exact Hs.
  - destruct (body x s) as [[s' [|]]|] eqn:E; try discriminate.
    + apply IH; [|eapply Hb; eauto; now left].
      intros y t t' f Hy. apply Hb. now right.
    + intros [= <-]. eapply Hb; eauto. now left.
Qed.

(** A [for] loop returns when every pass returns. *)
Lemma for_in_opt_total {S : Type} body (xs : list Z) :
  (forall x (s : S), In x xs -> body x s <> None) ->
  forall s, for_in_opt body xs s <> None.
Proof.
  induction xs as [|x xs IH]; intros Hb s; simpl; [discriminate|].
  pose proof (Hb x s (or_introl eq_refl)) as H1.
  destruct (body x s) as [[s' [|]]|]; try congruence.
  apply IH. intros y t Hy. apply Hb. now right.
Qed.

(** ** The doubling loop *)

Lemma dbl_pos j : forall f, (0 < f)%Q -> (f <= dbl j f)%Q.
Proof.
  induction j as [|j IH]; intros f Hf; simpl; [lra|].
  specialize (IH (f * 2)%Q). lra.
Qed.

Lemma dbl_add a : forall b f, dbl (a + b) f = dbl b (dbl a f).
Proof.
  induction a as [|a IH]; intros b f; simpl; [reflexivity|]. apply IH.
Qed.

Lemma dbl_pow j : forall f, (dbl j f == f * Zq (2 ^ Z.of_nat j))%Q.
Proof.
  induction j as [|j IH]; intros f.
  - simpl. unfold Zq. change (inject_Z (2 ^ 0)) with 1%Q. ring.
  - cbn [dbl]. rewrite IH. unfold Zq.
    rewrite Nat2Z.inj_succ, Z.pow_succ_r by lia.
    rewrite inject_Z_mult. change (inject_Z 2) with 2%Q. ring.
Qed.

Lemma dbl_enough n fuel f :
  (n <= fuel)%nat -> (0 < f)%Q -> (3000000000 <= dbl n f)%Q ->
  (3000000000 <= dbl fuel f)%Q.
Proof.
  intros Hn Hf H. replace fuel with (n + (fuel - n))%nat by lia.
  rewrite dbl_add. pose proof (dbl_pos (fuel - n) (dbl n f)). lra.
Qed.

(** *** MAX2870pf.py *)

Lemma pf_half_max : (Zq PF.MaximumRFFrequency / 2 == 3000000000)%Q.
Proof. reflexivity. Qed.

Lemma pf_vco_loop_spec fuel : forall s,
  (0 < PF.DesiredFrequency s)%Q ->
  (3000000000 <= dbl fuel (PF.DesiredFrequency s))%Q ->
  exists j : nat,
    (j <= fuel)%nat /\
    PF.vco_loop fuel s
    = Some (PF.set_DesiredFrequency (dbl j (PF.DesiredFrequency s))
              (PF.set_MatchingDivider_PowerOf2
                 (PF.MatchingDivider_PowerOf2 s + Z.of_nat j) s)) /\
    (3000000000 <= dbl j (PF.DesiredFrequency s))%Q /\
    (j <> O -> dbl j (PF.DesiredFrequency s) < 6000000000)%Q /\
    (j = O <-> 3000000000 <= PF.DesiredFrequency s)%Q.
Proof.
  assert (Hstay : forall s,
            PF.set_DesiredFrequency (PF.DesiredFrequency s)
              (PF.set_MatchingDivider_PowerOf2
                 (PF.MatchingDivider_PowerOf2 s + Z.of_nat 0) s) = s).
  { intros s. cbn [Z.of_nat]. rewrite Z.add_0_r. destruct s; reflexivity. }
  induction fuel as [|fuel IH]; intros s Hpos Hfuel.
  - exists O. cbn [dbl PF.vco_loop] in *.
    assert (E : ltb (PF.DesiredFrequency s) (Zq PF.MaximumRFFrequency / 2) = false).
    { apply ltb_ge. rewrite pf_half_max. exact Hfuel. }
    rewrite E, Hstay.
    split; [lia|]. split; [reflexivity|]. split; [exact Hfuel|].
    split; [intros H; now contradiction H | tauto].
  - cbn [PF.vco_loop].
    destruct (ltb (PF.DesiredFrequency s) (Zq PF.MaximumRFFrequency / 2)) eqn:E.
    + apply ltb_lt in E. rewrite pf_half_max in E.
      set (s1 := PF.set_DesiredFrequency (PF.DesiredFrequency s * 2)
                   (PF.set_MatchingDivider_PowerOf2
                      (PF.MatchingDivider_PowerOf2 s + 1) s)).
      destruct (IH s1) as (j & Hj & Hrun & Hlo & Hhi & Hz).
      { subst s1. pf_fields. lra. }
      { exact Hfuel. }
      exists (S j).
      split; [lia|]. split.
      { rewrite Hrun. subst s1. pf_fields. cbn [dbl]. do 2 f_equal. lia. }
      split; [exact Hlo|]. split.
      { intros _. destruct j as [|j].
        - cbn [dbl] in *. subst s1. pf_fields. lra.
        - apply Hhi. discriminate. }
      split; [discriminate | intros H; lra].
    + apply ltb_ge in E. rewrite pf_half_max in E.
      exists O. cbn [dbl]. rewrite Hstay.
      split; [lia|]. split; [reflexivity|]. split; [exact E|].
      split; [intros H; now contradiction H | tauto].
Qed.

(** In range, seven passes are enough: [23475000 * 2^7 >= 3000000000]. *)
Lemma pf_fuel_enough fuel f :
  (7 <= fuel)%nat -> (Zq PF.MinimumRFFrequency <= f)%Q ->
  (0 < f)%Q /\ (3000000000 <= dbl fuel f)%Q.
Proof.
  intros Hfuel Hf.
  assert (Hm : (Zq PF.MinimumRFFrequency == 23475000)%Q) by reflexivity.
  rewrite Hm in Hf. split; [lra|].
  apply (dbl_enough 7); [exact Hfuel | lra | simpl; lra].
Qed.

Lemma pf_normalize_spec fuel s :
  (7 <= fuel)%nat ->
  (Zq PF.MinimumRFFrequency <= PF.DesiredFrequency s)%Q ->
  exists j : nat,
    (j <= 7)%nat /\
    PF.normalize fuel s
    = Some (PF.set_MatchingDivider (2 ^ (PF.MatchingDivider_PowerOf2 s + Z.of_nat j))
              (PF.set_DesiredFrequency (dbl j (PF.DesiredFrequency s))
                 (PF.set_MatchingDivider_PowerOf2
                    (PF.MatchingDivider_PowerOf2 s + Z.of_nat j) s))) /\
    (3000000000 <= dbl j (PF.DesiredFrequency s))%Q /\
    (j <> O -> dbl j (PF.DesiredFrequency s) < 6000000000)%Q /\
    (j = O <-> 3000000000 <= PF.DesiredFrequency s)%Q.
Proof.
  intros Hfuel Hmin.
  destruct (pf_fuel_enough 7 _ (le_n 7) Hmin) as [Hpos H0].
  destruct (pf_fuel_enough fuel _ Hfuel Hmin) as [_ Hf].
  destruct (pf_vco_loop_spec 7 s Hpos H0) as (j0 & Hj0 & _ & Hlo0 & _ & Hz0).
  destruct (pf_vco_loop_spec fuel s Hpos Hf) as (j & Hj & Hrun & Hlo & Hhi & Hz).
  exists j. split.
  - (* the number of passes does not depend on the fuel *)
    destruct (Nat.le_gt_cases j 7) as [|Hgt]; [assumption|exfalso].
    destruct j as [|j]; [lia|].
    assert (Hlt : (j0 <= j)%nat) by lia.
    (* after [j] passes the loop is still below the threshold *)
    clear Hrun. revert Hlo0 Hhi Hlo. generalize (PF.DesiredFrequency s) Hpos.
    clear - Hlt. intros f Hf Hlo0 Hhi Hlo.
    specialize (Hhi ltac:(discriminate)).
    replace (S j) with (j0 + S (j - j0))%nat in Hhi by lia.
    rewrite dbl_add in Hhi.
    assert (0 < dbl j0 f)%Q by lra.
    pose proof (dbl_pos (j - j0) (dbl j0 f * 2)%Q ltac:(lra)).
    cbn [dbl] in Hhi. lra.
  - unfold PF.normalize. rewrite Hrun. pf_fields. auto.
Qed.
(** *** MAX2870spf.py *)

Lemma spf_half_max : (Zq SPF.MaximumRFFrequency / 2 == 3000000000)%Q.
Proof. reflexivity. Qed.

Lemma spf_vco_loop_spec fuel : forall s,
  (0 < SPF.DesiredFrequency s)%Q ->
  (3000000000 <= dbl fuel (SPF.DesiredFrequency s))%Q ->
  exists j : nat,
    (j <= fuel)%nat /\
    SPF.vco_loop fuel s
    = Some (SPF.set_DesiredFrequency (dbl j (SPF.DesiredFrequency s))
              (SPF.set_MatchingDivider_PowerOf2
                 (SPF.MatchingDivider_PowerOf2 s + Z.of_nat j) s)) /\
    (3000000000 <= dbl j (SPF.DesiredFrequency s))%Q /\
    (j <> O -> dbl j (SPF.DesiredFrequency s) < 6000000000)%Q /\
    (j = O <-> 3000000000 <= SPF.DesiredFrequency s)%Q.
Proof.
  assert (Hstay : forall s,
            SPF.set_DesiredFrequency (SPF.DesiredFrequency s)
              (SPF.set_MatchingDivider_PowerOf2
                 (SPF.MatchingDivider_PowerOf2 s + Z.of_nat 0) s) = s).
  { intros s. cbn [Z.of_nat]. rewrite Z.add_0_r. destruct s; reflexivity. }
  induction fuel as [|fuel IH]; intros s Hpos Hfuel.
  - exists O. cbn [dbl SPF.vco_loop] in *.
    assert (E : ltb (SPF.DesiredFrequency s) (Zq SPF.MaximumRFFrequency / 2) = false).
    { apply ltb_ge. rewrite spf_half_max. exact Hfuel. }
    rewrite E, Hstay.
    split; [lia|]. split; [reflexivity|]. split; [exact Hfuel|].
    split; [intros H; now contradiction H | tauto].
  - cbn [SPF.vco_loop].
    destruct (ltb (SPF.DesiredFrequency s) (Zq SPF.MaximumRFFrequency / 2)) eqn:E.
    + apply ltb_lt in E. rewrite spf_half_max in E.
      set (s1 := SPF.set_DesiredFrequency (SPF.DesiredFrequency s * 2)
                   (SPF.set_MatchingDivider_PowerOf2
                      (SPF.MatchingDivider_PowerOf2 s + 1) s)).
      destruct (IH s1) as (j & Hj & Hrun & Hlo & Hhi & Hz).
      { subst s1. spf_fields. lra. }
      { exact Hfuel. }
      exists (S j).
      split; [lia|]. split.
      { rewrite Hrun. subst s1. spf_fields. cbn [dbl]. do 2 f_equal. lia. }
      split; [exact Hlo|]. split.
      { intros _. destruct j as [|j].
        - cbn [dbl] in *. subst s1. spf_fields. lra.
        - apply Hhi. discriminate. }
      split; [discriminate | intros H; lra].
    + apply ltb_ge in E. rewrite spf_half_max in E.
      exists O. cbn [dbl]. rewrite Hstay.
      split; [lia|]. split; [reflexivity|]. split; [exact E|].
      split; [intros H; now contradiction H | tauto].
Qed.

(** In range, eleven passes are enough: [2347500 * 2^11 >= 3000000000]. *)
Lemma spf_fuel_enough fuel f :
  (11 <= fuel)%nat -> (Zq SPF.MinimumRFFrequency <= f)%Q ->
  (0 < f)%Q /\ (3000000000 <= dbl fuel f)%Q.
Proof.
  intros Hfuel Hf.
  assert (Hm : (Zq SPF.MinimumRFFrequency == 2347500)%Q) by reflexivity.
  rewrite Hm in Hf. split; [lra|].
  apply (dbl_enough 11); [exact Hfuel | lra | simpl; lra].
Qed.

Lemma spf_normalize_spec fuel s :
  (11 <= fuel)%nat ->
  (Zq SPF.MinimumRFFrequency <= SPF.DesiredFrequency s)%Q ->
  exists j : nat,
    (j <= 11)%nat /\
    SPF.normalize fuel s
    = Some (SPF.set_MatchingDivider (2 ^ (SPF.MatchingDivider_PowerOf2 s + Z.of_nat j))
              (SPF.set_DesiredFrequency (dbl j (SPF.DesiredFrequency s))
                 (SPF.set_MatchingDivider_PowerOf2
                    (SPF.MatchingDivider_PowerOf2 s + Z.of_nat j) s))) /\
    (3000000000 <= dbl j (SPF.DesiredFrequency s))%Q /\
    (j <> O -> dbl j (SPF.DesiredFrequency s) < 6000000000)%Q /\
    (j = O <-> 3000000000 <= SPF.DesiredFrequency s)%Q.
Proof.
  intros Hfuel Hmin.
  destruct (spf_fuel_enough 11 _ (le_n 11) Hmin) as [Hpos H0].
  destruct (spf_fuel_enough fuel _ Hfuel Hmin) as [_ Hf].
  destruct (spf_vco_loop_spec 11 s Hpos H0) as (j0 & Hj0 & _ & Hlo0 & _ & Hz0).
  destruct (spf_vco_loop_spec fuel s Hpos Hf) as (j & Hj & Hrun & Hlo & Hhi & Hz).
  exists j. split.
  - (* the number of passes does not depend on the fuel *)
    destruct (Nat.le_gt_cases j 11) as [|Hgt]; [assumption|exfalso].
    destruct j as [|j]; [lia|].
    assert (Hlt : (j0 <= j)%nat) by lia.
    (* after [j] passes the loop is still below the threshold *)
    clear Hrun. revert Hlo0 Hhi Hlo. generalize (SPF.DesiredFrequency s) Hpos.
    clear - Hlt. intros f Hf Hlo0 Hhi Hlo.
    specialize (Hhi ltac:(discriminate)).
    replace (S j) with (j0 + S (j - j0))%nat in Hhi by lia.
    rewrite dbl_add in Hhi.
    assert (0 < dbl j0 f)%Q by lra.
    pose proof (dbl_pos (j - j0) (dbl j0 f * 2)%Q ltac:(lra)).
    cbn [dbl] in Hhi. lra.
  - unfold SPF.normalize. rewrite Hrun. spf_fields. auto.
Qed.

(** ** Normalisation of the RF frequency (C5) *)

(** C5, as stated, fails at the upper end of the accepted range: a target
    of exactly [MaximumRFFrequency] is accepted by the guard of line 46, the
    doubling loop does not run, and the VCO frequency is
    [MaximumRFFrequency] itself, which is not below [MaximumRFFrequency]. *)
Lemma C5_counterexample :
  let s := PF.init (Zq 10000000) (Zq 6000000000) in
  (Zq PF.MinimumRFFrequency <= PF.DesiredFrequency s
   /\ PF.DesiredFrequency s <= Zq PF.MaximumRFFrequency)%Q
  /\ exists s',
       PF.normalize 7 s = Some s'
       /\ PF.MatchingDivider_PowerOf2 s' = 0
       /\ ~ (PF.DesiredFrequency s' < Zq PF.MaximumRFFrequency)%Q.
Proof.
  cbv zeta. split.
  - split; apply Qle_bool_iff; reflexivity.
  - eexists. split; [reflexivity|]. split; [reflexivity|].
    apply Qle_not_lt. apply Qle_bool_iff. reflexivity.
Qed.

(** C5 (amended): for every target RF frequency in
    [[MinimumRFFrequency, MaximumRFFrequency]], in both scripts,
    normalisation returns a VCO frequency in the closed range
    [[MaximumRFFrequency/2, MaximumRFFrequency]], strictly below
    [MaximumRFFrequency] whenever the target is, a divider exponent
    [k >= 0] with [target * 2^k == vco] exactly, and a divider equal to
    [2^k]. *)
Theorem C5_normalize_range :
  (forall fuel s,
     (7 <= fuel)%nat ->
     PF.MatchingDivider_PowerOf2 s = 0 ->
     (Zq PF.MinimumRFFrequency <= PF.DesiredFrequency s)%Q ->
     (PF.DesiredFrequency s <= Zq PF.MaximumRFFrequency)%Q ->
     exists s',
       PF.normalize fuel s = Some s' /\
       let rf := PF.DesiredFrequency s in
       let vco := PF.DesiredFrequency s' in
       let k := PF.MatchingDivider_PowerOf2 s' in
       (Zq PF.MaximumRFFrequency / 2 <= vco)%Q /\
       (vco <= Zq PF.MaximumRFFrequency)%Q /\
       ((rf < Zq PF.MaximumRFFrequency)%Q -> (vco < Zq PF.MaximumRFFrequency)%Q) /\
       0 <= k /\
       (rf * Zq (2 ^ k) == vco)%Q /\
       PF.MatchingDivider s' = 2 ^ k)
  /\
  (forall fuel s,
     (11 <= fuel)%nat ->
     SPF.MatchingDivider_PowerOf2 s = 0 ->
     (Zq SPF.MinimumRFFrequency <= SPF.DesiredFrequency s)%Q ->
     (SPF.DesiredFrequency s <= Zq SPF.MaximumRFFrequency)%Q ->
     exists s',
       SPF.normalize fuel s = Some s' /\
       let rf := SPF.DesiredFrequency s in
       let vco := SPF.DesiredFrequency s' in
       let k := SPF.MatchingDivider_PowerOf2 s' in
       (Zq SPF.MaximumRFFrequency / 2 <= vco)%Q /\
       (vco <= Zq SPF.MaximumRFFrequency)%Q /\
       ((rf < Zq SPF.MaximumRFFrequency)%Q -> (vco < Zq SPF.MaximumRFFrequency)%Q) /\
       0 <= k /\
       (rf * Zq (2 ^ k) == vco)%Q /\
       SPF.MatchingDivider s' = 2 ^ k).
Proof.
  split; intros fuel s Hfuel Hk Hmin Hmax.
  - destruct (pf_normalize_spec fuel s Hfuel Hmin) as (j & _ & Hrun & Hlo & Hhi & Hz).
    eexists. split; [exact Hrun|]. pf_fields. rewrite Hk, Z.add_0_l.
    assert (HM : (Zq PF.MaximumRFFrequency == 6000000000)%Q) by reflexivity.
    rewrite pf_half_max, HM in *.
    assert (Hj : j = O \/ j <> O) by (destruct j; [now left | now right]).
    split; [exact Hlo|]. split; [|split; [|split; [lia|split; [|reflexivity]]]].
    + destruct Hj as [-> | Hj]; [exact Hmax | apply Qlt_le_weak, Hhi, Hj].
    + intros Hlt. destruct Hj as [-> | Hj]; [exact Hlt | apply Hhi, Hj].
    + symmetry. apply dbl_pow.
  - destruct (spf_normalize_spec fuel s Hfuel Hmin) as (j & _ & Hrun & Hlo & Hhi & Hz).
    eexists. split; [exact Hrun|]. spf_fields. rewrite Hk, Z.add_0_l.
    assert (HM : (Zq SPF.MaximumRFFrequency == 6000000000)%Q) by reflexivity.
    rewrite spf_half_max, HM in *.
    assert (Hj : j = O \/ j <> O) by (destruct j; [now left | now right]).
    split; [exact Hlo|]. split; [|split; [|split; [lia|split; [|reflexivity]]]].
    + destruct Hj as [-> | Hj]; [exact Hmax | apply Qlt_le_weak, Hhi, Hj].
    + intros Hlt. destruct Hj as [-> | Hj]; [exact Hlt | apply Hhi, Hj].
    + symmetry. apply dbl_pow.
Qed.

(** C5 at [--ref 10000000 --rf 915000000] and at [--rf 915000000]: two
    doublings, VCO 3660000000 Hz. *)
Lemma C5_normalize_range_witness :
  (exists s',
     PF.normalize 7 (PF.init (Zq 10000000) (Zq 915000000)) = Some s' /\
     (Zq PF.MaximumRFFrequency / 2 <= PF.DesiredFrequency s')%Q /\
     (PF.DesiredFrequency s' <= Zq PF.MaximumRFFrequency)%Q /\
     PF.MatchingDivider s' = 2 ^ PF.MatchingDivider_PowerOf2 s')
  /\
  (exists s',
     SPF.normalize 11 (SPF.init (Zq 915000000)) = Some s' /\
     (Zq SPF.MaximumRFFrequency / 2 <= SPF.DesiredFrequency s')%Q /\
     (SPF.DesiredFrequency s' <= Zq SPF.MaximumRFFrequency)%Q /\
     SPF.MatchingDivider s' = 2 ^ SPF.MatchingDivider_PowerOf2 s').
Proof.
  split.
  - destruct (proj1 C5_normalize_range 7%nat (PF.init (Zq 10000000) (Zq 915000000)))
      as (s' & Hrun & H1 & H2 & _ & _ & _ & H6).
    + apply le_n.
    + reflexivity.
    + apply Qle_bool_iff. reflexivity.
    + apply Qle_bool_iff. reflexivity.
    + exists s'. auto.
  - destruct (proj2 C5_normalize_range 11%nat (SPF.init (Zq 915000000)))
      as (s' & Hrun & H1 & H2 & _ & _ & _ & H6).
    + apply le_n.
    + reflexivity.
    + apply Qle_bool_iff. reflexivity.
    + apply Qle_bool_iff. reflexivity.
    + exists s'. auto.
Defined.

(** ** The integer-mode search *)

(** *** MAX2870pf.py *)

Lemma pf_int_body_cases ref R s :
  (pf_exact_at ref s R = true
   /\ PF.int_body ref R s = (pf_matched ref R s, Break))
  \/ (pf_exact_at ref s R = false
      /\ (PF.int_body ref R s = (PF.set_MatchAttempted true s, Next)
          \/ PF.int_body ref R s = (s, Next)
          \/ PF.int_body ref R s = (s, Break))).
Proof.
  unfold PF.int_body, pf_exact_at. fold (pf_IntTemp ref s R).
  destruct (PF.pfd_ok ref R s); cbn [andb].
  - destruct (leb (Zq (PF.MinimumInt s)) (pf_IntTemp ref s R)
              && leb (pf_IntTemp ref s R) (Zq (PF.MaximumInt s))); cbn [andb].
    + destruct (eqb (remainder (pf_IntTemp ref s R) 1) 0).
      * left. split; reflexivity.
      * right. split; [reflexivity | left; reflexivity].
    + right. split; [reflexivity | right; right; reflexivity].
  - right. split; [reflexivity|]. destruct (0 <? R); auto.
Qed.

Lemma pf_int_loop ref : forall len a s,
  let s' := for_in (PF.int_body ref) (map Z.of_nat (seq a len)) s in
  (s' = s \/ s' = PF.set_MatchAttempted true s)
  \/ exists R,
       Z.of_nat a <= R < Z.of_nat (a + len)
       /\ pf_exact_at ref s R = true
       /\ (forall R', Z.of_nat a <= R' < R -> pf_exact_at ref s R' = false)
       /\ s' = pf_matched ref R s.
Proof.
  induction len as [|len IH]; intros a s; cbn [seq map for_in].
  - left; now left.
  - destruct (pf_int_body_cases ref (Z.of_nat a) s)
      as [[Hhit ->] | [Hmiss [-> | [-> | ->]]]].
    + right. exists (Z.of_nat a). repeat split; try lia. exact Hhit.
    + specialize (IH (S a) (PF.set_MatchAttempted true s)). cbv zeta in IH.
      destruct IH as [[-> | ->] | (R & HR & Hhit & Hfirst & ->)].
      * left; now right.
      * left; now right.
      * right. exists R. split; [lia|]. split; [exact Hhit|]. split; [|reflexivity].
        intros R' HR'. destruct (Z.eq_dec R' (Z.of_nat a)) as [-> | Hne].
        -- exact Hmiss.
        -- apply (Hfirst R'). lia.
    + specialize (IH (S a) s). cbv zeta in IH.
      destruct IH as [[-> | ->] | (R & HR & Hhit & Hfirst & ->)].
      * left; now left.
      * left; now right.
      * right. exists R. split; [lia|]. split; [exact Hhit|]. split; [|reflexivity].
        intros R' HR'. destruct (Z.eq_dec R' (Z.of_nat a)) as [-> | Hne].
        -- exact Hmiss.
        -- apply (Hfirst R'). lia.
    + left; now left.
Qed.

Lemma pf_integer_search_spec ref s :
  let s' := PF.integer_search ref s in
  (s' = s \/ s' = PF.set_MatchAttempted true s)
  \/ exists R,
       0 <= R <= PF.MaximumR
       /\ pf_exact_at ref s R = true
       /\ (forall R', 0 <= R' < R -> pf_exact_at ref s R' = false)
       /\ s' = pf_matched ref R s.
Proof.
  cbv zeta. unfold PF.integer_search.
  change (range (PF.MaximumR + 1)) with (map Z.of_nat (seq 0 1024)).
  destruct (pf_int_loop ref 1024 0 s) as [H | (R & HR & Hhit & Hfirst & H)].
  - left. exact H.
  - right. exists R. unfold PF.MaximumR. repeat split; try lia; assumption.
Qed.

(** [math.remainder(x, 1) == 0] holds exactly of the integers. *)
Lemma remainder_1_zero x :
  eqb (remainder x 1) 0 = true <-> exists n : Z, (x == Zq n)%Q.
Proof.
  rewrite eqb_eq. unfold remainder, Zq. split.
  - intros H. exists (round_half_even (x / 1)). lra.
  - intros (n & Hn).
    assert (Hx : (x / 1 == inject_Z n)%Q) by (rewrite Hn; field).
    unfold round_half_even. rewrite (Qfloor_comp _ _ Hx), Qfloor_Z.
    assert (Hd : (x / 1 - inject_Z n == 0)%Q) by (rewrite Hx; ring).
    assert (E : ltb (x / 1 - inject_Z n) (1 # 2) = true) by (apply ltb_lt; lra).
    rewrite E. lra.
Qed.

Lemma pf_exact_at_facts ref s R :
  pf_exact_at ref s R = true ->
  0 < R
  /\ (Zq PF.MinimumPFDFrequency <= ref / Zq R)%Q
  /\ (ref / Zq R <= Zq (PF.MaximumPFDFrequency s))%Q
  /\ (ref / Zq R * pf_IntTemp ref s R == PF.DesiredFrequency s)%Q
  /\ exists n : Z,
       (pf_IntTemp ref s R == Zq n)%Q
       /\ PF.MinimumInt s <= n <= PF.MaximumInt s.
Proof.
  unfold pf_exact_at, PF.pfd_ok. rewrite !andb_true_iff, !leb_le, Z.ltb_lt.
  intros [[[[HR Hlo] Hhi] [Hmin Hmax]] Hrem].
  assert (Hpfd : (0 < ref / Zq R)%Q).
  { assert (Zq PF.MinimumPFDFrequency == 125000)%Q by reflexivity. lra. }
  repeat split; try assumption.
  - unfold pf_IntTemp. revert Hpfd. generalize (ref / Zq R)%Q. intros p Hp.
    field. lra.
  - apply remainder_1_zero in Hrem. destruct Hrem as (n & Hn). exists n.
    split; [exact Hn|]. rewrite Hn in Hmin, Hmax. unfold Zq in Hmin, Hmax.
    rewrite <- Zle_Qle in Hmin, Hmax. lia.
Qed.

(** ** Rounding and clamping of FRAC *)

Lemma Qfloor_unique x n :
  (inject_Z n <= x)%Q -> (x < inject_Z (n + 1))%Q -> Qfloor x = n.
Proof.
  intros Hlo Hhi.
  pose proof (Qfloor_le x) as H1. pose proof (Qlt_floor x) as H2.
  assert (Ha : (inject_Z (Qfloor x) < inject_Z (n + 1))%Q) by lra.
  assert (Hb : (inject_Z n < inject_Z (Qfloor x + 1))%Q) by lra.
  rewrite <- Zlt_Qlt in Ha, Hb. lia.
Qed.

Lemma Qceiling_unique x n :
  (inject_Z (n - 1) < x)%Q -> (x <= inject_Z n)%Q -> Qceiling x = n.
Proof.
  intros Hlo Hhi.
  pose proof (Qle_ceiling x) as H1. pose proof (Qceiling_lt x) as H2.
  assert (Ha : (inject_Z (Qceiling x - 1) < inject_Z n)%Q) by lra.
  assert (Hb : (inject_Z (n - 1) < inject_Z (Qceiling x))%Q) by lra.
  rewrite <- Zlt_Qlt in Ha, Hb. lia.
Qed.

Lemma int_nonneg x : (0 <= x)%Q -> int x = Qfloor x.
Proof.
  intros H. unfold int. apply Qle_bool_iff in H. now rewrite H.
Qed.

(** On the nonnegative numbers [round_frac] is round-half-up. *)
Lemma round_frac_half_up x : (0 <= x)%Q -> round_frac x = Qfloor (x + (1 # 2)).
Proof.
  intros Hx. unfold round_frac, Zq, ceil, floor. rewrite (int_nonneg x Hx).
  pose proof (Qfloor_le x) as H1. pose proof (Qlt_floor x) as H2.
  rewrite inject_Z_plus in H2. change (inject_Z 1) with 1%Q in H2.
  destruct (leb (1 # 2) (x - inject_Z (Qfloor x))) eqn:E.
  - apply leb_le in E. symmetry.
    rewrite (Qceiling_unique x (Qfloor x + 1)).
    + apply Qfloor_unique; rewrite !inject_Z_plus; change (inject_Z 1) with 1%Q; lra.
    + replace (Qfloor x + 1 - 1) with (Qfloor x) by lia. lra.
    + rewrite inject_Z_plus. change (inject_Z 1) with 1%Q. lra.
  - apply leb_gt in E. symmetry.
    apply Qfloor_unique; rewrite ?inject_Z_plus; change (inject_Z 1) with 1%Q; lra.
Qed.

Lemma round_frac_tie n : 0 <= n -> round_frac (Zq n + (1 # 2)) = n + 1.
Proof.
  intros Hn. unfold Zq.
  assert (H0 : (0 <= inject_Z n)%Q) by (change 0%Q with (inject_Z 0); now rewrite <- Zle_Qle).
  rewrite round_frac_half_up by lra.
  apply Qfloor_unique; rewrite !inject_Z_plus; change (inject_Z 1) with 1%Q; lra.
Qed.

Lemma round_frac_nonneg x : (0 <= x)%Q -> 0 <= round_frac x.
Proof.
  intros Hx. rewrite round_frac_half_up by exact Hx.
  change 0 with (Qfloor (inject_Z 0)). apply Qfloor_resp_le.
  change (inject_Z 0) with 0%Q. lra.
Qed.

Lemma clamp_frac_spec f m :
  (m <= f -> clamp_frac f m = m - 1) /\ (f < m -> clamp_frac f m = f).
Proof.
  unfold clamp_frac. destruct (m <=? f) eqn:E.
  - apply Z.leb_le in E. split; [reflexivity | lia].
  - apply Z.leb_gt in E. split; [lia | reflexivity].
Qed.

Lemma clamp_frac_range f m : 0 <= f -> 1 <= m -> 0 <= clamp_frac f m < m.
Proof.
  intros Hf Hm. destruct (clamp_frac_spec f m) as [H1 H2].
  destruct (Z_le_gt_dec m f) as [H | H].
  - rewrite (H1 H). lia.
  - rewrite H2; lia.
Qed.

(** The candidate FRAC of a feasible (R, MOD) pair is in range. *)
Lemma candidate_frac_range (rem step : Q) (m : Z) :
  (0 <= rem)%Q -> (0 < step)%Q -> 1 <= m ->
  0 <= clamp_frac (round_frac (rem / step)) m < m.
Proof.
  intros Hrem Hstep Hm. apply clamp_frac_range; [|exact Hm].
  apply round_frac_nonneg. apply Qle_shift_div_l; lra.
Qed.

(** The remainder left by the integer part is not negative. *)
Lemma remainder_nonneg (vco pfd : Q) :
  (0 < pfd)%Q -> (0 <= vco - Zq (floor (vco / pfd)) * pfd)%Q.
Proof.
  intros Hp. unfold Zq, floor. pose proof (Qfloor_le (vco / pfd)) as H.
  assert (H' : (inject_Z (Qfloor (vco / pfd)) * pfd <= vco / pfd * pfd)%Q).
  { apply Qmult_le_compat_r; lra. }
  assert (E : (vco / pfd * pfd == vco)%Q) by (field; lra).
  lra.
Qed.

(** ** One candidate of the MOD loop *)

Lemma Zq_pos z : 0 < z -> (0 < Zq z)%Q.
Proof.
  intros H. unfold Zq. change 0%Q with (inject_Z 0). now rewrite <- Zlt_Qlt.
Qed.

Lemma pf_mod_body_eq ref R N rem m s :
  (2 <=? m) = true ->
  PF.mod_body ref R N rem m s
  = (pf_cand ref R N rem m s,
     if eqb (cand_abs (ref / Zq R) rem m) 0 then Break else Next).
Proof.
  intros Hm. unfold PF.mod_body, pf_cand, cand_abs. rewrite Hm. cbv zeta.
  fold (cand_frac (ref / Zq R) rem m). fold (cand_err (ref / Zq R) rem m).
  set (ce := cand_err (ref / Zq R) rem m).
  change (PF.FrequencyError (PF.set_FrequencyError ce s)) with ce.
  destruct (ltb ce 0).
  - change (PF.FrequencyError
              (PF.set_NegativeFrequencyError true
                 (PF.set_FrequencyError (ce * Zq (-1)) (PF.set_FrequencyError ce s))))
      with (ce * Zq (-1))%Q.
    destruct (ltb (ce * Zq (-1)) (PF.FrequencyError s));
      match goal with
      | |- context [eqb (PF.FrequencyError ?t) 0] =>
          change (PF.FrequencyError t) with (ce * Zq (-1))%Q
      end;
      destruct (eqb (ce * Zq (-1)) 0); reflexivity.
  - change (PF.FrequencyError
              (PF.set_NegativeFrequencyError false (PF.set_FrequencyError ce s)))
      with ce.
    destruct (ltb ce (PF.FrequencyError s));
      match goal with
      | |- context [eqb (PF.FrequencyError ?t) 0] =>
          change (PF.FrequencyError t) with ce
      end;
      destruct (eqb ce 0); reflexivity.
Qed.

Lemma spf_mod_body_eq R N rem m s :
  (2 <=? m) = true ->
  SPF.mod_body R N rem m s
  = (spf_cand R N rem m s,
     if eqb (SPF.FrequencyError (spf_cand R N rem m s)) 0 then Break else Next).
Proof.
  intros Hm. unfold SPF.mod_body, spf_cand, cand_abs. rewrite Hm. cbv zeta.
  fold (cand_frac (Zq (SPF.ReferenceFrequencyToMatch s) / Zq R) rem m).
  fold (cand_err (Zq (SPF.ReferenceFrequencyToMatch s) / Zq R) rem m).
  set (ce := cand_err (Zq (SPF.ReferenceFrequencyToMatch s) / Zq R) rem m).
  destruct (ltb ce 0).
  - change (SPF.FrequencyError (SPF.set_NegativeFrequencyError true s))
      with (SPF.FrequencyError s).
    destruct (ltb (ce * Zq (-1)) (SPF.FrequencyError s)).
    + change (SPF.FrequencyError
                (SPF.set_MatchingFrac ?[a]
                   (SPF.set_MatchingMod ?[b]
                      (SPF.set_MatchingInt ?[c]
                         (SPF.set_MatchingR ?[d]
                            (SPF.set_FrequencyError (ce * Zq (-1)) ?[e]))))))
        with (ce * Zq (-1))%Q.
      destruct (eqb (ce * Zq (-1)) 0); reflexivity.
    + change (SPF.FrequencyError (SPF.set_NegativeFrequencyError true s))
        with (SPF.FrequencyError s).
      destruct (eqb (SPF.FrequencyError s) 0); reflexivity.
  - change (SPF.FrequencyError (SPF.set_NegativeFrequencyError false s))
      with (SPF.FrequencyError s).
    destruct (ltb ce (SPF.FrequencyError s)).
    + change (SPF.FrequencyError
                (SPF.set_MatchingFrac ?[a]
                   (SPF.set_MatchingMod ?[b]
                      (SPF.set_MatchingInt ?[c]
                         (SPF.set_MatchingR ?[d]
                            (SPF.set_FrequencyError ce ?[e]))))))
        with ce.
      destruct (eqb ce 0); reflexivity.
    + change (SPF.FrequencyError (SPF.set_NegativeFrequencyError false s))
        with (SPF.FrequencyError s).
      destruct (eqb (SPF.FrequencyError s) 0); reflexivity.
Qed.

Lemma cand_frac_range (pfd rem : Q) (m : Z) :
  (0 <= rem)%Q -> (0 < pfd)%Q -> 1 <= m -> 0 <= cand_frac pfd rem m < m.
Proof.
  intros Hrem Hpfd Hm. unfold cand_frac. apply candidate_frac_range; try assumption.
  apply Qlt_shift_div_l; [apply Zq_pos; lia | lra].
Qed.

Lemma cand_abs_nonneg pfd rem m : (0 <= cand_abs pfd rem m)%Q.
Proof.
  unfold cand_abs. destruct (ltb (cand_err pfd rem m) 0) eqn:E.
  - apply ltb_lt in E.
    assert (H : (cand_err pfd rem m * Zq (-1) == - cand_err pfd rem m)%Q)
      by (unfold Zq; change (inject_Z (-1)) with (-1 # 1)%Q; ring).
    rewrite H. lra.
  - apply ltb_ge in E. exact E.
Qed.

Lemma cand_abs_zero pfd rem m :
  (cand_abs pfd rem m == 0)%Q <-> (cand_err pfd rem m == 0)%Q.
Proof.
  unfold cand_abs. destruct (ltb (cand_err pfd rem m) 0) eqn:E.
  - apply ltb_lt in E.
    assert (H : (cand_err pfd rem m * Zq (-1) == - cand_err pfd rem m)%Q)
      by (unfold Zq; change (inject_Z (-1)) with (-1 # 1)%Q; ring).
    rewrite H. split; intros; lra.
  - tauto.
Qed.

Lemma pf_cand_kept ref R N rem m s : pf_kept s (pf_cand ref R N rem m s).
Proof.
  unfold pf_kept, pf_cand. cbv zeta.
  destruct (ltb _ (PF.FrequencyError s)); repeat split; auto.
Qed.

Lemma pf_cand_error ref R N rem m s :
  PF.FrequencyError (pf_cand ref R N rem m s) = cand_abs (ref / Zq R) rem m
  /\ PF.NegativeFrequencyError (pf_cand ref R N rem m s)
     = ltb (cand_err (ref / Zq R) rem m) 0.
Proof.
  unfold pf_cand. cbv zeta.
  destruct (ltb _ (PF.FrequencyError s)); split; reflexivity.
Qed.

Lemma spf_cand_kept R N rem m s : spf_kept s (spf_cand R N rem m s).
Proof.
  unfold spf_kept, spf_cand. cbv zeta.
  destruct (ltb _ (SPF.FrequencyError s)); repeat split; auto.
Qed.

(** ** The fractional-mode search of MAX2870pf.py *)

Lemma pf_kept_refl s : pf_kept s s.
Proof. unfold pf_kept. tauto. Qed.

Lemma pf_kept_trans s1 s2 s3 : pf_kept s1 s2 -> pf_kept s2 s3 -> pf_kept s1 s3.
Proof.
  unfold pf_kept. intros (a1 & a2 & a3 & a4 & a5 & a6 & a7 & a8)
    (b1 & b2 & b3 & b4 & b5 & b6 & b7 & b8).
  repeat split; try congruence. auto.
Qed.

Lemma pfd_ok_pos ref R s :
  PF.pfd_ok ref R s = true -> 0 < R /\ (0 < ref / Zq R)%Q.
Proof.
  unfold PF.pfd_ok. rewrite !andb_true_iff, !leb_le, Z.ltb_lt.
  intros [[HR Hlo] _]. split; [exact HR|].
  assert (Zq PF.MinimumPFDFrequency == 125000)%Q by reflexivity. lra.
Qed.

Lemma pf_mod_body_kept ref R N rem m s :
  pf_kept s (fst (PF.mod_body ref R N rem m s)).
Proof.
  destruct (2 <=? m) eqn:E.
  - rewrite pf_mod_body_eq by exact E. apply pf_cand_kept.
  - unfold PF.mod_body. rewrite E. apply pf_kept_refl.
Qed.

Lemma pf_mod_body_frac_ok ref R N rem m s :
  (0 <= rem)%Q -> (0 < ref / Zq R)%Q -> 0 <= m <= PF.MaximumMod ->
  pf_frac_ok s -> pf_frac_ok (fst (PF.mod_body ref R N rem m s)).
Proof.
  intros Hrem Hpfd Hm Hs.
  destruct (2 <=? m) eqn:E2.
  2:{ unfold PF.mod_body. rewrite E2. exact Hs. }
  rewrite pf_mod_body_eq by exact E2. apply Z.leb_le in E2.
  pose proof (cand_frac_range (ref / Zq R) rem m Hrem Hpfd ltac:(lia)) as Hc.
  cbn [fst]. unfold pf_cand. cbv zeta.
  destruct (ltb _ (PF.FrequencyError s)); [|exact Hs].
  change (0 <= cand_frac (ref / Zq R) rem m < m /\ 2 <= m <= PF.MaximumMod). lia.
Qed.

Lemma pf_mod_loop ref R N rem s :
  (0 <= rem)%Q -> (0 < ref / Zq R)%Q ->
  let s' := for_in (PF.mod_body ref R N rem) (range (PF.MaximumMod + 1)) s in
  pf_kept s s' /\ (pf_frac_ok s -> pf_frac_ok s').
Proof.
  intros Hrem Hpfd. cbv zeta.
  apply (for_in_inv (fun t => pf_kept s t /\ (pf_frac_ok s -> pf_frac_ok t))).
  - intros m t Hin [Hk Hok]. apply in_range in Hin. split.
    + eapply pf_kept_trans; [exact Hk | apply pf_mod_body_kept].
    + intros H. apply pf_mod_body_frac_ok; auto. lia.
  - split; [apply pf_kept_refl | auto].
Qed.

Lemma pf_frac_body_inv ref R s :
  let s' := fst (PF.frac_body ref R s) in
  pf_kept s s' /\ (pf_frac_ok s -> pf_frac_ok s').
Proof.
  cbv zeta. unfold PF.frac_body. cbv zeta.
  destruct (PF.pfd_ok ref R s) eqn:Ep.
  - destruct (pfd_ok_pos _ _ _ Ep) as [HR Hpfd].
    destruct ((PF.MinimumInt s <=? floor (PF.DesiredFrequency s / (ref / Zq R)))
              && (floor (PF.DesiredFrequency s / (ref / Zq R)) <=? PF.MaximumInt s)).
    + set (s1 := PF.set_MatchAttempted true s).
      pose proof (pf_mod_loop ref R
                    (floor (PF.DesiredFrequency s / (ref / Zq R)))
                    (PF.DesiredFrequency s1
                     - Zq (floor (PF.DesiredFrequency s / (ref / Zq R))) * (ref / Zq R))
                    s1
                    (remainder_nonneg _ _ Hpfd) Hpfd) as [Hk Hok].
      cbv zeta in Hk, Hok.
      assert (H1 : pf_kept s s1) by (unfold pf_kept, s1; pf_fields; tauto).
      split_ifs; cbn [fst]; (split; [eapply pf_kept_trans; eauto | intros H; apply Hok, H]).
    + split_ifs; cbn [fst]; (split; [apply pf_kept_refl | auto]).
  - split_ifs; cbn [fst]; (split; [apply pf_kept_refl | auto]).
Qed.

Lemma pf_fractional_search_inv ref s :
  let s' := PF.fractional_search ref s in
  PF.DesiredFrequency s' = PF.DesiredFrequency s
  /\ PF.MatchingDivider s' = PF.MatchingDivider s
  /\ PF.MatchingDivider_PowerOf2 s' = PF.MatchingDivider_PowerOf2 s
  /\ PF.FractionalMode s' = PF.FractionalMode s
  /\ (PF.MatchAttempted s = true -> PF.MatchAttempted s' = true)
  /\ (pf_frac_ok s -> pf_frac_ok s')
  /\ (PF.FractionalMode s = false -> s' = s).
Proof.
  cbv zeta. unfold PF.fractional_search.
  destruct (PF.FractionalMode s) eqn:Em.
  - set (s1 := PF.set_MaximumPFDFrequency 50000000
                 (PF.set_MaximumInt 4091 (PF.set_MinimumInt 19 s))).
    assert (H : pf_kept s1 (for_in (PF.frac_body ref) (range (PF.MaximumR + 1)) s1)
                /\ (pf_frac_ok s1 ->
                    pf_frac_ok (for_in (PF.frac_body ref) (range (PF.MaximumR + 1)) s1))).
    { apply (for_in_inv (fun t => pf_kept s1 t /\ (pf_frac_ok s1 -> pf_frac_ok t))).
      - intros R t _ [Hk Hok]. destruct (pf_frac_body_inv ref R t) as [Hk' Hok'].
        split; [eapply pf_kept_trans; eauto | auto].
      - split; [apply pf_kept_refl | auto]. }
    destruct H as [(a1 & a2 & a3 & a4 & a5 & a6 & a7 & a8) Hok].
    split; [exact a1|]. split; [exact a2|]. split; [exact a3|].
    split; [rewrite a4; exact Em|]. split; [exact a8|].
    split; [exact Hok | discriminate].
  - split; [reflexivity|]. split; [reflexivity|]. split; [reflexivity|].
    split; [exact Em|]. split; [auto|]. split; [auto | reflexivity].
Qed.

(** ** From the loops to the scripts *)

Lemma pf_vco_loop_some fuel : forall s s',
  PF.vco_loop fuel s = Some s' ->
  exists j : nat,
    s' = PF.set_DesiredFrequency (dbl j (PF.DesiredFrequency s))
           (PF.set_MatchingDivider_PowerOf2
              (PF.MatchingDivider_PowerOf2 s + Z.of_nat j) s).
Proof.
  induction fuel as [|fuel IH]; intros s s'; cbn [PF.vco_loop];
    destruct (ltb (PF.DesiredFrequency s) (Zq PF.MaximumRFFrequency / 2)); try discriminate.
  - intros [= <-]. exists O. cbn [dbl Z.of_nat]. rewrite Z.add_0_r.
    destruct s; reflexivity.
  - intros H. apply IH in H. destruct H as (j & ->). exists (S j).
    pf_fields. cbn [dbl]. f_equal. lia.
  - intros [= <-]. exists O. cbn [dbl Z.of_nat]. rewrite Z.add_0_r.
    destruct s; reflexivity.
Qed.

Lemma pf_normalize_some fuel s s' :
  PF.normalize fuel s = Some s' ->
  exists j : nat,
    s' = PF.set_MatchingDivider (2 ^ (PF.MatchingDivider_PowerOf2 s + Z.of_nat j))
           (PF.set_DesiredFrequency (dbl j (PF.DesiredFrequency s))
              (PF.set_MatchingDivider_PowerOf2
                 (PF.MatchingDivider_PowerOf2 s + Z.of_nat j) s)).
Proof.
  unfold PF.normalize. destruct (PF.vco_loop fuel s) as [t|] eqn:E; [|discriminate].
  intros [= <-]. apply pf_vco_loop_some in E. destruct E as (j & ->).
  exists j. reflexivity.
Qed.

Lemma integer_match_vco ref vco vco' R :
  (vco == vco')%Q -> integer_match ref vco R -> integer_match ref vco' R.
Proof.
  intros E (HR & Hlo & Hhi & n & Hn & Hr). repeat split; try assumption.
  exists n. split; [|exact Hr]. rewrite <- E. exact Hn.
Qed.

Lemma pf_exact_at_iff ref s R :
  PF.MinimumInt s = 16 -> PF.MaximumInt s = 65535 ->
  PF.MaximumPFDFrequency s = 105000000 ->
  pf_exact_at ref s R = true <-> integer_match ref (PF.DesiredFrequency s) R.
Proof.
  intros E1 E2 E3. split.
  - intros H. apply pf_exact_at_facts in H.
    destruct H as (HR & Hlo & Hhi & _ & n & Hn & Hr).
    rewrite E1, E2 in Hr. rewrite E3 in Hhi. repeat split; try assumption.
    exists n. split; assumption.
  - intros (HR & Hlo & Hhi & n & Hn & Hr).
    unfold pf_exact_at, PF.pfd_ok, pf_IntTemp. rewrite E1, E2, E3.
    rewrite !andb_true_iff, !leb_le, Z.ltb_lt. repeat split; try assumption.
    + rewrite Hn. unfold Zq. rewrite <- Zle_Qle. lia.
    + rewrite Hn. unfold Zq. rewrite <- Zle_Qle. lia.
    + apply remainder_1_zero. exists n. exact Hn.
Qed.

(** The state after normalisation of the initial state. *)
Lemma pf_main_in_range fuel ref rf r :
  leb (Zq PF.MinimumReferenceFrequency) ref
  && leb ref (Zq PF.MaximumReferenceFrequency) = true ->
  leb (Zq PF.MinimumRFFrequency) rf && leb rf (Zq PF.MaximumRFFrequency) = true ->
  PF.main fuel ref rf = Some r ->
  exists j : nat,
    let s1 := PF.set_MatchingDivider (2 ^ Z.of_nat j)
                (PF.set_DesiredFrequency (dbl j rf)
                   (PF.set_MatchingDivider_PowerOf2 (Z.of_nat j) (PF.init ref rf))) in
    r = PF.report (PF.fractional_search ref (PF.integer_search ref s1)).
Proof.
  intros Href Hrf. unfold PF.main. cbv zeta.
  change (PF.DesiredFrequency (PF.init ref rf)) with rf. rewrite Href, Hrf.
  unfold PF.search.
  destruct (PF.normalize fuel (PF.init ref rf)) as [s1|] eqn:E; [|discriminate].
  intros [= <-]. apply pf_normalize_some in E. destruct E as (j & ->).
  exists j. reflexivity.
Qed.

Lemma pf_main_out_of_range fuel ref rf :
  (leb (Zq PF.MinimumReferenceFrequency) ref
   && leb ref (Zq PF.MaximumReferenceFrequency) = false ->
   PF.main fuel ref rf = Some (PF.init ref rf, PF.ReferenceOutOfRange))
  /\ (leb (Zq PF.MinimumReferenceFrequency) ref
      && leb ref (Zq PF.MaximumReferenceFrequency) = true ->
      leb (Zq PF.MinimumRFFrequency) rf && leb rf (Zq PF.MaximumRFFrequency) = false ->
      PF.main fuel ref rf = Some (PF.init ref rf, PF.RFOutOfRange)).
Proof.
  unfold PF.main. cbv zeta. change (PF.DesiredFrequency (PF.init ref rf)) with rf.
  split.
  - intros ->. reflexivity.
  - intros -> ->. reflexivity.
Qed.

(** The report of a state is an integer report only when [FractionalMode]
    has been cleared. *)
Lemma pf_report_integer s t R N M F D P :
  PF.report s = (t, PF.IntegerReport R N M F D P) ->
  PF.FractionalMode s = false
  /\ R = PF.MatchingR s /\ N = PF.MatchingInt s /\ M = PF.MatchingMod s
  /\ F = PF.MatchingFrac s /\ D = PF.MatchingDivider s
  /\ P = PF.MatchingDivider_PowerOf2 s.
Proof.
  unfold PF.report. destruct (PF.MatchAttempted s); [|discriminate]. cbv zeta.
  change (PF.FractionalMode (PF.set_DesiredFrequency ?[x] s))
    with (PF.FractionalMode s).
  destruct (PF.FractionalMode s).
  - discriminate.
  - intros [= _ <- <- <- <- <- <-]. repeat split.
Qed.

Lemma pf_report_fractional s t e a R N M F D P :
  PF.report s = (t, PF.FractionalReport e a R N M F D P) ->
  PF.FractionalMode s = true /\ PF.MatchAttempted s = true
  /\ R = PF.MatchingR s /\ N = PF.MatchingInt s /\ M = PF.MatchingMod s
  /\ F = PF.MatchingFrac s /\ D = PF.MatchingDivider s
  /\ P = PF.MatchingDivider_PowerOf2 s.
Proof.
  unfold PF.report. destruct (PF.MatchAttempted s); [|discriminate]. cbv zeta.
  change (PF.FractionalMode (PF.set_DesiredFrequency ?[x] s))
    with (PF.FractionalMode s).
  destruct (PF.FractionalMode s).
  - intros [= _ _ _ <- <- <- <- <- <-].
    change (PF.NegativeFrequencyError (PF.set_DesiredFrequency ?[x] s))
      with (PF.NegativeFrequencyError s).
    destruct (PF.NegativeFrequencyError s); repeat split.
  - discriminate.
Qed.

(** The integer-mode result of MAX2870pf.py, in exact arithmetic. *)
Lemma pf_integer_result fuel ref rf s R N M F D P :
  PF.main fuel ref rf = Some (s, PF.IntegerReport R N M F D P) ->
  1 <= R <= PF.MaximumR
  /\ integer_match ref (rf * Zq D) R
  /\ (forall R', 1 <= R' < R -> ~ integer_match ref (rf * Zq D) R')
  /\ (exists n : Z, (N == Zq n)%Q /\ 16 <= n <= 65535)
  /\ (ref / Zq R * N == rf * Zq D)%Q
  /\ F = 0 /\ M = 2 /\ D = 2 ^ P /\ 0 <= P.
Proof.
  intros Hmain.
  destruct (leb (Zq PF.MinimumReferenceFrequency) ref
            && leb ref (Zq PF.MaximumReferenceFrequency)) eqn:Href.
  2:{ rewrite (proj1 (pf_main_out_of_range fuel ref rf) Href) in Hmain. discriminate. }
  destruct (leb (Zq PF.MinimumRFFrequency) rf && leb rf (Zq PF.MaximumRFFrequency)) eqn:Hrf.
  2:{ rewrite (proj2 (pf_main_out_of_range fuel ref rf) Href Hrf) in Hmain. discriminate. }
  destruct (pf_main_in_range fuel ref rf _ Href Hrf Hmain) as (j & Hr). cbv zeta in Hr.
  set (s1 := PF.set_MatchingDivider (2 ^ Z.of_nat j)
               (PF.set_DesiredFrequency (dbl j rf)
                  (PF.set_MatchingDivider_PowerOf2 (Z.of_nat j) (PF.init ref rf)))) in *.
  symmetry in Hr. apply pf_report_integer in Hr.
  destruct Hr as (Hmode & -> & -> & -> & -> & -> & ->).
  destruct (pf_fractional_search_inv ref (PF.integer_search ref s1))
    as (_ & _ & _ & Hfm & _ & _ & Hsame). cbv zeta in Hfm, Hsame.
  rewrite Hfm in Hmode. rewrite (Hsame Hmode). clear Hfm Hsame.
  destruct (pf_integer_search_spec ref s1) as [[E | E] | (R & HR & Hhit & Hfirst & E)];
    cbv zeta in E; rewrite E in Hmode |- *.
  - discriminate.
  - discriminate.
  - clear Hmode E.
    assert (Evco : (PF.DesiredFrequency s1 == rf * Zq (2 ^ Z.of_nat j))%Q).
    { subst s1. pf_get. apply dbl_pow. }
    assert (Hiff : forall R', pf_exact_at ref s1 R' = true
                              <-> integer_match ref (PF.DesiredFrequency s1) R').
    { intros R'. apply pf_exact_at_iff; reflexivity. }
    pose proof (pf_exact_at_facts ref s1 R Hhit) as (HRpos & _ & _ & Hexact & n & Hn & Hr).
    unfold pf_matched. subst s1. pf_get. pf_get_in Hexact. pf_get_in Hn.
    pf_get_in Hr. pf_get_in Evco.
    split; [lia|]. split.
    { eapply integer_match_vco; [exact Evco|]. apply Hiff. exact Hhit. }
    split.
    { intros R' HR' Hm. 
      assert (Hf : pf_exact_at ref
                     (PF.set_MatchingDivider (2 ^ Z.of_nat j)
                        (PF.set_DesiredFrequency (dbl j rf)
                           (PF.set_MatchingDivider_PowerOf2 (Z.of_nat j)
                              (PF.init ref rf)))) R' = false)
        by (apply Hfirst; lia).
      apply not_true_iff_false in Hf. apply Hf, Hiff.
      eapply integer_match_vco; [symmetry; exact Evco | exact Hm]. }
    split; [exists n; split; [exact Hn | exact Hr]|].
    split; [rewrite Hexact; exact Evco|].
    repeat split. lia.
Qed.

(** ** The searches of MAX2870spf.py *)

Lemma spf_int_body_cases R s :
  (spf_exact_at s R = true
   /\ SPF.int_body R s = (spf_matched R s, Break))
  \/ (spf_exact_at s R = false
      /\ (SPF.int_body R s = (SPF.set_MatchAttempted true s, Next)
          \/ SPF.int_body R s = (s, Next)
          \/ SPF.int_body R s = (s, Break))).
Proof.
  unfold SPF.int_body, spf_exact_at. fold (spf_IntTemp s R).
  destruct (SPF.pfd_ok R s); cbn [andb].
  - destruct (leb (Zq (SPF.MinimumInt s)) (spf_IntTemp s R)
              && leb (spf_IntTemp s R) (Zq (SPF.MaximumInt s))); cbn [andb].
    + destruct (eqb (remainder (spf_IntTemp s R) 1) 0).
      * left. split; reflexivity.
      * right. split; [reflexivity | left; reflexivity].
    + right. split; [reflexivity | right; right; reflexivity].
  - right. split; [reflexivity|]. right; left; reflexivity.
Qed.

Lemma spf_int_loop : forall len a s,
  let s' := for_in SPF.int_body (map Z.of_nat (seq a len)) s in
  (s' = s \/ s' = SPF.set_MatchAttempted true s)
  \/ exists R,
       Z.of_nat a <= R < Z.of_nat (a + len)
       /\ spf_exact_at s R = true
       /\ (forall R', Z.of_nat a <= R' < R -> spf_exact_at s R' = false)
       /\ s' = spf_matched R s.
Proof.
  induction len as [|len IH]; intros a s; cbn [seq map for_in].
  - left; now left.
  - destruct (spf_int_body_cases (Z.of_nat a) s)
      as [[Hhit ->] | [Hmiss [-> | [-> | ->]]]].
    + right. exists (Z.of_nat a). repeat split; try lia. exact Hhit.
    + specialize (IH (S a) (SPF.set_MatchAttempted true s)). cbv zeta in IH.
      destruct IH as [[-> | ->] | (R & HR & Hhit & Hfirst & ->)].
      * left; now right.
      * left; now right.
      * right. exists R. split; [lia|]. split; [exact Hhit|]. split; [|reflexivity].
        intros R' HR'. destruct (Z.eq_dec R' (Z.of_nat a)) as [-> | Hne].
        -- exact Hmiss.
        -- apply (Hfirst R'). lia.
    + specialize (IH (S a) s). cbv zeta in IH.
      destruct IH as [[-> | ->] | (R & HR & Hhit & Hfirst & ->)].
      * left; now left.
      * left; now right.
      * right. exists R. split; [lia|]. split; [exact Hhit|]. split; [|reflexivity].
        intros R' HR'. destruct (Z.eq_dec R' (Z.of_nat a)) as [-> | Hne].
        -- exact Hmiss.
        -- apply (Hfirst R'). lia.
    + left; now left.
Qed.

(** The integer search first raises the PFD limit to the integer-mode one
    (line 74); [s1] is the state it searches on. *)
Lemma spf_integer_search_spec s :
  let s1 := SPF.set_MaximumPFDFrequency 105000000 s in
  let s' := SPF.integer_search s in
  (s' = s1 \/ s' = SPF.set_MatchAttempted true s1)
  \/ exists R,
       0 <= R <= SPF.MaximumR
       /\ spf_exact_at s1 R = true
       /\ (forall R', 0 <= R' < R -> spf_exact_at s1 R' = false)
       /\ s' = spf_matched R s1.
Proof.
  cbv zeta. unfold SPF.integer_search. cbv zeta.
  change (range (SPF.MaximumR + 1)) with (map Z.of_nat (seq 0 1024)).
  destruct (spf_int_loop 1024 0 (SPF.set_MaximumPFDFrequency 105000000 s))
    as [H | (R & HR & Hhit & Hfirst & H)].
  - left. exact H.
  - right. exists R. unfold SPF.MaximumR. repeat split; try lia; assumption.
Qed.

Lemma spf_exact_at_facts s R :
  spf_exact_at s R = true ->
  0 < R
  /\ (Zq SPF.MinimumPFDFrequency <= Zq (SPF.ReferenceFrequencyToMatch s) / Zq R)%Q
  /\ (Zq (SPF.ReferenceFrequencyToMatch s) / Zq R <= Zq (SPF.MaximumPFDFrequency s))%Q
  /\ (Zq (SPF.ReferenceFrequencyToMatch s) / Zq R * spf_IntTemp s R
      == SPF.DesiredFrequency s)%Q
  /\ exists n : Z,
       (spf_IntTemp s R == Zq n)%Q
       /\ SPF.MinimumInt s <= n <= SPF.MaximumInt s.
Proof.
  unfold spf_exact_at, SPF.pfd_ok. rewrite !andb_true_iff, !leb_le, Z.ltb_lt.
  intros [[[[HR Hlo] Hhi] [Hmin Hmax]] Hrem].
  assert (Hpfd : (0 < Zq (SPF.ReferenceFrequencyToMatch s) / Zq R)%Q).
  { assert (Zq SPF.MinimumPFDFrequency == 125000)%Q by reflexivity. lra. }
  repeat split; try assumption.
  - unfold spf_IntTemp. revert Hpfd.
    generalize (Zq (SPF.ReferenceFrequencyToMatch s) / Zq R)%Q. intros p Hp.
    field. lra.
  - apply remainder_1_zero in Hrem. destruct Hrem as (n & Hn). exists n.
    split; [exact Hn|]. rewrite Hn in Hmin, Hmax. unfold Zq in Hmin, Hmax.
    rewrite <- Zle_Qle in Hmin, Hmax. lia.
Qed.

Lemma spf_exact_at_iff s R :
  SPF.MinimumInt s = 16 -> SPF.MaximumInt s = 65535 ->
  SPF.MaximumPFDFrequency s = 105000000 ->
  spf_exact_at s R = true
  <-> integer_match (Zq (SPF.ReferenceFrequencyToMatch s)) (SPF.DesiredFrequency s) R.
Proof.
  intros E1 E2 E3. split.
  - intros H. apply spf_exact_at_facts in H.
    destruct H as (HR & Hlo & Hhi & _ & n & Hn & Hr).
    rewrite E1, E2 in Hr. rewrite E3 in Hhi. repeat split; try assumption.
    exists n. split; assumption.
  - intros (HR & Hlo & Hhi & n & Hn & Hr).
    unfold spf_exact_at, SPF.pfd_ok, spf_IntTemp. rewrite E1, E2, E3.
    rewrite !andb_true_iff, !leb_le, Z.ltb_lt. repeat split; try assumption.
    + rewrite Hn. unfold Zq. rewrite <- Zle_Qle. lia.
    + rewrite Hn. unfold Zq. rewrite <- Zle_Qle. lia.
    + apply remainder_1_zero. exists n. exact Hn.
Qed.

Lemma spf_kept_refl s : spf_kept s s.
Proof. unfold spf_kept. tauto. Qed.

Lemma spf_kept_trans s1 s2 s3 : spf_kept s1 s2 -> spf_kept s2 s3 -> spf_kept s1 s3.
Proof.
  unfold spf_kept. intros (a1 & a2 & a3 & a4 & a5 & a6 & a7 & a8 & a9 & a10)
    (b1 & b2 & b3 & b4 & b5 & b6 & b7 & b8 & b9 & b10).
  repeat split; try congruence. auto.
Qed.

Lemma spf_pfd_ok_pos R s :
  SPF.pfd_ok R s = true ->
  0 < R /\ (0 < Zq (SPF.ReferenceFrequencyToMatch s) / Zq R)%Q.
Proof.
  unfold SPF.pfd_ok. rewrite !andb_true_iff, !leb_le, Z.ltb_lt.
  intros [[HR Hlo] _]. split; [exact HR|].
  assert (Zq SPF.MinimumPFDFrequency == 125000)%Q by reflexivity. lra.
Qed.

Lemma spf_mod_body_kept R N rem m s :
  spf_kept s (fst (SPF.mod_body R N rem m s)).
Proof.
  destruct (2 <=? m) eqn:E.
  - rewrite spf_mod_body_eq by exact E. apply spf_cand_kept.
  - unfold SPF.mod_body. rewrite E. apply spf_kept_refl.
Qed.

Lemma spf_mod_body_frac_ok R N rem m s :
  (0 <= rem)%Q -> (0 < Zq (SPF.ReferenceFrequencyToMatch s) / Zq R)%Q ->
  0 <= m <= SPF.MaximumMod ->
  spf_frac_ok s -> spf_frac_ok (fst (SPF.mod_body R N rem m s)).
Proof.
  intros Hrem Hpfd Hm Hs.
  destruct (2 <=? m) eqn:E2.
  2:{ unfold SPF.mod_body. rewrite E2. exact Hs. }
  rewrite spf_mod_body_eq by exact E2. apply Z.leb_le in E2.
  pose proof (cand_frac_range _ rem m Hrem Hpfd ltac:(lia)) as Hc.
  cbn [fst]. unfold spf_cand. cbv zeta.
  destruct (ltb _ (SPF.FrequencyError s)); [|exact Hs].
  change (0 <= cand_frac (Zq (SPF.ReferenceFrequencyToMatch s) / Zq R) rem m < m
          /\ 2 <= m <= SPF.MaximumMod). lia.
Qed.

Lemma spf_mod_loop R N rem s :
  (0 <= rem)%Q -> (0 < Zq (SPF.ReferenceFrequencyToMatch s) / Zq R)%Q ->
  let s' := for_in (SPF.mod_body R N rem) (range (SPF.MaximumMod + 1)) s in
  spf_kept s s' /\ (spf_frac_ok s -> spf_frac_ok s').
Proof.
  intros Hrem Hpfd. cbv zeta.
  apply (for_in_inv (fun t => spf_kept s t /\ (spf_frac_ok s -> spf_frac_ok t))).
  - intros m t Hin [Hk Hok]. apply in_range in Hin. split.
    + eapply spf_kept_trans; [exact Hk | apply spf_mod_body_kept].
    + intros H. apply spf_mod_body_frac_ok; auto; [|lia].
      destruct Hk as (_ & _ & _ & _ & _ & _ & _ & _ & -> & _). exact Hpfd.
  - split; [apply spf_kept_refl | auto].
Qed.

Lemma spf_frac_body_inv R s :
  let s' := fst (SPF.frac_body R s) in
  spf_kept s s' /\ (spf_frac_ok s -> spf_frac_ok s').
Proof.
  cbv zeta. unfold SPF.frac_body. cbv zeta.
  destruct (SPF.pfd_ok R s) eqn:Ep.
  - destruct (spf_pfd_ok_pos _ _ Ep) as [HR Hpfd].
    set (pfd := (Zq (SPF.ReferenceFrequencyToMatch s) / Zq R)%Q) in *.
    destruct ((SPF.MinimumInt s <=? floor (SPF.DesiredFrequency s / pfd))
              && (floor (SPF.DesiredFrequency s / pfd) <=? SPF.MaximumInt s)).
    + set (s1 := SPF.set_MatchAttempted true s).
      pose proof (spf_mod_loop R
                    (floor (SPF.DesiredFrequency s / pfd))
                    (SPF.DesiredFrequency s1
                     - Zq (floor (SPF.DesiredFrequency s / pfd)) * pfd)
                    s1
                    (remainder_nonneg _ _ Hpfd) Hpfd) as [Hk Hok].
      cbv zeta in Hk, Hok.
      assert (H1 : spf_kept s s1) by (unfold spf_kept, s1; spf_fields; tauto).
      split_ifs; cbn [fst]; (split; [eapply spf_kept_trans; eauto | intros H; apply Hok, H]).
    + cbn [fst]. split; [apply spf_kept_refl | auto].
  - cbn [fst]. split; [apply spf_kept_refl | auto].
Qed.

(** The fractional search clears [IntegerMode] and sets the
    fractional-mode limits (lines 96-100). *)
Lemma spf_fractional_search_inv s :
  let s' := SPF.fractional_search s in
  SPF.DesiredFrequency s' = SPF.DesiredFrequency s
  /\ SPF.MatchingDivider s' = SPF.MatchingDivider s
  /\ SPF.MatchingDivider_PowerOf2 s' = SPF.MatchingDivider_PowerOf2 s
  /\ SPF.FractionalMode s' = SPF.FractionalMode s
  /\ SPF.IntegerMode s' = false
  /\ SPF.ReferenceFrequencyToMatch s' = SPF.ReferenceFrequencyToMatch s
  /\ (SPF.MatchAttempted s = true -> SPF.MatchAttempted s' = true)
  /\ (spf_frac_ok s -> spf_frac_ok s').
Proof.
  cbv zeta. unfold SPF.fractional_search. cbv zeta.
  set (s1 := SPF.set_MaximumPFDFrequency 50000000
               (SPF.set_MaximumInt 4091
                  (SPF.set_MinimumInt 19 (SPF.set_IntegerMode false s)))).
  assert (H : spf_kept s1 (for_in SPF.frac_body (range (SPF.MaximumR + 1)) s1)
              /\ (spf_frac_ok s1 ->
                  spf_frac_ok (for_in SPF.frac_body (range (SPF.MaximumR + 1)) s1))).
  { apply (for_in_inv (fun t => spf_kept s1 t /\ (spf_frac_ok s1 -> spf_frac_ok t))).
    - intros R t _ [Hk Hok]. destruct (spf_frac_body_inv R t) as [Hk' Hok'].
      split; [eapply spf_kept_trans; eauto | auto].
    - split; [apply spf_kept_refl | auto]. }
  destruct H as [(a1 & a2 & a3 & a4 & a5 & a6 & a7 & a8 & a9 & a10) Hok].
  split; [exact a1|]. split; [exact a2|]. split; [exact a3|]. split; [exact a4|].
  split; [exact a5|]. split; [exact a9|]. split; [exact a10 | exact Hok].
Qed.

Lemma spf_vco_loop_some fuel : forall s s',
  SPF.vco_loop fuel s = Some s' ->
  exists j : nat,
    s' = SPF.set_DesiredFrequency (dbl j (SPF.DesiredFrequency s))
           (SPF.set_MatchingDivider_PowerOf2
              (SPF.MatchingDivider_PowerOf2 s + Z.of_nat j) s).
Proof.
  induction fuel as [|fuel IH]; intros s s'; cbn [SPF.vco_loop];
    destruct (ltb (SPF.DesiredFrequency s) (Zq SPF.MaximumRFFrequency / 2));
    try discriminate.
  - intros [= <-]. exists O. cbn [dbl Z.of_nat]. rewrite Z.add_0_r.
    destruct s; reflexivity.
  - intros H. apply IH in H. destruct H as (j & ->). exists (S j).
    spf_fields. cbn [dbl]. f_equal. lia.
  - intros [= <-]. exists O. cbn [dbl Z.of_nat]. rewrite Z.add_0_r.
    destruct s; reflexivity.
Qed.

Lemma spf_normalize_some fuel s s' :
  SPF.normalize fuel s = Some s' ->
  exists j : nat,
    s' = SPF.set_MatchingDivider (2 ^ (SPF.MatchingDivider_PowerOf2 s + Z.of_nat j))
           (SPF.set_DesiredFrequency (dbl j (SPF.DesiredFrequency s))
              (SPF.set_MatchingDivider_PowerOf2
                 (SPF.MatchingDivider_PowerOf2 s + Z.of_nat j) s)).
Proof.
  unfold SPF.normalize. destruct (SPF.vco_loop fuel s) as [t|] eqn:E; [|discriminate].
  intros [= <-]. apply spf_vco_loop_some in E. destruct E as (j & ->).
  exists j. reflexivity.
Qed.

(** ** Inputs without an exact solution

    With an integer reference [r] and an integer VCO frequency [v] that
    are coprime, no candidate examined by either search is exact: an exact
    candidate would make [r] divide [v * R * MOD] (or [v * R]), hence
    [R * MOD], which is smaller than [r]. *)

Lemma coprime_no_multiple (r v k : Z) :
  Z.gcd r v = 1 -> 0 < k < r -> ~ (r | v * k).
Proof.
  intros Hg Hk Hd. rewrite Z.mul_comm in Hd.
  assert (Hd' : (r | k)).
  { apply (Z.gauss r v k); [rewrite Z.mul_comm; exact Hd | exact Hg]. }
  apply Z.divide_pos_le in Hd'; lia.
Qed.

Lemma candidate_inexact (r v R m N f : Z) (vco : Q) :
  (vco == Zq v)%Q -> Z.gcd r v = 1 -> 0 < R -> 0 < m -> R * m < r ->
  ~ (vco - Zq N * (Zq r / Zq R) - Zq r / Zq R / Zq m * Zq f == 0)%Q.
Proof.
  intros Ev Hg HR Hm Hlt H.
  pose proof (Zq_pos R HR) as HRq. pose proof (Zq_pos m Hm) as Hmq.
  assert (E : (Zq (v * (R * m)) == Zq (r * (N * m + f)))%Q).
  { unfold Zq in *. rewrite !inject_Z_mult, inject_Z_plus, inject_Z_mult.
    rewrite Ev in H.
    assert (E1 : (inject_Z v * (inject_Z R * inject_Z m)
                  - inject_Z r * (inject_Z N * inject_Z m + inject_Z f)
                  == (inject_Z v - inject_Z N * (inject_Z r / inject_Z R)
                      - inject_Z r / inject_Z R / inject_Z m * inject_Z f)
                     * (inject_Z R * inject_Z m))%Q) by (field; lra).
    rewrite H in E1. lra. }
  unfold Zq in E. apply (proj1 (inject_Z_injective _ _)) in E.
  apply (coprime_no_multiple r v (R * m) Hg); [lia|].
  exists (N * m + f). rewrite E. ring.
Qed.

Lemma integer_match_inexact (r v R : Z) (vco : Q) :
  (vco == Zq v)%Q -> Z.gcd r v = 1 -> R < r ->
  ~ integer_match (Zq r) vco R.
Proof.
  intros Ev Hg Hlt (HR & Hlo & _ & n & Hn & _).
  pose proof (Zq_pos R HR) as HRq.
  assert (Hpfd : (0 < Zq r / Zq R)%Q) by lra.
  assert (E : (Zq (v * R) == Zq (r * n))%Q).
  { unfold Zq in *. rewrite !inject_Z_mult. rewrite Ev in Hn.
    assert (E1 : (inject_Z v * inject_Z R
                  == inject_Z v / (inject_Z r / inject_Z R) * inject_Z r)%Q).
    { field. split; [lra|]. intros E0. rewrite E0 in Hpfd.
      unfold Qdiv in Hpfd. rewrite Qmult_0_l in Hpfd. lra. }
    rewrite E1, Hn. ring. }
  unfold Zq in E. apply (proj1 (inject_Z_injective _ _)) in E.
  apply (coprime_no_multiple r v R Hg); [lia|].
  exists n. rewrite E. ring.
Qed.

(** A loop over a list splits at any point before which no pass breaks. *)
Lemma for_in_app {S : Type} body (xs ys : list Z) :
  (forall x (t : S), In x xs -> snd (body x t) = Next) ->
  forall s, for_in body (xs ++ ys) s = for_in body ys (for_in body xs s).
Proof.
  induction xs as [|x xs IH]; intros Hn s; cbn [app for_in]; [reflexivity|].
  pose proof (Hn x s (or_introl eq_refl)) as H1.
  destruct (body x s) as [s' f]. cbn [snd] in H1. subst f.
  apply IH. intros y t Hy. apply Hn. now right.
Qed.

(** *** MAX2870spf.py on such an input: the best error stays positive *)

Lemma spf_mod_body_pos R N rem m s :
  (forall f, ~ (rem - Zq (SPF.ReferenceFrequencyToMatch s) / Zq R / Zq m * Zq f == 0)%Q) ->
  (0 < SPF.FrequencyError s)%Q ->
  (0 < SPF.FrequencyError (fst (SPF.mod_body R N rem m s)))%Q.
Proof.
  intros Hne Hpos.
  destruct (2 <=? m) eqn:E2.
  2:{ unfold SPF.mod_body. rewrite E2. exact Hpos. }
  rewrite spf_mod_body_eq by exact E2. cbn [fst]. unfold spf_cand. cbv zeta.
  set (pfd := (Zq (SPF.ReferenceFrequencyToMatch s) / Zq R)%Q).
  destruct (ltb (cand_abs pfd rem m) (SPF.FrequencyError s)); [|exact Hpos].
  change (0 < cand_abs pfd rem m)%Q.
  pose proof (cand_abs_nonneg pfd rem m) as H0.
  destruct (Qlt_le_dec 0 (cand_abs pfd rem m)) as [H | H]; [exact H|].
  exfalso. apply (Hne (cand_frac pfd rem m)).
  apply cand_abs_zero. lra.
Qed.

Lemma spf_fractional_search_pos (r v : Z) s :
  SPF.ReferenceFrequencyToMatch s = r ->
  (SPF.DesiredFrequency s == Zq v)%Q ->
  Z.gcd r v = 1 ->
  SPF.MaximumR * SPF.MaximumMod < r ->
  (0 < SPF.FrequencyError s)%Q ->
  (0 < SPF.FrequencyError (SPF.fractional_search s))%Q.
Proof.
  intros Hr Hv Hg Hbig Hpos. unfold SPF.fractional_search. cbv zeta.
  set (s1 := SPF.set_MaximumPFDFrequency 50000000
               (SPF.set_MaximumInt 4091
                  (SPF.set_MinimumInt 19 (SPF.set_IntegerMode false s)))).
  assert (H : spf_kept s1 (for_in SPF.frac_body (range (SPF.MaximumR + 1)) s1)
              /\ (0 < SPF.FrequencyError
                        (for_in SPF.frac_body (range (SPF.MaximumR + 1)) s1))%Q).
  { apply (for_in_inv (fun t => spf_kept s1 t /\ (0 < SPF.FrequencyError t)%Q)).
    2:{ split; [apply spf_kept_refl | exact Hpos]. }
    intros R t HinR [Hk Ht]. apply in_range in HinR.
    destruct (spf_frac_body_inv R t) as [Hk' _]. cbv zeta in Hk'.
    split; [eapply spf_kept_trans; eauto|].
    unfold SPF.frac_body. cbv zeta.
    destruct (SPF.pfd_ok R t) eqn:Ep; [|exact Ht].
    destruct (spf_pfd_ok_pos _ _ Ep) as [HR _].
    match goal with |- context [if ?c then _ else _] => destruct c end; [|exact Ht].
    set (t1 := SPF.set_MatchAttempted true t).
    set (N := floor _).
    set (rem := (SPF.DesiredFrequency t1 - _)%Q).
    assert (Hloop : spf_kept t1 (for_in (SPF.mod_body R N rem) (range (SPF.MaximumMod + 1)) t1)
                    /\ (0 < SPF.FrequencyError
                              (for_in (SPF.mod_body R N rem)
                                 (range (SPF.MaximumMod + 1)) t1))%Q).
    { apply (for_in_inv (fun u => spf_kept t1 u /\ (0 < SPF.FrequencyError u)%Q)).
      2:{ split; [apply spf_kept_refl | exact Ht]. }
      intros m u Hinm [Hku Hu]. apply in_range in Hinm.
      split; [eapply spf_kept_trans; [exact Hku | apply spf_mod_body_kept]|].
      destruct (Z_lt_le_dec m 2) as [Hm | Hm].
      - unfold SPF.mod_body. apply Z.leb_gt in Hm. rewrite Hm. exact Hu.
      - apply spf_mod_body_pos; [|exact Hu]. intros f.
        assert (Eref : SPF.ReferenceFrequencyToMatch u = r).
        { destruct Hku as (_ & _ & _ & _ & _ & _ & _ & _ & -> & _).
          destruct Hk as (_ & _ & _ & _ & _ & _ & _ & _ & Hk9 & _).
          subst t1 s1. spf_fields. spf_fields_in Hk9. congruence. }
        assert (Evco : (SPF.DesiredFrequency t == Zq v)%Q).
        { destruct Hk as (-> & _). subst s1. spf_fields. exact Hv. }
        assert (Ereft : SPF.ReferenceFrequencyToMatch t = r).
        { destruct Hk as (_ & _ & _ & _ & _ & _ & _ & _ & Hk9 & _).
          subst s1. spf_fields_in Hk9. congruence. }
        subst rem t1. spf_fields. rewrite Eref, Ereft.
        apply (candidate_inexact r v R m N f); try assumption; try lia.
        unfold SPF.MaximumR, SPF.MaximumMod in *. nia. }
    destruct Hloop as [_ Hl]. split_ifs; cbn [fst]; exact Hl. }
  exact (proj2 H).
Qed.

(** ** The sweep, one step at a time *)

Lemma spf_integer_search_keeps s :
  let s' := SPF.integer_search s in
  SPF.IntegerMode s' = SPF.IntegerMode s
  /\ SPF.DesiredFrequency s' = SPF.DesiredFrequency s
  /\ SPF.MatchingDivider s' = SPF.MatchingDivider s
  /\ SPF.MatchingDivider_PowerOf2 s' = SPF.MatchingDivider_PowerOf2 s
  /\ SPF.ReferenceFrequencyToMatch s' = SPF.ReferenceFrequencyToMatch s
  /\ SPF.FrequencyError s' = SPF.FrequencyError s
  /\ SPF.MinimumInt s' = SPF.MinimumInt s
  /\ SPF.MaximumInt s' = SPF.MaximumInt s
  /\ (spf_frac_ok s -> spf_frac_ok s').
Proof.
  cbv zeta.
  destruct (spf_integer_search_spec s) as [[E | E] | (R & _ & _ & _ & E)];
    cbv zeta in E; rewrite E; unfold spf_matched, spf_frac_ok, SPF.MaximumMod;
    spf_get; repeat split; auto; lia.
Qed.

Lemma spf_search_step_cases s_n :
  SPF.FractionalMode s_n = true ->
  (SPF.IntegerMode s_n = true
   /\ SPF.FractionalMode (SPF.integer_search s_n) = false
   /\ SPF.search_step s_n = (SPF.integer_search s_n, Break))
  \/ (SPF.IntegerMode s_n = true
      /\ SPF.FractionalMode (SPF.integer_search s_n) = true
      /\ SPF.search_step s_n
         = (SPF.fractional_search (SPF.integer_search s_n),
            spf_flow (SPF.fractional_search (SPF.integer_search s_n))))
  \/ (SPF.IntegerMode s_n = false
      /\ SPF.search_step s_n
         = (SPF.fractional_search s_n, spf_flow (SPF.fractional_search s_n))).
Proof.
  intros Ef. unfold SPF.search_step, spf_flow. cbv zeta.
  destruct (SPF.IntegerMode s_n) eqn:Ei.
  - destruct (spf_integer_search_keeps s_n) as (Hk & _). cbv zeta in Hk.
    rewrite Hk, Ei.
    destruct (SPF.FractionalMode (SPF.integer_search s_n)) eqn:Efi.
    + right; left. split; [reflexivity|]. split; [reflexivity|].
      change (true && negb true) with false. cbv iota.
      destruct (eqb _ 0); reflexivity.
    + left. split; [reflexivity|]. split; reflexivity.
  - rewrite Ei, Ef. right; right. split; [reflexivity|].
    change (false && negb true) with false. cbv iota.
    destruct (eqb _ 0); reflexivity.
Qed.

Lemma spf_sweep_body_cases fuel start i s r :
  SPF.sweep_body fuel start i s = Some r ->
  (spf_rf_ok s = false /\ r = (spf_prep start i s, Break))
  \/ exists s_n,
       spf_rf_ok s = true
       /\ SPF.normalize fuel (spf_prep start i s) = Some s_n
       /\ ((SPF.IntegerMode s = true
            /\ SPF.FractionalMode (SPF.integer_search s_n) = false
            /\ r = (SPF.integer_search s_n, Break))
           \/ (SPF.IntegerMode s = true
               /\ SPF.FractionalMode (SPF.integer_search s_n) = true
               /\ r = (SPF.fractional_search (SPF.integer_search s_n),
                       spf_flow (SPF.fractional_search (SPF.integer_search s_n))))
           \/ (SPF.IntegerMode s = false
               /\ r = (SPF.fractional_search s_n,
                       spf_flow (SPF.fractional_search s_n)))).
Proof.
  unfold SPF.sweep_body. cbv zeta. fold (spf_prep start i s).
  change (leb (Zq SPF.MinimumRFFrequency) (SPF.DesiredFrequency (spf_prep start i s))
          && leb (SPF.DesiredFrequency (spf_prep start i s)) (Zq SPF.MaximumRFFrequency))
    with (spf_rf_ok s).
  destruct (spf_rf_ok s).
  2:{ intros H; injection H; intros <-. left. split; reflexivity. }
  destruct (SPF.normalize fuel (spf_prep start i s)) as [s_n|] eqn:En; [|discriminate].
  intros H. injection H; intros <-; clear H.
  right. exists s_n. split; [reflexivity|]. split; [reflexivity|].
  pose proof (spf_normalize_some _ _ _ En) as (j & Esn).
  assert (Ei : SPF.IntegerMode s_n = SPF.IntegerMode s) by (rewrite Esn; reflexivity).
  assert (Ef : SPF.FractionalMode s_n = true) by (rewrite Esn; reflexivity).
  rewrite <- Ei. apply spf_search_step_cases, Ef.
Qed.

(** A step that does not end the sweep has run the fractional search:
    [IntegerMode] is cleared and [FractionalMode] is set. *)
Lemma spf_sweep_body_next fuel start i s s' :
  SPF.sweep_body fuel start i s = Some (s', Next) ->
  SPF.IntegerMode s' = false /\ SPF.FractionalMode s' = true.
Proof.
  intros H. apply spf_sweep_body_cases in H.
  destruct H as [[_ H] | (s_n & _ & En & [(_ & _ & H) | [(_ & Ef & H) | (_ & H)]])];
    try discriminate.
  - injection H as -> _.
    destruct (spf_fractional_search_inv (SPF.integer_search s_n))
      as (_ & _ & _ & Hfm & Him & _). cbv zeta in Hfm, Him.
    split; [exact Him | congruence].
  - injection H as -> _.
    destruct (spf_fractional_search_inv s_n) as (_ & _ & _ & Hfm & Him & _).
    cbv zeta in Hfm, Him. split; [exact Him|].
    apply spf_normalize_some in En. destruct En as (j & ->). exact Hfm.
Qed.

(** A step entered with [IntegerMode] cleared leaves [FractionalMode]
    set, whether it ends the sweep or not. *)
Lemma spf_sweep_body_fractional fuel start i s s' f :
  SPF.IntegerMode s = false ->
  SPF.sweep_body fuel start i s = Some (s', f) ->
  SPF.IntegerMode s' = false /\ SPF.FractionalMode s' = true.
Proof.
  intros Him H. apply spf_sweep_body_cases in H.
  destruct H as [[_ H] | (s_n & _ & En & [(E & _) | [(E & _) | (_ & H)]])];
    try congruence.
  - injection H as -> _. unfold spf_prep. spf_fields. auto.
  - injection H as -> _.
    destruct (spf_fractional_search_inv s_n) as (_ & _ & _ & Hfm & Him' & _).
    cbv zeta in Hfm, Him'. split; [exact Him'|].
    apply spf_normalize_some in En. destruct En as (j & ->). exact Hfm.
Qed.

(** ** The whole sweep *)

Lemma spf_sweep_rest fuel start xs : forall s r,
  SPF.IntegerMode s = false -> SPF.FractionalMode s = true ->
  for_in_opt (SPF.sweep_body fuel start) xs s = Some r ->
  SPF.IntegerMode r = false /\ SPF.FractionalMode r = true.
Proof.
  intros s r Hi Hf.
  apply (for_in_opt_inv
           (fun t => SPF.IntegerMode t = false /\ SPF.FractionalMode t = true)).
  - intros x t t' f _ [Hti _] Hb. eapply spf_sweep_body_fractional; eauto.
  - split; assumption.
Qed.

Lemma range_succ n : 0 <= n -> range (n + 1) = 0 :: map Z.succ (range n).
Proof.
  intros Hn. unfold range. rewrite Z2Nat.inj_add by lia.
  change (Z.to_nat 1) with 1%nat. rewrite Nat.add_comm. cbn [Nat.add seq map].
  f_equal. rewrite <- seq_shift, !map_map. apply map_ext.
  intros a. lia.
Qed.

Lemma range_nonpos n : n <= 0 -> range n = [].
Proof.
  intros Hn. unfold range. replace (Z.to_nat n) with O by lia. reflexivity.
Qed.

(** An integer-mode result of the sweep is the exact match that the
    integer search found at the first reference. *)
Lemma spf_sweep_integer_result fuel rf start steps s :
  SPF.sweep fuel rf start steps = Some s ->
  SPF.MatchAttempted s = true -> SPF.FractionalMode s = false ->
  let start' := SPF.clamp_start start (SPF.clamp_steps steps) in
  exists s_n,
    SPF.normalize fuel (spf_prep start' 0 (SPF.init rf)) = Some s_n
    /\ s = SPF.integer_search s_n.
Proof.
  unfold SPF.sweep. cbv zeta.
  set (steps' := SPF.clamp_steps steps). set (start' := SPF.clamp_start start steps').
  intros Hrun Hma Hfm.
  destruct (Z_lt_le_dec steps' 0) as [Hneg | Hnn].
  - rewrite range_nonpos in Hrun by lia. injection Hrun as <-. discriminate.
  - rewrite range_succ in Hrun by exact Hnn. cbn [for_in_opt] in Hrun.
    destruct (SPF.sweep_body fuel start' 0 (SPF.init rf)) as [[s1 [|]]|] eqn:E1;
      try discriminate.
    + (* the first step did not end the sweep *)
      apply spf_sweep_body_next in E1. destruct E1 as [Hi Hf].
      apply (spf_sweep_rest _ _ _ _ _ Hi Hf) in Hrun. destruct Hrun. congruence.
    + injection Hrun as ->.
      apply spf_sweep_body_cases in E1.
      destruct E1 as [[_ H] | (s_n & _ & En & [(_ & _ & H) | [(_ & Ef & H) | (E & _)]])].
      * injection H as ->. discriminate.
      * injection H as ->. exists s_n. split; [exact En | reflexivity].
      * injection H as -> _.
        destruct (spf_fractional_search_inv (SPF.integer_search s_n))
          as (_ & _ & _ & H4 & _). cbv zeta in H4. congruence.
      * discriminate.
Qed.

Lemma spf_report_integer s t R N M F D P Ref :
  SPF.report s = (t, SPF.IntegerReport R N M F D P Ref) ->
  SPF.MatchAttempted s = true /\ SPF.FractionalMode s = false
  /\ R = SPF.MatchingR s /\ N = SPF.MatchingInt s /\ M = SPF.MatchingMod s
  /\ F = SPF.MatchingFrac s /\ D = SPF.MatchingDivider s
  /\ P = SPF.MatchingDivider_PowerOf2 s /\ Ref = SPF.FinalReferenceFrequency s.
Proof.
  unfold SPF.report. destruct (SPF.MatchAttempted s); [|discriminate]. cbv zeta.
  change (SPF.FractionalMode (SPF.set_DesiredFrequency ?[x] s))
    with (SPF.FractionalMode s).
  destruct (SPF.FractionalMode s).
  - discriminate.
  - intros [= _ <- <- <- <- <- <- <-]. repeat split.
Qed.

Lemma spf_report_fractional s t e a R N M F D P Ref :
  SPF.report s = (t, SPF.FractionalReport e a R N M F D P Ref) ->
  SPF.MatchAttempted s = true /\ SPF.FractionalMode s = true
  /\ R = SPF.MatchingR s /\ N = SPF.MatchingInt s /\ M = SPF.MatchingMod s
  /\ F = SPF.MatchingFrac s /\ D = SPF.MatchingDivider s
  /\ P = SPF.MatchingDivider_PowerOf2 s /\ Ref = SPF.FinalReferenceFrequency s.
Proof.
  unfold SPF.report. destruct (SPF.MatchAttempted s); [|discriminate]. cbv zeta.
  change (SPF.FractionalMode (SPF.set_DesiredFrequency ?[x] s))
    with (SPF.FractionalMode s).
  destruct (SPF.FractionalMode s).
  - intros [= _ _ _ <- <- <- <- <- <- <-].
    change (SPF.NegativeFrequencyError (SPF.set_DesiredFrequency ?[x] s))
      with (SPF.NegativeFrequencyError s).
    destruct (SPF.NegativeFrequencyError s); repeat split.
  - discriminate.
Qed.

(** The integer-mode result of MAX2870spf.py, in exact arithmetic. *)
Lemma spf_integer_result fuel rf start steps s R N M F D P Ref :
  SPF.main fuel rf start steps = Some (s, SPF.IntegerReport R N M F D P Ref) ->
  Ref = SPF.clamp_start start (SPF.clamp_steps steps)
  /\ 1 <= R <= SPF.MaximumR
  /\ integer_match (Zq Ref) (rf * Zq D) R
  /\ (forall R', 1 <= R' < R -> ~ integer_match (Zq Ref) (rf * Zq D) R')
  /\ (exists n : Z, (N == Zq n)%Q /\ 16 <= n <= 65535)
  /\ (Zq Ref / Zq R * N == rf * Zq D)%Q
  /\ F = 0 /\ M = 2 /\ D = 2 ^ P /\ 0 <= P.
Proof.
  unfold SPF.main.
  destruct (SPF.sweep fuel rf start steps) as [s0|] eqn:Esw; [|discriminate].
  intros [= Hrep]. assert (Hr : SPF.report s0 = (s, SPF.IntegerReport R N M F D P Ref)).
  { destruct (SPF.report s0). cbn in *. congruence. }
  clear Hrep. apply spf_report_integer in Hr.
  destruct Hr as (Hma & Hfm & -> & -> & -> & -> & -> & -> & ->).
  destruct (spf_sweep_integer_result _ _ _ _ _ Esw Hma Hfm) as (s_n & En & ->).
  clear Esw. set (start' := SPF.clamp_start start (SPF.clamp_steps steps)) in *.
  apply spf_normalize_some in En. destruct En as (j & Esn).
  change (SPF.MatchingDivider_PowerOf2 (spf_prep start' 0 (SPF.init rf))) with 0 in Esn.
  change (SPF.DesiredFrequency (spf_prep start' 0 (SPF.init rf))) with rf in Esn.
  rewrite Z.add_0_l in Esn.
  destruct (spf_integer_search_spec s_n) as [[E | E] | (R & HR & Hhit & Hfirst & E)];
    cbv zeta in E; rewrite E in Hfm, Hma |- *.
  - rewrite Esn in Hfm. discriminate.
  - rewrite Esn in Hfm. discriminate.
  - clear Hfm Hma E.
    set (s1 := SPF.set_MaximumPFDFrequency 105000000 s_n) in *.
    assert (Evco : (SPF.DesiredFrequency s1 == rf * Zq (2 ^ Z.of_nat j))%Q).
    { subst s1. rewrite Esn. spf_get. apply dbl_pow. }
    assert (Eref : SPF.ReferenceFrequencyToMatch s1 = start').
    { subst s1. rewrite Esn. unfold spf_prep. spf_get. lia. }
    assert (Hiff : forall R', spf_exact_at s1 R' = true
                              <-> integer_match (Zq start') (SPF.DesiredFrequency s1) R').
    { intros R'. rewrite <- Eref. apply spf_exact_at_iff; subst s1; rewrite Esn; reflexivity. }
    pose proof (spf_exact_at_facts s1 R Hhit) as (HRpos & _ & _ & Hexact & n & Hn & Hr).
    assert (Hmin : SPF.MinimumInt s1 = 16) by (subst s1; rewrite Esn; reflexivity).
    assert (Hmax : SPF.MaximumInt s1 = 65535) by (subst s1; rewrite Esn; reflexivity).
    assert (Hdiv : SPF.MatchingDivider s1 = 2 ^ Z.of_nat j) by (subst s1; rewrite Esn; reflexivity).
    assert (Hpw : SPF.MatchingDivider_PowerOf2 s1 = Z.of_nat j)
      by (subst s1; rewrite Esn; reflexivity).
    rewrite Hmin, Hmax in Hr. rewrite Eref in Hexact.
    unfold spf_matched. spf_get. rewrite Eref, Hdiv, Hpw.
    split; [reflexivity|]. split; [lia|]. split.
    { eapply integer_match_vco; [exact Evco|]. apply Hiff. exact Hhit. }
    split.
    { intros R' HR' Hm.
      assert (Hf : spf_exact_at s1 R' = false) by (apply Hfirst; lia).
      apply not_true_iff_false in Hf. apply Hf, Hiff.
      eapply integer_match_vco; [symmetry; exact Evco | exact Hm]. }
    split; [exists n; split; [exact Hn | exact Hr]|].
    split; [rewrite Hexact; exact Evco|].
    repeat split. lia.
Qed.

(** ** FRAC and MOD of every result, in exact arithmetic *)

Lemma pf_main_frac_range fuel ref rf s e a R N M F D P :
  PF.main fuel ref rf = Some (s, PF.FractionalReport e a R N M F D P) ->
  0 <= F < M /\ 2 <= M <= PF.MaximumMod.
Proof.
  intros Hmain.
  destruct (leb (Zq PF.MinimumReferenceFrequency) ref
            && leb ref (Zq PF.MaximumReferenceFrequency)) eqn:Href.
  2:{ rewrite (proj1 (pf_main_out_of_range fuel ref rf) Href) in Hmain. discriminate. }
  destruct (leb (Zq PF.MinimumRFFrequency) rf && leb rf (Zq PF.MaximumRFFrequency)) eqn:Hrf.
  2:{ rewrite (proj2 (pf_main_out_of_range fuel ref rf) Href Hrf) in Hmain. discriminate. }
  destruct (pf_main_in_range fuel ref rf _ Href Hrf Hmain) as (j & Hr). cbv zeta in Hr.
  set (s1 := PF.set_MatchingDivider (2 ^ Z.of_nat j)
               (PF.set_DesiredFrequency (dbl j rf)
                  (PF.set_MatchingDivider_PowerOf2 (Z.of_nat j) (PF.init ref rf)))) in *.
  symmetry in Hr. apply pf_report_fractional in Hr.
  destruct Hr as (_ & _ & _ & _ & -> & -> & _).
  destruct (pf_fractional_search_inv ref (PF.integer_search ref s1))
    as (_ & _ & _ & _ & _ & Hok & _). cbv zeta in Hok. apply Hok.
  destruct (pf_integer_search_spec ref s1) as [[E | E] | (R0 & _ & _ & _ & E)];
    cbv zeta in E; rewrite E; unfold pf_frac_ok, pf_matched, PF.MaximumMod;
    subst s1; pf_get; unfold PF.init; pf_get; lia.
Qed.

Lemma spf_sweep_body_frac_ok fuel start i s s' f :
  spf_frac_ok s -> SPF.sweep_body fuel start i s = Some (s', f) -> spf_frac_ok s'.
Proof.
  intros Hok H. apply spf_sweep_body_cases in H.
  assert (Hn : forall s_n, SPF.normalize fuel (spf_prep start i s) = Some s_n ->
                           spf_frac_ok s_n).
  { intros s_n En. apply spf_normalize_some in En. destruct En as (j & ->).
    exact Hok. }
  destruct H as [[_ H] | (s_n & _ & En & [(_ & _ & H) | [(_ & _ & H) | (_ & H)]])];
    injection H as -> _.
  - exact Hok.
  - apply spf_integer_search_keeps, Hn, En.
  - apply spf_fractional_search_inv, spf_integer_search_keeps, Hn, En.
  - apply spf_fractional_search_inv, Hn, En.
Qed.

Lemma spf_main_frac_range fuel rf start steps s e a R N M F D P Ref :
  SPF.main fuel rf start steps = Some (s, SPF.FractionalReport e a R N M F D P Ref) ->
  0 <= F < M /\ 2 <= M <= SPF.MaximumMod.
Proof.
  unfold SPF.main.
  destruct (SPF.sweep fuel rf start steps) as [s0|] eqn:Esw; [|discriminate].
  intros [= Hrep].
  assert (Hr : SPF.report s0 = (s, SPF.FractionalReport e a R N M F D P Ref)).
  { destruct (SPF.report s0). cbn in *. congruence. }
  clear Hrep. apply spf_report_fractional in Hr.
  destruct Hr as (_ & _ & _ & _ & -> & -> & _).
  unfold SPF.sweep in Esw. cbv zeta in Esw.
  apply (for_in_opt_inv spf_frac_ok) in Esw; [exact Esw | |].
  - intros x t t' f _ Ht Hb. eapply spf_sweep_body_frac_ok; eauto.
  - unfold spf_frac_ok, SPF.MaximumMod. cbn. lia.
Qed.

(** The FRAC recorded for a pair (R, MOD) is the rounded and clamped
    quotient. *)
Lemma pf_mod_body_frac ref R N rem m s :
  let s' := fst (PF.mod_body ref R N rem m s) in
  (PF.MatchingMod s' = m
   /\ PF.MatchingFrac s' = clamp_frac (round_frac (rem / (ref / Zq R / Zq m))) m)
  \/ (PF.MatchingMod s' = PF.MatchingMod s /\ PF.MatchingFrac s' = PF.MatchingFrac s).
Proof.
  cbv zeta. destruct (2 <=? m) eqn:E.
  - rewrite pf_mod_body_eq by exact E. cbn [fst]. unfold pf_cand. cbv zeta.
    destruct (ltb _ (PF.FrequencyError s)).
    + left. split; reflexivity.
    + right. split; reflexivity.
  - unfold PF.mod_body. rewrite E. right. split; reflexivity.
Qed.

Lemma spf_mod_body_frac R N rem m s :
  let s' := fst (SPF.mod_body R N rem m s) in
  (SPF.MatchingMod s' = m
   /\ SPF.MatchingFrac s'
      = clamp_frac
          (round_frac (rem / (Zq (SPF.ReferenceFrequencyToMatch s) / Zq R / Zq m))) m)
  \/ (SPF.MatchingMod s' = SPF.MatchingMod s /\ SPF.MatchingFrac s' = SPF.MatchingFrac s).
Proof.
  cbv zeta. destruct (2 <=? m) eqn:E.
  - rewrite spf_mod_body_eq by exact E. cbn [fst]. unfold spf_cand. cbv zeta.
    destruct (ltb _ (SPF.FrequencyError s)).
    + left. split; reflexivity.
    + right. split; reflexivity.
  - unfold SPF.mod_body. rewrite E. right. split; reflexivity.
Qed.

(** * The claims *)

(** ** The integer-mode result in exact arithmetic *)

(** In exact arithmetic an integer-mode result of either script is the
    first exact integer match in increasing R order (no smaller [R >= 1] is
    an exact match), [N] is an integer within [[16, 65535]], FRAC is 0,
    MOD is 2, and [(reference / R) * N] equals the VCO frequency
    [rf * divider].  In the sweep the reference is the first one of the
    (clamped) range. *)
Lemma integer_result_exact_arithmetic :
  (forall fuel ref rf s R N M F D P,
     PF.main fuel ref rf = Some (s, PF.IntegerReport R N M F D P) ->
     1 <= R <= PF.MaximumR
     /\ integer_match ref (rf * Zq D) R
     /\ (forall R', 1 <= R' < R -> ~ integer_match ref (rf * Zq D) R')
     /\ (exists n : Z, (N == Zq n)%Q /\ 16 <= n <= 65535)
     /\ (ref / Zq R * N == rf * Zq D)%Q
     /\ F = 0 /\ M = 2 /\ D = 2 ^ P /\ 0 <= P)
  /\
  (forall fuel rf start steps s R N M F D P Ref,
     SPF.main fuel rf start steps = Some (s, SPF.IntegerReport R N M F D P Ref) ->
     Ref = SPF.clamp_start start (SPF.clamp_steps steps)
     /\ 1 <= R <= SPF.MaximumR
     /\ integer_match (Zq Ref) (rf * Zq D) R
     /\ (forall R', 1 <= R' < R -> ~ integer_match (Zq Ref) (rf * Zq D) R')
     /\ (exists n : Z, (N == Zq n)%Q /\ 16 <= n <= 65535)
     /\ (Zq Ref / Zq R * N == rf * Zq D)%Q
     /\ F = 0 /\ M = 2 /\ D = 2 ^ P /\ 0 <= P).
Proof.
  split.
  - apply pf_integer_result.
  - apply spf_integer_result.
Qed.

(** ** Rounding and range of FRAC in exact arithmetic *)

(** The rounding of lines 88-91 (112-115) is to the nearest integer, a
    fractional part of exactly 1/2 going upward, for a quotient that is not
    negative; the clamp of lines 92-93 (116-117) replaces a FRAC that
    reached MOD by [MOD - 1].  In exact arithmetic the quotient
    [remainder / step] is not negative at a feasible R, and every
    fractional-mode result has [0 <= frac < mod] and [2 <= mod <= 4095]. *)
Lemma frac_rounding_and_range_exact_arithmetic :
  (forall x, (0 <= x)%Q -> round_frac x = Qfloor (x + (1 # 2)))
  /\ (forall n, 0 <= n -> round_frac (Zq n + (1 # 2)) = n + 1)
  /\ (forall f m, (m <= f -> clamp_frac f m = m - 1) /\ (f < m -> clamp_frac f m = f))
  /\ (forall vco pfd m, (0 < pfd)%Q -> 1 <= m ->
        (0 <= (vco - Zq (floor (vco / pfd)) * pfd) / (pfd / Zq m))%Q)
  /\ (forall ref R N rem m s,
        let s' := fst (PF.mod_body ref R N rem m s) in
        (PF.MatchingMod s' = m
         /\ PF.MatchingFrac s' = clamp_frac (round_frac (rem / (ref / Zq R / Zq m))) m)
        \/ (PF.MatchingMod s' = PF.MatchingMod s
            /\ PF.MatchingFrac s' = PF.MatchingFrac s))
  /\ (forall R N rem m s,
        let s' := fst (SPF.mod_body R N rem m s) in
        (SPF.MatchingMod s' = m
         /\ SPF.MatchingFrac s'
            = clamp_frac
                (round_frac
                   (rem / (Zq (SPF.ReferenceFrequencyToMatch s) / Zq R / Zq m))) m)
        \/ (SPF.MatchingMod s' = SPF.MatchingMod s
            /\ SPF.MatchingFrac s' = SPF.MatchingFrac s))
  /\ (forall fuel ref rf s e a R N M F D P,
        PF.main fuel ref rf = Some (s, PF.FractionalReport e a R N M F D P) ->
        0 <= F < M /\ 2 <= M <= 4095)
  /\ (forall fuel rf start steps s e a R N M F D P Ref,
        SPF.main fuel rf start steps
        = Some (s, SPF.FractionalReport e a R N M F D P Ref) ->
        0 <= F < M /\ 2 <= M <= 4095).
Proof.
  split; [exact round_frac_half_up|].
  split; [exact round_frac_tie|].
  split; [exact clamp_frac_spec|].
  split.
  { intros vco pfd m Hp Hm. pose proof (remainder_nonneg vco pfd Hp) as Hr.
    apply Qle_shift_div_l.
    - apply Qlt_shift_div_l; [apply Zq_pos; lia | lra].
    - lra. }
  split; [exact pf_mod_body_frac|].
  split; [exact spf_mod_body_frac|].
  split.
  - intros. eapply pf_main_frac_range; eauto.
  - intros. eapply spf_main_frac_range; eauto.
Qed.

(** ** C6: an integer-mode result that is not exact *)

(** C6: MAX2870pf.py reports an integer-mode result that is not exact.
    On [--ref 32046819 --rf 5319771954.000001] the target is read as
    5319771954 + 2^-20 Hz, it is within the RF range and is the VCO
    frequency (divider 1), and the script prints "Integer mode - exact
    frequency" with R 29 and Int 4814.0: the binary64 quotient
    [vco / (ref / 29)] is 4814.0 although the exact quotient is not an
    integer.  [(ref / 29) * 4814] is 5319771954 Hz, in binary64 and exactly,
    which is not the VCO frequency. *)
Theorem C6_pf_integer_mode_not_exact :
  let ref := B64.of_Z 32046819 in
  let rf := Args.rf_5319771954_000001 in
  (B64.value ref == 32046819)%Q
  /\ (B64.value rf == 5319771954 + (1 # 1048576))%Q
  /\ (exists s,
        PF64.main 7 ref rf = Some (s, PF64.IntegerReport 29 (B64.of_Z 4814) 2 0 1 0)
        /\ PF64.DesiredFrequency s = rf)
  /\ B64.div rf (B64.div ref (B64.of_Z 29)) = B64.of_Z 4814
  /\ B64.mul (B64.div ref (B64.of_Z 29)) (B64.of_Z 4814) = B64.of_Z 5319771954
  /\ B64.eqb (B64.mul (B64.div ref (B64.of_Z 29)) (B64.of_Z 4814)) rf = false
  /\ (B64.value ref / Zq 29 * Zq 4814 == 5319771954)%Q
  /\ ~ (B64.value ref / Zq 29 * Zq 4814 == B64.value rf)%Q
  /\ ~ integer_match (B64.value ref) (B64.value rf) 29.
Proof.
  cbv zeta.
  assert (Hv : (B64.value Args.rf_5319771954_000001 == 5319771954 + (1 # 1048576))%Q)
    by (vm_compute; reflexivity).
  assert (Hr : (B64.value (B64.of_Z 32046819) == 32046819)%Q)
    by (vm_compute; reflexivity).
  split; [exact Hr|]. split; [exact Hv|].
  split; [eexists; split; vm_compute; reflexivity|].
  split; [vm_compute; reflexivity|].
  split; [vm_compute; reflexivity|].
  split; [vm_compute; reflexivity|].
  split; [rewrite Hr; reflexivity|].
  split.
  - rewrite Hr, Hv. intros H. vm_compute in H. discriminate.
  - intros (_ & _ & _ & n & Hn & _). rewrite Hr, Hv in Hn.
    assert (E : (Zq n == (5319771954 + (1 # 1048576)) / (32046819 / Zq 29))%Q)
      by (symmetry; exact Hn).
    assert (E2 : ((5319771954 + (1 # 1048576)) / (32046819 / Zq 29)
                  == 161767370696687645 # 33603525279744)%Q) by reflexivity.
    rewrite E2 in E. unfold Zq, Qeq in E. cbn [Qnum Qden inject_Z] in E. lia.
Qed.

(** ** C7: a FRAC of -1 *)

(** C7: MAX2870spf.py computes a FRAC of -1 for feasible pairs.  On
    [--rf 3943332912.3999996 --refstart 38063058 --steps 1] the target is
    the VCO frequency; at the second reference, 38063059 Hz, R = 5 is
    feasible in fractional mode: the PFD frequency is within the limits
    and [IntTemp] is 518, within [[19, 4091]].  The binary64 quotient
    [vco / (ref / 5)] is 518.0 while the exact one is below 518, so
    [FrequencyRemainder] is negative, - 2^-21 Hz, and for every MOD from
    2 to 4095 the quotient [FrequencyRemainder / ModFrequencyStep] lies
    between -1/2 and 0 and [FracToMatch] is -1 after lines 112-117: not
    the nearest integer, which is 0, and not within [[0, MOD)]. *)
Theorem C7_spf_negative_frac :
  let vco := Args.rf_3943332912_3999996 in
  let s := spf64_at vco 38063059 in
  (B64.value vco == 2067442125976371 # 524288)%Q
  /\ SPF.clamp_start 38063058 (SPF.clamp_steps 1) + 1 = 38063059
  /\ SPF64.normalize 11 (SPF64.init vco) = Some (SPF64.init vco)
  /\ SPF64.pfd_ok 5 s = true
  /\ SPF64.int_temp 5 s = 518
  /\ (SPF64.MinimumInt s <=? 518) && (518 <=? SPF64.MaximumInt s) = true
  /\ B64.div vco (SPF64.pfd 5 s) = B64.of_Z 518
  /\ (B64.value vco / (Zq 38063059 / Zq 5) < 518)%Q
  /\ (B64.value (SPF64.frequency_remainder 5 518 s) == - (1 # 2097152))%Q
  /\ forall m, 2 <= m <= SPF.MaximumMod ->
       let q := B64.div (SPF64.frequency_remainder 5 518 s)
                  (SPF64.mod_frequency_step 5 m s) in
       (- (1 # 2) < B64.value q)%Q /\ (B64.value q < 0)%Q
       /\ Qfloor (B64.value q + (1 # 2)) = 0
       /\ SPF64.frac_to_match (SPF64.frequency_remainder 5 518 s)
            (SPF64.mod_frequency_step 5 m s) m = -1.
Proof.
  cbv zeta.
  split; [vm_compute; reflexivity|].
  split; [reflexivity|].
  split; [vm_compute; reflexivity|].
  split; [vm_compute; reflexivity|].
  split; [vm_compute; reflexivity|].
  split; [reflexivity|].
  split; [vm_compute; reflexivity|].
  split; [vm_compute; reflexivity|].
  split; [vm_compute; reflexivity|].
  assert (H : forallb
                (fun m =>
                   (m <? 2)
                   || (let s := spf64_at Args.rf_3943332912_3999996 38063059 in
                       let q := B64.div (SPF64.frequency_remainder 5 518 s)
                                  (SPF64.mod_frequency_step 5 m s) in
                       ltb (- (1 # 2)) (B64.value q) && ltb (B64.value q) 0
                       && (Qfloor (B64.value q + (1 # 2)) =? 0)
                       && (SPF64.frac_to_match (SPF64.frequency_remainder 5 518 s)
                             (SPF64.mod_frequency_step 5 m s) m =? -1)))
                (range (SPF.MaximumMod + 1)) = true) by (vm_compute; reflexivity).
  intros m Hm. rewrite forallb_forall in H.
  specialize (H m (proj2 (in_range m (SPF.MaximumMod + 1)) ltac:(lia))).
  apply orb_true_iff in H. destruct H as [H | H]; [apply Z.ltb_lt in H; lia|].
  cbv zeta in H. rewrite !andb_true_iff in H. destruct H as [[[H1 H2] H3] H4].
  apply ltb_lt in H1, H2. apply Z.eqb_eq in H3, H4. repeat split; assumption.
Qed.

(** ** C8: the range checks of MAX2870pf.py *)

Lemma pf_report_not_out_of_range s :
  snd (PF.report s) <> PF.ReferenceOutOfRange /\ snd (PF.report s) <> PF.RFOutOfRange.
Proof.
  unfold PF.report. cbv zeta. split_ifs; cbn [snd]; split; discriminate.
Qed.

Lemma pf_main_accepts fuel ref rf :
  (7 <= fuel)%nat ->
  (Zq PF.MinimumReferenceFrequency <= ref)%Q ->
  (ref <= Zq PF.MaximumReferenceFrequency)%Q ->
  (Zq PF.MinimumRFFrequency <= rf)%Q ->
  (rf <= Zq PF.MaximumRFFrequency)%Q ->
  exists s1,
    PF.search fuel ref (PF.init ref rf) = Some s1
    /\ PF.main fuel ref rf = Some (PF.report s1).
Proof.
  intros Hfuel H1 H2 H3 H4. unfold PF.main. cbv zeta.
  change (PF.DesiredFrequency (PF.init ref rf)) with rf.
  apply leb_le in H1, H2, H4. pose proof H3 as H3'. apply leb_le in H3'.
  rewrite H1, H2, H3', H4. cbn [andb].
  unfold PF.search.
  destruct (pf_normalize_spec fuel (PF.init ref rf) Hfuel H3) as (j & _ & -> & _).
  eexists. split; reflexivity.
Qed.

(** C8: a reference frequency outside the reference range, or a target RF
    outside the RF range, makes MAX2870pf.py report the respective
    out-of-range failure with every variable as it was before any search.
    A reference within the closed reference range together with a target
    within the closed RF range, the ends included, is accepted: the target
    is doubled [j] times into a VCO frequency within [[3 GHz, 6 GHz]], the
    integer-mode search and then the fractional-mode search run on that
    state, and what is printed is the report of the state they leave,
    never an out-of-range failure.  At the four corners of the two ranges:
    10 MHz with 6 GHz gives the integer-mode result R 1, Int 600; 10 MHz
    with 23.475 MHz gives R 25, Int 7512 behind a divider of 128; 200 MHz
    with either end of the RF range is accepted and ends with the message
    that no result is possible. *)
Theorem C8_range_checks :
  (forall fuel ref rf,
     (~ (Zq PF.MinimumReferenceFrequency <= ref
         /\ ref <= Zq PF.MaximumReferenceFrequency)%Q ->
      PF.main fuel ref rf = Some (PF.init ref rf, PF.ReferenceOutOfRange))
     /\ ((Zq PF.MinimumReferenceFrequency <= ref
          /\ ref <= Zq PF.MaximumReferenceFrequency)%Q ->
         ~ (Zq PF.MinimumRFFrequency <= rf /\ rf <= Zq PF.MaximumRFFrequency)%Q ->
         PF.main fuel ref rf = Some (PF.init ref rf, PF.RFOutOfRange))
     /\ ((7 <= fuel)%nat ->
         (Zq PF.MinimumReferenceFrequency <= ref
          /\ ref <= Zq PF.MaximumReferenceFrequency)%Q ->
         (Zq PF.MinimumRFFrequency <= rf /\ rf <= Zq PF.MaximumRFFrequency)%Q ->
         exists j : nat,
           let s1 := PF.set_MatchingDivider (2 ^ Z.of_nat j)
                       (PF.set_DesiredFrequency (dbl j rf)
                          (PF.set_MatchingDivider_PowerOf2 (Z.of_nat j)
                             (PF.init ref rf))) in
           let s2 := PF.fractional_search ref (PF.integer_search ref s1) in
           (3000000000 <= dbl j rf)%Q /\ (dbl j rf <= 6000000000)%Q
           /\ PF.normalize fuel (PF.init ref rf) = Some s1
           /\ PF.search fuel ref (PF.init ref rf) = Some s2
           /\ PF.main fuel ref rf = Some (PF.report s2)
           /\ snd (PF.report s2) <> PF.ReferenceOutOfRange
           /\ snd (PF.report s2) <> PF.RFOutOfRange))
  /\ (exists s N,
        PF.main 7 (Zq PF.MinimumReferenceFrequency) (Zq PF.MaximumRFFrequency)
        = Some (s, PF.IntegerReport 1 N 2 0 1 0) /\ (N == 600)%Q)
  /\ (exists s N,
        PF.main 7 (Zq PF.MinimumReferenceFrequency) (Zq PF.MinimumRFFrequency)
        = Some (s, PF.IntegerReport 25 N 2 0 128 7) /\ (N == 7512)%Q)
  /\ (exists s,
        PF.main 7 (Zq PF.MaximumReferenceFrequency) (Zq PF.MaximumRFFrequency)
        = Some (s, PF.NotPossible))
  /\ (exists s,
        PF.main 7 (Zq PF.MaximumReferenceFrequency) (Zq PF.MinimumRFFrequency)
        = Some (s, PF.NotPossible)).
Proof.
  assert (Hand : forall a b x y, (leb a x && leb y b = true) <-> (a <= x /\ y <= b)%Q).
  { intros. rewrite andb_true_iff, !leb_le. tauto. }
  split; [intros fuel ref rf; split; [|split]|].
  - intros Hout. apply (proj1 (pf_main_out_of_range fuel ref rf)).
    apply not_true_iff_false. rewrite Hand. exact Hout.
  - intros Hin Hout. apply (proj2 (pf_main_out_of_range fuel ref rf)).
    + apply Hand. exact Hin.
    + apply not_true_iff_false. rewrite Hand. exact Hout.
  - intros Hfuel Href Hrf.
    destruct (pf_normalize_spec fuel (PF.init ref rf) Hfuel (proj1 Hrf))
      as (j & _ & En & Hlo & Hhi & _).
    change (PF.DesiredFrequency (PF.init ref rf)) with rf in En, Hlo, Hhi.
    change (PF.MatchingDivider_PowerOf2 (PF.init ref rf) + Z.of_nat j)
      with (Z.of_nat j) in En.
    exists j. cbv zeta.
    split; [exact Hlo|].
    split.
    { destruct j as [|j].
      - cbn [dbl]. assert (Zq PF.MaximumRFFrequency == 6000000000)%Q by reflexivity.
        destruct Hrf. lra.
      - apply Qlt_le_weak, Hhi. discriminate. }
    split; [exact En|].
    assert (Es : PF.search fuel ref (PF.init ref rf)
                 = Some (PF.fractional_search ref
                           (PF.integer_search ref
                              (PF.set_MatchingDivider (2 ^ Z.of_nat j)
                                 (PF.set_DesiredFrequency (dbl j rf)
                                    (PF.set_MatchingDivider_PowerOf2 (Z.of_nat j)
                                       (PF.init ref rf))))))).
    { unfold PF.search. rewrite En. reflexivity. }
    split; [exact Es|].
    split; [|apply pf_report_not_out_of_range].
    unfold PF.main. cbv zeta.
    change (PF.DesiredFrequency (PF.init ref rf)) with rf.
    rewrite (proj2 (Hand _ _ _ _) Href), (proj2 (Hand _ _ _ _) Hrf), Es. reflexivity.
  - split; [eexists _, _; split; [vm_compute; reflexivity | reflexivity]|].
    split; [eexists _, _; split; [vm_compute; reflexivity | reflexivity]|].
    split; eexists; vm_compute; reflexivity.
Qed.

(** C8 at [--ref 10000000 --rf 23475000], the lower end of both ranges:
    the general clause applies, and the script reports R 25 and Int 7512
    behind the divider 2^7. *)
Lemma C8_range_checks_witness :
  (Zq PF.MinimumReferenceFrequency <= Zq 10000000
   /\ Zq 10000000 <= Zq PF.MaximumReferenceFrequency)%Q
  /\ (Zq PF.MinimumRFFrequency <= Zq 23475000
      /\ Zq 23475000 <= Zq PF.MaximumRFFrequency)%Q
  /\ exists s2,
       PF.search 7 (Zq 10000000) (PF.init (Zq 10000000) (Zq 23475000)) = Some s2
       /\ PF.main 7 (Zq 10000000) (Zq 23475000) = Some (PF.report s2)
       /\ PF.FractionalMode s2 = false
       /\ PF.MatchingR s2 = 25
       /\ PF.MatchingDivider_PowerOf2 s2 = 7
       /\ snd (PF.report s2) <> PF.ReferenceOutOfRange
       /\ snd (PF.report s2) <> PF.RFOutOfRange.
Proof.
  assert (H1 : (Zq PF.MinimumReferenceFrequency <= Zq 10000000
                /\ Zq 10000000 <= Zq PF.MaximumReferenceFrequency)%Q)
    by (split; apply Qle_bool_iff; reflexivity).
  assert (H2 : (Zq PF.MinimumRFFrequency <= Zq 23475000
                /\ Zq 23475000 <= Zq PF.MaximumRFFrequency)%Q)
    by (split; apply Qle_bool_iff; reflexivity).
  split; [exact H1|]. split; [exact H2|].
  destruct (proj2 (proj2 (proj1 C8_range_checks 7%nat (Zq 10000000) (Zq 23475000)))
              (le_n 7) H1 H2) as (j & _ & _ & _ & Es & Em & Hr1 & Hr2).
  cbv zeta in Es, Em, Hr1, Hr2.
  eexists. split; [exact Es|]. split; [exact Em|].
  assert (E : exists t, PF.search 7 (Zq 10000000) (PF.init (Zq 10000000) (Zq 23475000))
                        = Some t
                        /\ PF.FractionalMode t = false /\ PF.MatchingR t = 25
                        /\ PF.MatchingDivider_PowerOf2 t = 7).
  { eexists. split; [vm_compute; reflexivity|]. repeat split. }
  destruct E as (t & Et & E1 & E2 & E3).
  rewrite Es in Et. injection Et as Et. rewrite Et.
  repeat split; try assumption; rewrite <- Et; assumption.
Defined.

(** ** C9: the clamps of the sweep *)

(** The reference of a step is the start plus the step number. *)
Lemma spf_sweep_body_ref fuel start i s s' f :
  SPF.sweep_body fuel start i s = Some (s', f) ->
  SPF.ReferenceFrequencyToMatch s' = start + i.
Proof.
  intros H. apply spf_sweep_body_cases in H.
  assert (Hn : forall s_n, SPF.normalize fuel (spf_prep start i s) = Some s_n ->
                           SPF.ReferenceFrequencyToMatch s_n = start + i).
  { intros s_n En. apply spf_normalize_some in En. destruct En as (j & ->).
    reflexivity. }
  destruct H as [[_ H] | (s_n & _ & En & [(_ & _ & H) | [(_ & _ & H) | (_ & H)]])];
    injection H as -> _.
  - reflexivity.
  - destruct (spf_integer_search_keeps s_n) as (_ & _ & _ & _ & -> & _). auto.
  - destruct (spf_fractional_search_inv (SPF.integer_search s_n))
      as (_ & _ & _ & _ & _ & -> & _).
    destruct (spf_integer_search_keeps s_n) as (_ & _ & _ & _ & -> & _). auto.
  - destruct (spf_fractional_search_inv s_n) as (_ & _ & _ & _ & _ & -> & _). auto.
Qed.

(** C9: before the sweep the step count is clamped to
    [MaximumReferenceFrequency - MinimumReferenceFrequency]; the start is
    moved down to [MaximumReferenceFrequency - steps] when [start + steps]
    exceeds the maximum, and raised to the minimum when below it; after
    that [start + steps <= maximum], [start >= minimum], and the reference
    of every step of the sweep lies within the reference range. *)
Theorem C9_sweep_clamps :
  forall start steps,
    let steps' := SPF.clamp_steps steps in
    let start' := SPF.clamp_start start steps' in
    steps' = Z.min steps (SPF.MaximumReferenceFrequency - SPF.MinimumReferenceFrequency)
    /\ start' + steps' <= SPF.MaximumReferenceFrequency
    /\ SPF.MinimumReferenceFrequency <= start'
    /\ (SPF.MaximumReferenceFrequency < start + steps' ->
        start' = SPF.MaximumReferenceFrequency - steps' /\ start' < start)
    /\ (forall i, In i (range (steps' + 1)) ->
        SPF.MinimumReferenceFrequency <= start' + i <= SPF.MaximumReferenceFrequency)
    /\ (forall fuel rf,
        SPF.sweep fuel rf start steps
        = for_in_opt (SPF.sweep_body fuel start') (range (steps' + 1)) (SPF.init rf))
    /\ (forall fuel i s s' f,
        In i (range (steps' + 1)) ->
        SPF.sweep_body fuel start' i s = Some (s', f) ->
        SPF.MinimumReferenceFrequency <= SPF.ReferenceFrequencyToMatch s'
        <= SPF.MaximumReferenceFrequency).
Proof.
  intros start steps. cbv zeta.
  assert (Hs : SPF.clamp_steps steps
               = Z.min steps (SPF.MaximumReferenceFrequency
                              - SPF.MinimumReferenceFrequency)).
  { unfold SPF.clamp_steps.
    destruct (SPF.MaximumReferenceFrequency - SPF.MinimumReferenceFrequency <? steps)
      eqn:E; [apply Z.ltb_lt in E | apply Z.ltb_ge in E]; lia. }
  set (steps' := SPF.clamp_steps steps) in *.
  assert (Hle : steps' <= 190000000).
  { rewrite Hs. unfold SPF.MaximumReferenceFrequency, SPF.MinimumReferenceFrequency. lia. }
  assert (Hc : (SPF.MaximumReferenceFrequency < start + steps' ->
                SPF.clamp_start start steps' = SPF.MaximumReferenceFrequency - steps')
               /\ (start + steps' <= SPF.MaximumReferenceFrequency ->
                   SPF.clamp_start start steps'
                   = Z.max start SPF.MinimumReferenceFrequency)).
  { unfold SPF.clamp_start, SPF.MaximumReferenceFrequency,
      SPF.MinimumReferenceFrequency in *.
    destruct (200000000 <? start + steps') eqn:E1;
      [apply Z.ltb_lt in E1 | apply Z.ltb_ge in E1].
    - destruct (200000000 - steps' <? 10000000) eqn:E2;
        [apply Z.ltb_lt in E2 | apply Z.ltb_ge in E2]; split; intros; lia.
    - destruct (start <? 10000000) eqn:E2;
        [apply Z.ltb_lt in E2 | apply Z.ltb_ge in E2]; split; intros; lia. }
  destruct Hc as [Hc1 Hc2].
  assert (Hrange : SPF.clamp_start start steps' + steps' <= SPF.MaximumReferenceFrequency
                   /\ SPF.MinimumReferenceFrequency <= SPF.clamp_start start steps').
  { unfold SPF.MaximumReferenceFrequency, SPF.MinimumReferenceFrequency in *.
    destruct (Z_lt_le_dec 200000000 (start + steps')) as [H | H].
    - rewrite (Hc1 H). lia.
    - rewrite (Hc2 H). lia. }
  split; [exact Hs|]. split; [apply Hrange|]. split; [apply Hrange|].
  split; [intros H; rewrite (Hc1 H); lia|].
  split; [intros i Hi; apply in_range in Hi; lia|].
  split; [reflexivity|].
  intros fuel i s s' f Hi Hb. rewrite (spf_sweep_body_ref _ _ _ _ _ _ Hb).
  apply in_range in Hi. lia.
Qed.

(** C9 at [--refstart 199999999 --steps 500000000]: the count becomes
    190000000 and the start 10000000. *)
Lemma C9_sweep_clamps_witness :
  SPF.clamp_steps 500000000 = 190000000
  /\ SPF.clamp_start 199999999 190000000 = 10000000
  /\ SPF.MinimumReferenceFrequency <= 10000000 + 190000000
     <= SPF.MaximumReferenceFrequency.
Proof.
  destruct (C9_sweep_clamps 199999999 500000000) as (H1 & _ & _ & H4 & H5 & _).
  cbv zeta in *.
  split; [rewrite H1; reflexivity|].
  assert (E : SPF.clamp_steps 500000000 = 190000000) by (rewrite H1; reflexivity).
  rewrite E in H4, H5.
  assert (E2 : SPF.clamp_start 199999999 190000000 = 10000000).
  { apply H4. unfold SPF.MaximumReferenceFrequency. lia. }
  split; [exact E2|].
  rewrite <- E2 at 1. apply H5. apply in_range. lia.
Defined.

(** ** C10: termination *)

Lemma dbl_increases j f : (0 < f)%Q -> (dbl j f < dbl (S j) f)%Q.
Proof.
  intros Hf. rewrite !dbl_pow.
  rewrite Nat2Z.inj_succ, Z.pow_succ_r by lia.
  unfold Zq. rewrite inject_Z_mult. change (inject_Z 2) with 2%Q.
  assert (H : (0 < inject_Z (2 ^ Z.of_nat j))%Q).
  { change 0%Q with (inject_Z 0). rewrite <- Zlt_Qlt. apply Z.pow_pos_nonneg; lia. }
  nra.
Qed.

Lemma pf_main_total fuel ref rf :
  (7 <= fuel)%nat -> exists r, PF.main fuel ref rf = Some r.
Proof.
  intros Hfuel. unfold PF.main. cbv zeta.
  change (PF.DesiredFrequency (PF.init ref rf)) with rf.
  destruct (leb (Zq PF.MinimumReferenceFrequency) ref
            && leb ref (Zq PF.MaximumReferenceFrequency)); [|eauto].
  destruct (leb (Zq PF.MinimumRFFrequency) rf && leb rf (Zq PF.MaximumRFFrequency))
    eqn:Hrf; [|eauto].
  apply andb_true_iff in Hrf. destruct Hrf as [Hmin _]. apply leb_le in Hmin.
  unfold PF.search.
  destruct (pf_normalize_spec fuel (PF.init ref rf) Hfuel Hmin) as (j & _ & -> & _).
  eauto.
Qed.

Lemma spf_sweep_body_total fuel start i s :
  (11 <= fuel)%nat -> SPF.sweep_body fuel start i s <> None.
Proof.
  intros Hfuel. unfold SPF.sweep_body. cbv zeta.
  destruct (leb (Zq SPF.MinimumRFFrequency) _ && _) eqn:Hrf; [|discriminate].
  apply andb_true_iff in Hrf. destruct Hrf as [Hmin _]. apply leb_le in Hmin.
  destruct (spf_normalize_spec fuel _ Hfuel Hmin) as (j & _ & -> & _).
  split_ifs; discriminate.
Qed.

Lemma spf_main_total fuel rf start steps :
  (11 <= fuel)%nat -> exists r, SPF.main fuel rf start steps = Some r.
Proof.
  intros Hfuel. unfold SPF.main.
  destruct (SPF.sweep fuel rf start steps) as [s|] eqn:E; [eauto|].
  exfalso. revert E. unfold SPF.sweep. cbv zeta.
  apply for_in_opt_total. intros x s _. apply spf_sweep_body_total, Hfuel.
Qed.

(** C10: both scripts return on every request, in particular on every
    request whose target RF frequency is in range.  A pass of the doubling
    loop strictly increases a positive frequency, and from a frequency of
    at least [MinimumRFFrequency] the loop ends after at most 7 passes in
    MAX2870pf.py and at most 11 in MAX2870spf.py, whatever larger bound
    on the passes is given; every other loop is a [for] over a finite
    range ([for_in], structural on the list). *)
Theorem C10_termination :
  (forall fuel ref rf, (7 <= fuel)%nat -> exists r, PF.main fuel ref rf = Some r)
  /\ (forall fuel rf start steps,
        (11 <= fuel)%nat -> exists r, SPF.main fuel rf start steps = Some r)
  /\ (forall j f, (0 < f)%Q -> (dbl j f < dbl (S j) f)%Q)
  /\ (forall fuel s,
        (7 <= fuel)%nat ->
        (Zq PF.MinimumRFFrequency <= PF.DesiredFrequency s)%Q ->
        exists j s',
          (j <= 7)%nat /\ PF.normalize fuel s = Some s'
          /\ PF.DesiredFrequency s' = dbl j (PF.DesiredFrequency s)
          /\ PF.MatchingDivider_PowerOf2 s'
             = PF.MatchingDivider_PowerOf2 s + Z.of_nat j
          /\ (Zq PF.MaximumRFFrequency / 2 <= PF.DesiredFrequency s')%Q)
  /\ (forall fuel s,
        (11 <= fuel)%nat ->
        (Zq SPF.MinimumRFFrequency <= SPF.DesiredFrequency s)%Q ->
        exists j s',
          (j <= 11)%nat /\ SPF.normalize fuel s = Some s'
          /\ SPF.DesiredFrequency s' = dbl j (SPF.DesiredFrequency s)
          /\ SPF.MatchingDivider_PowerOf2 s'
             = SPF.MatchingDivider_PowerOf2 s + Z.of_nat j
          /\ (Zq SPF.MaximumRFFrequency / 2 <= SPF.DesiredFrequency s')%Q).
Proof.
  split; [exact pf_main_total|].
  split; [exact spf_main_total|].
  split; [exact dbl_increases|].
  split.
  - intros fuel s Hfuel Hmin.
    destruct (pf_normalize_spec fuel s Hfuel Hmin) as (j & Hj & Hrun & Hlo & _).
    exists j. eexists. split; [exact Hj|]. split; [exact Hrun|].
    pf_get. rewrite pf_half_max. auto.
  - intros fuel s Hfuel Hmin.
    destruct (spf_normalize_spec fuel s Hfuel Hmin) as (j & Hj & Hrun & Hlo & _).
    exists j. eexists. split; [exact Hj|]. split; [exact Hrun|].
    spf_get. rewrite spf_half_max. auto.
Qed.

(** C10 at the lowest accepted targets, which need the most passes. *)
Lemma C10_termination_witness :
  (exists r, PF.main 7 (Zq 10000000) (Zq 23475000) = Some r)
  /\ (exists r, SPF.main 11 (Zq 2347500) 10000000 0 = Some r)
  /\ (dbl 6 (Zq 23475000) < dbl 7 (Zq 23475000))%Q
  /\ (exists s', PF.normalize 7 (PF.init (Zq 10000000) (Zq 23475000)) = Some s'
                 /\ PF.MatchingDivider_PowerOf2 s' = 7)
  /\ (exists s', SPF.normalize 11 (SPF.init (Zq 2347500)) = Some s'
                 /\ SPF.MatchingDivider_PowerOf2 s' = 11).
Proof.
  destruct C10_termination as (H1 & H2 & H3 & H4 & H5).
  split; [apply H1, le_n|].
  split; [apply H2, le_n|].
  split; [apply H3; reflexivity|].
  split.
  - destruct (H4 7%nat (PF.init (Zq 10000000) (Zq 23475000)) (le_n 7))
      as (j & s' & _ & Hrun & _).
    + apply Qle_bool_iff. reflexivity.
    + exists s'. split; [exact Hrun|].
      vm_compute in Hrun. injection Hrun as <-. reflexivity.
  - destruct (H5 11%nat (SPF.init (Zq 2347500)) (le_n 11))
      as (j & s' & _ & Hrun & _).
    + apply Qle_bool_iff. reflexivity.
    + exists s'. split; [exact Hrun|].
      vm_compute in Hrun. injection Hrun as <-. reflexivity.
Defined.

(** ** C3: where the sweep tries integer mode (amended) *)

(** C3 (amended): the sweep takes the references [start + 0], [start + 1],
    ... in ascending order.  The integer-mode search is attempted only in
    a step that is entered with [IntegerMode] set; there it runs on the
    normalised state before any fractional-mode search, and an exact
    match ends the whole sweep at that reference.  [IntegerMode] is set
    when the sweep begins and is cleared by the first fractional-mode
    search, so that every step after one that did not end the sweep is
    entered with [IntegerMode] cleared and runs the fractional-mode search
    only: integer mode is attempted for the first reference alone, and an
    integer-mode result of the sweep is the one of that reference. *)
Theorem C3_integer_mode_first_reference :
  (forall rf, SPF.IntegerMode (SPF.init rf) = true)
  /\ (forall fuel start i s s_n,
        SPF.IntegerMode s = true ->
        spf_rf_ok s = true ->
        SPF.normalize fuel (spf_prep start i s) = Some s_n ->
        let s_i := SPF.integer_search s_n in
        (SPF.FractionalMode s_i = false ->
         SPF.sweep_body fuel start i s = Some (s_i, Break))
        /\ (SPF.FractionalMode s_i = true ->
            SPF.sweep_body fuel start i s
            = Some (SPF.fractional_search s_i, spf_flow (SPF.fractional_search s_i))))
  /\ (forall fuel start i s s_n,
        SPF.IntegerMode s = false ->
        spf_rf_ok s = true ->
        SPF.normalize fuel (spf_prep start i s) = Some s_n ->
        SPF.sweep_body fuel start i s
        = Some (SPF.fractional_search s_n, spf_flow (SPF.fractional_search s_n)))
  /\ (forall fuel start i s s',
        SPF.sweep_body fuel start i s = Some (s', Next) ->
        SPF.IntegerMode s' = false /\ SPF.FractionalMode s' = true)
  /\ (forall fuel start i s s' f,
        SPF.IntegerMode s = false ->
        SPF.sweep_body fuel start i s = Some (s', f) ->
        SPF.IntegerMode s' = false /\ SPF.FractionalMode s' = true)
  /\ (forall fuel rf start steps s,
        SPF.sweep fuel rf start steps = Some s ->
        SPF.MatchAttempted s = true ->
        SPF.FractionalMode s = false ->
        let start' := SPF.clamp_start start (SPF.clamp_steps steps) in
        SPF.FinalReferenceFrequency s = start'
        /\ exists s_n,
             SPF.normalize fuel (spf_prep start' 0 (SPF.init rf)) = Some s_n
             /\ s = SPF.integer_search s_n).
Proof.
  split; [reflexivity|].
  assert (Hcase : forall fuel start i s s_n,
            spf_rf_ok s = true ->
            SPF.normalize fuel (spf_prep start i s) = Some s_n ->
            exists r, SPF.sweep_body fuel start i s = Some r).
  { intros fuel start i s s_n Hok En. unfold SPF.sweep_body. cbv zeta.
    fold (spf_prep start i s).
    change (leb (Zq SPF.MinimumRFFrequency) (SPF.DesiredFrequency (spf_prep start i s))
            && leb (SPF.DesiredFrequency (spf_prep start i s))
                 (Zq SPF.MaximumRFFrequency))
      with (spf_rf_ok s).
    rewrite Hok, En. split_ifs; eauto. }
  split; [|split; [|split; [|split]]].
  - intros fuel start i s s_n Him Hok En. cbv zeta.
    destruct (Hcase _ _ _ _ _ Hok En) as (r & Hr). rewrite Hr.
    apply spf_sweep_body_cases in Hr.
    destruct Hr as [[E _] | (s_n' & _ & En' & Hr)]; [congruence|].
    assert (s_n' = s_n) by congruence. subst s_n'.
    destruct Hr as [(_ & Ef & ->) | [(_ & Ef & ->) | (E & _)]]; [| |congruence].
    + split; [reflexivity | congruence].
    + split; [congruence | reflexivity].
  - intros fuel start i s s_n Him Hok En.
    destruct (Hcase _ _ _ _ _ Hok En) as (r & Hr). rewrite Hr.
    apply spf_sweep_body_cases in Hr.
    destruct Hr as [[E _] | (s_n' & _ & En' & Hr)]; [congruence|].
    assert (s_n' = s_n) by congruence. subst s_n'.
    destruct Hr as [(E & _) | [(E & _) | (_ & ->)]]; [congruence | congruence|].
    reflexivity.
  - intros fuel start i s s' H. eapply spf_sweep_body_next; eauto.
  - intros fuel start i s s' f Him H. eapply spf_sweep_body_fractional; eauto.
  - intros fuel rf start steps s Hrun Hma Hfm. cbv zeta.
    destruct (spf_sweep_integer_result _ _ _ _ _ Hrun Hma Hfm) as (s_n & En & ->).
    split; [|exists s_n; split; [exact En | reflexivity]].
    pose proof (spf_normalize_some _ _ _ En) as (j & Esn).
    destruct (spf_integer_search_spec s_n) as [[E | E] | (R & _ & _ & _ & E)];
      cbv zeta in E; rewrite E in Hfm |- *.
    + rewrite Esn in Hfm. discriminate.
    + rewrite Esn in Hfm. discriminate.
    + unfold spf_matched. spf_get. rewrite Esn. unfold spf_prep. spf_get. lia.
Qed.

(** C3 (amended) at [--rf 3600000000 --refstart 120000000 --steps 5]: the
    integer search matches at the first reference (R = 2, N = 60) and the
    sweep ends there. *)
Lemma C3_integer_mode_first_reference_witness :
  exists s,
    SPF.sweep 11 (Zq 3600000000) 120000000 5 = Some s
    /\ SPF.FinalReferenceFrequency s = 120000000
    /\ SPF.MatchingR s = 2.
Proof.
  destruct (SPF.sweep 11 (Zq 3600000000) 120000000 5) as [s|] eqn:E.
  2:{ vm_compute in E. discriminate. }
  exists s. split; [reflexivity|].
  pose proof E as E'. vm_compute in E'. injection E' as <-.
  destruct C3_integer_mode_first_reference as (_ & _ & _ & _ & _ & H).
  destruct (H _ _ _ _ _ E eq_refl eq_refl) as (Hf & _).
  split; [exact Hf | reflexivity].
Defined.

(** ** A sweep step at a reference without exact solution *)

Lemma spf_normalize_high fuel s :
  (3000000000 <= SPF.DesiredFrequency s)%Q ->
  SPF.normalize fuel s
  = Some (SPF.set_MatchingDivider (2 ^ SPF.MatchingDivider_PowerOf2 s) s).
Proof.
  intros H. unfold SPF.normalize.
  assert (E : ltb (SPF.DesiredFrequency s) (Zq SPF.MaximumRFFrequency / 2) = false).
  { apply ltb_ge. rewrite spf_half_max. exact H. }
  destruct fuel; cbn [SPF.vco_loop]; rewrite E; reflexivity.
Qed.

Lemma spf_exact_at_inexact (r v R : Z) s :
  SPF.ReferenceFrequencyToMatch s = r ->
  (SPF.DesiredFrequency s == Zq v)%Q ->
  Z.gcd r v = 1 -> R < r ->
  spf_exact_at s R = false.
Proof.
  intros Hr Hv Hg Hlt. apply not_true_iff_false. intros H.
  apply spf_exact_at_facts in H. destruct H as (HR & Hlo & _ & Hex & n & Hn & _).
  rewrite Hr in *. rewrite Hn, Hv in Hex.
  pose proof (Zq_pos R HR) as HRq.
  assert (E : (Zq (v * R) == Zq (r * n))%Q).
  { unfold Zq in *. rewrite !inject_Z_mult. rewrite <- Hex. field. lra. }
  unfold Zq in E. apply (proj1 (inject_Z_injective _ _)) in E.
  apply (coprime_no_multiple r v R Hg); [lia|].
  exists n. rewrite E. ring.
Qed.

(** At a reference [r] coprime to the integer VCO frequency and larger
    than [MaximumR * MaximumMod], a step of the sweep finds no exact
    solution of either kind: it does not end the sweep, leaves a positive
    best error, and leaves [IntegerMode] cleared. *)
Lemma spf_step_inexact fuel start i s (v : Z) :
  (3000000000 <= SPF.DesiredFrequency s)%Q ->
  (SPF.DesiredFrequency s <= 6000000000)%Q ->
  (SPF.DesiredFrequency s == Zq v)%Q ->
  Z.gcd (start + i) v = 1 ->
  SPF.MaximumR * SPF.MaximumMod < start + i ->
  (0 < SPF.FrequencyError s)%Q ->
  exists s',
    SPF.sweep_body fuel start i s = Some (s', Next)
    /\ SPF.IntegerMode s' = false
    /\ (0 < SPF.FrequencyError s')%Q
    /\ SPF.DesiredFrequency s' = SPF.DesiredFrequency s
    /\ SPF.MatchingDivider_PowerOf2 s' = SPF.MatchingDivider_PowerOf2 s.
Proof.
  intros Hlo Hhi Hv Hg Hbig Hpos.
  set (s_n := SPF.set_MatchingDivider (2 ^ SPF.MatchingDivider_PowerOf2 s)
                (spf_prep start i s)).
  assert (En : SPF.normalize fuel (spf_prep start i s) = Some s_n)
    by (apply spf_normalize_high; exact Hlo).
  assert (Hok : spf_rf_ok s = true).
  { unfold spf_rf_ok. apply andb_true_iff. rewrite !leb_le.
    assert (Zq SPF.MinimumRFFrequency == 2347500)%Q by reflexivity.
    assert (Zq SPF.MaximumRFFrequency == 6000000000)%Q by reflexivity.
    split; lra. }
  (* the state on which the fractional search runs *)
  assert (Hfrac : forall t,
            SPF.ReferenceFrequencyToMatch t = start + i ->
            SPF.DesiredFrequency t = SPF.DesiredFrequency s ->
            SPF.MatchingDivider_PowerOf2 t = SPF.MatchingDivider_PowerOf2 s ->
            SPF.FrequencyError t = SPF.FrequencyError s ->
            SPF.IntegerMode (SPF.fractional_search t) = false
            /\ (0 < SPF.FrequencyError (SPF.fractional_search t))%Q
            /\ SPF.DesiredFrequency (SPF.fractional_search t) = SPF.DesiredFrequency s
            /\ SPF.MatchingDivider_PowerOf2 (SPF.fractional_search t)
               = SPF.MatchingDivider_PowerOf2 s
            /\ spf_flow (SPF.fractional_search t) = Next).
  { intros t Hr Hd Hp Hf.
    destruct (spf_fractional_search_inv t) as (H1 & _ & H3 & _ & H5 & _).
    cbv zeta in H1, H3, H5.
    assert (Hfe : (0 < SPF.FrequencyError (SPF.fractional_search t))%Q).
    { apply (spf_fractional_search_pos (start + i) v); try assumption.
      - rewrite Hd. exact Hv.
      - rewrite Hf. exact Hpos. }
    repeat split; try congruence.
    unfold spf_flow.
    assert (E : eqb (SPF.FrequencyError (SPF.fractional_search t)) 0 = false).
    { apply eqb_neq. intros E0. rewrite E0 in Hfe. lra. }
    rewrite E. reflexivity. }
  destruct (SPF.sweep_body fuel start i s) as [r|] eqn:Hb.
  2:{ exfalso. revert Hb. unfold SPF.sweep_body. cbv zeta. fold (spf_prep start i s).
      change (leb (Zq SPF.MinimumRFFrequency)
                (SPF.DesiredFrequency (spf_prep start i s))
              && leb (SPF.DesiredFrequency (spf_prep start i s))
                   (Zq SPF.MaximumRFFrequency)) with (spf_rf_ok s).
      rewrite Hok, En. split_ifs; discriminate. }
  apply spf_sweep_body_cases in Hb.
  destruct Hb as [[E _] | (s_n' & _ & En' & Hb)]; [congruence|].
  assert (s_n' = s_n) by congruence. subst s_n'.
  (* the integer search, when it runs, finds nothing *)
  assert (Hint : SPF.FractionalMode (SPF.integer_search s_n) = true
                 /\ SPF.ReferenceFrequencyToMatch (SPF.integer_search s_n) = start + i
                 /\ SPF.DesiredFrequency (SPF.integer_search s_n) = SPF.DesiredFrequency s
                 /\ SPF.MatchingDivider_PowerOf2 (SPF.integer_search s_n)
                    = SPF.MatchingDivider_PowerOf2 s
                 /\ SPF.FrequencyError (SPF.integer_search s_n) = SPF.FrequencyError s).
  { destruct (spf_integer_search_spec s_n) as [[E | E] | (R & HR & Hhit & _ & _)];
      try cbv zeta in E.
    - rewrite E. repeat split.
    - rewrite E. repeat split.
    - exfalso.
      rewrite (spf_exact_at_inexact (start + i) v R) in Hhit;
        [discriminate | reflexivity | exact Hv | exact Hg|].
      unfold SPF.MaximumR, SPF.MaximumMod in *. lia. }
  destruct Hint as (Hi1 & Hi2 & Hi3 & Hi4 & Hi5).
  destruct Hb as [(_ & Ef & _) | [(_ & _ & ->) | (_ & ->)]]; [congruence| |].
  - destruct (Hfrac _ Hi2 Hi3 Hi4 Hi5) as (F1 & F2 & F3 & F4 & F5).
    eexists. rewrite F5. split; [reflexivity|]. auto.
  - destruct (Hfrac s_n eq_refl eq_refl eq_refl eq_refl) as (F1 & F2 & F3 & F4 & F5).
    eexists. rewrite F5. split; [reflexivity|]. auto.
Qed.

(** ** A fractional search whose first candidate is exact *)

Lemma for_in_cons_next {S : Type} body x xs (s s' : S) :
  body x s = (s', Next) -> for_in body (x :: xs) s = for_in body xs s'.
Proof. intros H. cbn [for_in]. rewrite H. reflexivity. Qed.

Lemma for_in_cons_break {S : Type} body x xs (s s' : S) :
  body x s = (s', Break) -> for_in body (x :: xs) s = s'.
Proof. intros H. cbn [for_in]. rewrite H. reflexivity. Qed.

(** [range n] begins with 0, 1, 2 when [n] is at least 3. *)
Lemma range_from_3 n :
  3 <= n -> exists rest, range n = 0 :: 1 :: 2 :: rest.
Proof.
  intros Hn.
  replace n with (n - 1 + 1) by lia. rewrite range_succ by lia.
  replace (n - 1) with (n - 2 + 1) by lia. rewrite range_succ by lia.
  replace (n - 2) with (n - 3 + 1) by lia. rewrite range_succ by lia.
  cbn [map]. eexists. reflexivity.
Qed.

Lemma spf_mod_body_below_2 R N rem m s :
  m < 2 -> SPF.mod_body R N rem m s = (s, Next).
Proof.
  intros Hm. unfold SPF.mod_body.
  replace (2 <=? m) with false by (symmetry; apply Z.leb_gt; exact Hm).
  reflexivity.
Qed.

(** When the candidate at MOD 2 leaves a best error of zero, the MOD loop
    ends there. *)
Lemma spf_mod_loop_exact_at_2 R N rem s :
  eqb (SPF.FrequencyError (spf_cand R N rem 2 s)) 0 = true ->
  for_in (SPF.mod_body R N rem) (range (SPF.MaximumMod + 1)) s
  = spf_cand R N rem 2 s.
Proof.
  intros Hex.
  destruct (range_from_3 (SPF.MaximumMod + 1)) as (rest & ->);
    [unfold SPF.MaximumMod; lia|].
  rewrite (for_in_cons_next _ 0 _ s s) by (apply spf_mod_body_below_2; lia).
  rewrite (for_in_cons_next _ 1 _ s s) by (apply spf_mod_body_below_2; lia).
  apply for_in_cons_break.
  rewrite spf_mod_body_eq by reflexivity. rewrite Hex. reflexivity.
Qed.

(** A candidate of zero error is recorded when the best error so far is
    positive. *)
Lemma spf_cand_exact R N rem m s :
  (cand_err (Zq (SPF.ReferenceFrequencyToMatch s) / Zq R) rem m == 0)%Q ->
  (0 < SPF.FrequencyError s)%Q ->
  spf_cand R N rem m s
  = SPF.set_MatchingFrac (cand_frac (Zq (SPF.ReferenceFrequencyToMatch s) / Zq R) rem m)
      (SPF.set_MatchingMod m
         (SPF.set_MatchingInt (Zq N)
            (SPF.set_MatchingR R
               (SPF.set_FrequencyError
                  (cand_err (Zq (SPF.ReferenceFrequencyToMatch s) / Zq R) rem m)
                  (SPF.set_FinalReferenceFrequency (SPF.ReferenceFrequencyToMatch s)
                     (SPF.set_NegativeFrequencyError false s)))))).
Proof.
  intros Hex Hpos. unfold spf_cand, cand_abs. cbv zeta.
  assert (E1 : ltb (cand_err (Zq (SPF.ReferenceFrequencyToMatch s) / Zq R) rem m) 0
               = false) by (apply ltb_ge; lra).
  rewrite E1.
  assert (E2 : ltb (cand_err (Zq (SPF.ReferenceFrequencyToMatch s) / Zq R) rem m)
                 (SPF.FrequencyError s) = true) by (apply ltb_lt; lra).
  rewrite E2. reflexivity.
Qed.

Lemma spf_frac_body_0 s : SPF.frac_body 0 s = (s, Next).
Proof. reflexivity. Qed.

(** The R loop of the fractional search ends at the first R whose MOD 2
    candidate is exact, when R = 1 is such. *)
Lemma spf_frac_body_exact_at_2 R s :
  let pfd := (Zq (SPF.ReferenceFrequencyToMatch s) / Zq R)%Q in
  let N := floor (SPF.DesiredFrequency s / pfd) in
  let rem := (SPF.DesiredFrequency s - Zq N * pfd)%Q in
  SPF.pfd_ok R s = true ->
  (SPF.MinimumInt s <=? N) && (N <=? SPF.MaximumInt s) = true ->
  (cand_err pfd rem 2 == 0)%Q ->
  (0 < SPF.FrequencyError s)%Q ->
  SPF.frac_body R s
  = (SPF.set_MatchingFrac (cand_frac pfd rem 2)
       (SPF.set_MatchingMod 2
          (SPF.set_MatchingInt (Zq N)
             (SPF.set_MatchingR R
                (SPF.set_FrequencyError (cand_err pfd rem 2)
                   (SPF.set_FinalReferenceFrequency (SPF.ReferenceFrequencyToMatch s)
                      (SPF.set_NegativeFrequencyError false
                         (SPF.set_MatchAttempted true s))))))), Break).
Proof.
  cbv zeta. intros Hp HN Hex Hpos. unfold SPF.frac_body. cbv zeta.
  rewrite Hp, HN.
  change (SPF.DesiredFrequency (SPF.set_MatchAttempted true s))
    with (SPF.DesiredFrequency s).
  change (SPF.ReferenceFrequencyToMatch (SPF.set_MatchAttempted true s))
    with (SPF.ReferenceFrequencyToMatch s).
  set (N := floor (SPF.DesiredFrequency s
                   / (Zq (SPF.ReferenceFrequencyToMatch s) / Zq R))) in *.
  set (rem := (SPF.DesiredFrequency s
               - Zq N * (Zq (SPF.ReferenceFrequencyToMatch s) / Zq R))%Q) in *.
  pose proof (spf_cand_exact R N rem 2 (SPF.set_MatchAttempted true s) Hex Hpos) as Ec.
  change (SPF.ReferenceFrequencyToMatch (SPF.set_MatchAttempted true s))
    with (SPF.ReferenceFrequencyToMatch s) in Ec.
  assert (E0 : eqb (SPF.FrequencyError
                      (spf_cand R N rem 2 (SPF.set_MatchAttempted true s))) 0 = true).
  { rewrite Ec. apply eqb_eq. exact Hex. }
  rewrite spf_mod_loop_exact_at_2 by exact E0.
  rewrite E0, Ec. reflexivity.
Qed.
(** ** C3 as stated fails: a sweep over two references *)

(** The second step of [--rf 5990000599 --refstart 10000000 --steps 1],
    from any state that the first step can leave. *)
Lemma c3_second_step fuel s :
  SPF.DesiredFrequency s = Zq 5990000599 ->
  SPF.MatchingDivider_PowerOf2 s = 0 ->
  SPF.IntegerMode s = false ->
  (0 < SPF.FrequencyError s)%Q ->
  exists s1,
    SPF.sweep_body fuel 10000000 1 s = Some (s1, Break)
    /\ SPF.FractionalMode s1 = true
    /\ SPF.MatchAttempted s1 = true
    /\ SPF.NegativeFrequencyError s1 = false
    /\ (SPF.FrequencyError s1 == 0)%Q
    /\ SPF.FinalReferenceFrequency s1 = 10000001
    /\ SPF.MatchingR s1 = 1
    /\ SPF.MatchingInt s1 = Zq 599
    /\ SPF.MatchingMod s1 = 2
    /\ SPF.MatchingFrac s1 = 0
    /\ SPF.MatchingDivider s1 = 1
    /\ SPF.MatchingDivider_PowerOf2 s1 = 0.
Proof.
  intros Hd Hp Hi Hpos.
  destruct s as [D mi ma mp neg att im fe rtm frf mr mint mm mf md mdp fm].
  cbn [SPF.DesiredFrequency SPF.MatchingDivider_PowerOf2 SPF.IntegerMode
       SPF.FrequencyError] in Hd, Hp, Hi, Hpos.
  subst D mdp im.
  unfold SPF.sweep_body. cbv zeta.
  match goal with
  | |- context [SPF.normalize fuel ?t] =>
      rewrite (spf_normalize_high fuel t) by (apply Qle_bool_iff; reflexivity)
  end.
  spf_get.
  change (leb (Zq SPF.MinimumRFFrequency) (Zq 5990000599)
          && leb (Zq 5990000599) (Zq SPF.MaximumRFFrequency)) with true.
  cbv iota.
  unfold SPF.search_step. cbv zeta. spf_get. cbv iota. cbn [andb]. cbv iota.
  unfold SPF.fractional_search. cbv zeta.
  destruct (range_from_3 (SPF.MaximumR + 1)) as (rest & ->);
    [unfold SPF.MaximumR; lia|].
  rewrite (for_in_cons_next _ 0 _ _ _ (spf_frac_body_0 _)).
  erewrite for_in_cons_break.
  2:{ apply spf_frac_body_exact_at_2; cbv zeta.
      - reflexivity.
      - reflexivity.
      - reflexivity.
      - exact Hpos. }
  spf_get.
  match goal with
  | |- context [if eqb ?x 0 then _ else _] => change (eqb x 0) with true
  end.
  cbv iota. eexists. split; [reflexivity|]. spf_get.
  repeat split; reflexivity.
Qed.
(** C3 as stated fails at [--rf 5990000599 --refstart 10000000 --steps 1].
    The second reference, 10000001 Hz, has the exact integer-mode solution
    R = 1, N = 599: a sweep that begins there reports it.  In the sweep
    that begins at 10000000 Hz, which has no exact solution, the step at
    10000001 Hz runs the fractional-mode search only, and the result is
    reported as a fractional-mode one. *)
Lemma C3_counterexample :
  (exists s N,
     SPF.main 11 (Zq 5990000599) 10000001 0
     = Some (s, SPF.IntegerReport 1 N 2 0 1 0 10000001)
     /\ (N == 599)%Q)
  /\ (exists s0 s1,
        SPF.sweep_body 11 10000000 0 (SPF.init (Zq 5990000599)) = Some (s0, Next)
        /\ SPF.IntegerMode s0 = false
        /\ SPF.sweep_body 11 10000000 1 s0 = Some (s1, Break)
        /\ SPF.FractionalMode s1 = true
        /\ exists e a,
             SPF.main 11 (Zq 5990000599) 10000000 1
             = Some (SPF.set_DesiredFrequency
                       (SPF.DesiredFrequency s1 / Zq (SPF.MatchingDivider s1)) s1,
                     SPF.FractionalReport e a 1 (Zq 599) 2 0 1 0 10000001)
             /\ (e == 0)%Q).
Proof.
  split.
  { eexists. eexists. split; [vm_compute; reflexivity | reflexivity]. }
  destruct (spf_step_inexact 11 10000000 0 (SPF.init (Zq 5990000599)) 5990000599)
    as (s0 & H0 & Hi0 & Hpos0 & Hd0 & Hp0).
  { apply Qle_bool_iff. reflexivity. }
  { apply Qle_bool_iff. reflexivity. }
  { reflexivity. }
  { reflexivity. }
  { reflexivity. }
  { reflexivity. }
  destruct (c3_second_step 11 s0 Hd0 Hp0 Hi0 Hpos0)
    as (s1 & H1 & Hfm & Hma & Hneg & Hfe & Hfr & HR & HN & HM & HF & HD & HP).
  exists s0, s1.
  split; [exact H0|]. split; [exact Hi0|]. split; [exact H1|]. split; [exact Hfm|].
  unfold SPF.main, SPF.sweep.
  change (SPF.clamp_steps 1) with 1.
  change (SPF.clamp_start 10000000 1) with 10000000.
  change (range (1 + 1)) with [0; 1].
  cbn [for_in_opt]. rewrite H0, H1.
  unfold SPF.report. rewrite Hma. cbv zeta.
  change (SPF.FractionalMode (SPF.set_DesiredFrequency ?[x] s1))
    with (SPF.FractionalMode s1).
  change (SPF.NegativeFrequencyError (SPF.set_DesiredFrequency ?[y] s1))
    with (SPF.NegativeFrequencyError s1).
  rewrite Hfm, Hneg. spf_get.
  rewrite HR, HN, HM, HF, HD, HP, Hfr.
  eexists. eexists. split; [reflexivity | exact Hfe].
Qed.
(** ** A fractional-mode search of MAX2870pf.py without exact candidate

    When the reference [r] and the VCO frequency [v] are coprime integers
    and [MaximumR * MaximumMod < r], no candidate of the fractional-mode
    search has error zero, so that no loop ends early on an exact hit.  The
    state after a MOD loop is then the one left by its last three
    candidates. *)

Lemma range_snoc n : 0 <= n -> range (n + 1) = range n ++ [n].
Proof.
  intros Hn. unfold range. rewrite Z2Nat.inj_add by lia.
  change (Z.to_nat 1) with 1%nat. rewrite seq_app, map_app.
  cbn [seq map Nat.add]. rewrite Z2Nat.id by lia. reflexivity.
Qed.

Lemma pf_mod_body_below_2 ref R N rem m s :
  m < 2 -> PF.mod_body ref R N rem m s = (s, Next).
Proof.
  intros Hm. unfold PF.mod_body.
  replace (2 <=? m) with false by (symmetry; apply Z.leb_gt; exact Hm).
  reflexivity.
Qed.

Lemma pf_mod_body_next ref R N rem m s :
  2 <= m -> ~ (cand_err (ref / Zq R) rem m == 0)%Q ->
  PF.mod_body ref R N rem m s = (pf_cand ref R N rem m s, Next).
Proof.
  intros Hm Hne. rewrite pf_mod_body_eq by (apply Z.leb_le; exact Hm).
  replace (eqb (cand_abs (ref / Zq R) rem m) 0) with false; [reflexivity|].
  symmetry. apply eqb_neq. rewrite cand_abs_zero. exact Hne.
Qed.

Lemma pf_mod_loop_inexact ref R N rem s :
  (forall m, 2 <= m <= PF.MaximumMod -> ~ (cand_err (ref / Zq R) rem m == 0)%Q) ->
  for_in (PF.mod_body ref R N rem) (range (PF.MaximumMod + 1)) s
  = pf_cand ref R N rem 4095
      (pf_cand ref R N rem 4094
         (pf_cand ref R N rem 4093
            (for_in (PF.mod_body ref R N rem) (range 4093) s))).
Proof.
  unfold PF.MaximumMod. intros Hne.
  assert (E : range (4095 + 1) = range 4093 ++ [4093; 4094; 4095]).
  { rewrite (range_snoc 4095) by lia.
    replace (range 4095) with (range 4094 ++ [4094])
      by (symmetry; exact (range_snoc 4094 ltac:(lia))).
    replace (range 4094) with (range 4093 ++ [4093])
      by (symmetry; exact (range_snoc 4093 ltac:(lia))).
    rewrite <- !app_assoc. reflexivity. }
  rewrite E. clear E.
  rewrite for_in_app.
  2:{ intros x t Hx. apply in_range in Hx.
      destruct (Z_lt_le_dec x 2) as [Hlt | Hge].
      - rewrite pf_mod_body_below_2 by exact Hlt. reflexivity.
      - rewrite pf_mod_body_next; [reflexivity | exact Hge | apply Hne; lia]. }
  rewrite (for_in_cons_next _ 4093 _ _ (pf_cand ref R N rem 4093 _))
    by (apply pf_mod_body_next; [lia | apply Hne; lia]).
  rewrite (for_in_cons_next _ 4094 _ _ (pf_cand ref R N rem 4094 _))
    by (apply pf_mod_body_next; [lia | apply Hne; lia]).
  rewrite (for_in_cons_next _ 4095 _ _ (pf_cand ref R N rem 4095 _))
    by (apply pf_mod_body_next; [lia | apply Hne; lia]).
  reflexivity.
Qed.
Lemma pf_mod_loop_attempted ref R N rem xs s :
  PF.MatchAttempted s = true ->
  PF.MatchAttempted (for_in (PF.mod_body ref R N rem) xs s) = true.
Proof.
  intros H. apply (for_in_inv (fun t => PF.MatchAttempted t = true)); [|exact H].
  intros x t _ Ht.
  destruct (pf_mod_body_kept ref R N rem x t) as (_ & _ & _ & _ & _ & _ & _ & Hk).
  apply Hk. exact Ht.
Qed.

Lemma pf_cand_recorded ref R N rem m s :
  ltb (cand_abs (ref / Zq R) rem m) (PF.FrequencyError s) = true ->
  pf_cand ref R N rem m s
  = PF.set_MatchingFrac (cand_frac (ref / Zq R) rem m)
      (PF.set_MatchingMod m
         (PF.set_MatchingInt (Zq N)
            (PF.set_MatchingR R
               (PF.set_NegativeFrequencyError (ltb (cand_err (ref / Zq R) rem m) 0)
                  (PF.set_FrequencyError (cand_abs (ref / Zq R) rem m) s))))).
Proof. intros H. unfold pf_cand. cbv zeta. rewrite H. reflexivity. Qed.

Lemma pf_cand_skipped ref R N rem m s :
  ltb (cand_abs (ref / Zq R) rem m) (PF.FrequencyError s) = false ->
  pf_cand ref R N rem m s
  = PF.set_NegativeFrequencyError (ltb (cand_err (ref / Zq R) rem m) 0)
      (PF.set_FrequencyError (cand_abs (ref / Zq R) rem m) s).
Proof. intros H. unfold pf_cand. cbv zeta. rewrite H. reflexivity. Qed.

(** A [for] loop over [xs ++ ys] whose body does not [break] on [xs] from
    the states of an invariant. *)
Lemma for_in_app_inv {S : Type} (P : S -> Prop) body (xs ys : list Z) :
  (forall x t, In x xs -> P t -> snd (body x t) = Next /\ P (fst (body x t))) ->
  forall s, P s ->
    for_in body (xs ++ ys) s = for_in body ys (for_in body xs s)
    /\ P (for_in body xs s).
Proof.
  induction xs as [|x xs IH]; intros Hn s Hs; cbn [app for_in]; [split; auto|].
  destruct (Hn x s (or_introl eq_refl) Hs) as (H1 & H2).
  destruct (body x s) as [s' f]. cbn [snd fst] in H1, H2. subst f.
  apply IH; [|exact H2]. intros y t Hy. apply Hn. now right.
Qed.

Lemma range_split2 a n :
  0 <= a -> a + 2 <= n ->
  exists rest, range n = range a ++ a :: (a + 1) :: rest.
Proof.
  intros Ha Hn. unfold range.
  replace (Z.to_nat n)
    with (Z.to_nat a + S (S (Z.to_nat (n - a - 2))))%nat by lia.
  rewrite seq_app, map_app. cbn [seq map Nat.add].
  rewrite Z2Nat.id by lia.
  replace (Z.of_nat (S (Z.to_nat a))) with (a + 1) by lia.
  eexists. reflexivity.
Qed.

Section PfInexact.

Variables r v : Z.
Hypothesis Hgcd : Z.gcd r v = 1.
Hypothesis Hbig : PF.MaximumR * PF.MaximumMod < r.

Lemma pf_pfd_ok_limits R s :
  PF.MaximumPFDFrequency s = 50000000 ->
  PF.pfd_ok (Zq r) R s = pf_pfd_in r R.
Proof. intros H. unfold PF.pfd_ok, pf_pfd_in. rewrite H. reflexivity. Qed.

(** One pass of the R loop at a feasible [R]: the MOD loop runs to its end
    and the R loop goes on. *)
Lemma pf_frac_body_inexact R s :
  PF.DesiredFrequency s = Zq v ->
  PF.MinimumInt s = 19 -> PF.MaximumInt s = 4091 ->
  PF.MaximumPFDFrequency s = 50000000 ->
  R <= PF.MaximumR ->
  pf_frac_feasible r v R = true ->
  let N := pf_frac_N r v R in
  let rem := (Zq v - Zq N * (Zq r / Zq R))%Q in
  exists s3,
    PF.frac_body (Zq r) R s
    = (pf_cand (Zq r) R N rem 4095
         (pf_cand (Zq r) R N rem 4094 (pf_cand (Zq r) R N rem 4093 s3)), Next)
    /\ PF.MatchAttempted s3 = true.
Proof.
  intros HD Hmin Hmax Hpfd HR Hf. cbv zeta.
  unfold pf_frac_feasible in Hf. apply andb_true_iff in Hf. destruct Hf as (Hp & HN).
  assert (HR0 : 0 < R).
  { unfold pf_pfd_in in Hp. rewrite !andb_true_iff in Hp.
    destruct Hp as ((Hp & _) & _). apply Z.ltb_lt in Hp. exact Hp. }
  unfold PF.frac_body. cbv zeta.
  rewrite (pf_pfd_ok_limits R s Hpfd), Hp, HD, Hmin, Hmax.
  fold (pf_frac_N r v R). rewrite HN.
  change (PF.DesiredFrequency (PF.set_MatchAttempted true s))
    with (PF.DesiredFrequency s). rewrite HD.
  set (N := pf_frac_N r v R). set (rem := (Zq v - Zq N * (Zq r / Zq R))%Q).
  assert (Hne : forall m, 2 <= m <= PF.MaximumMod ->
                  ~ (cand_err (Zq r / Zq R) rem m == 0)%Q).
  { intros m Hm. unfold cand_err, rem.
    apply (candidate_inexact r v R m N _ (Zq v)); try assumption; try lia.
    - reflexivity.
    - unfold PF.MaximumR, PF.MaximumMod in *. nia. }
  rewrite (pf_mod_loop_inexact (Zq r) R N rem _ Hne).
  eexists. split.
  - destruct (pf_cand_error (Zq r) R N rem 4095
                (pf_cand (Zq r) R N rem 4094
                   (pf_cand (Zq r) R N rem 4093
                      (for_in (PF.mod_body (Zq r) R N rem) (range 4093)
                         (PF.set_MatchAttempted true s))))) as (E & _).
    rewrite E.
    replace (eqb (cand_abs (Zq r / Zq R) rem 4095) 0) with false; [reflexivity|].
    symmetry. apply eqb_neq. rewrite cand_abs_zero. apply Hne.
    unfold PF.MaximumMod. lia.
  - apply pf_mod_loop_attempted. reflexivity.
Qed.

(** The same pass keeps what the fractional search never assigns. *)
Lemma pf_frac_body_feasible_next R s0 s :
  PF.DesiredFrequency s0 = Zq v ->
  PF.MinimumInt s0 = 19 -> PF.MaximumInt s0 = 4091 ->
  PF.MaximumPFDFrequency s0 = 50000000 ->
  pf_kept s0 s ->
  R <= PF.MaximumR ->
  pf_frac_feasible r v R = true ->
  snd (PF.frac_body (Zq r) R s) = Next
  /\ pf_kept s0 (fst (PF.frac_body (Zq r) R s)).
Proof.
  intros HD Hmin Hmax Hpfd Hk HR Hf.
  pose proof Hk as (k1 & _ & _ & _ & k5 & k6 & k7 & _).
  destruct (pf_frac_body_inexact R s) as (s3 & E & _); try congruence.
  split.
  - rewrite E. reflexivity.
  - eapply pf_kept_trans; [exact Hk|].
    destruct (pf_frac_body_inv (Zq r) R s) as (H & _). exact H.
Qed.

Lemma pf_frac_body_stops R s :
  PF.DesiredFrequency s = Zq v ->
  PF.MinimumInt s = 19 -> PF.MaximumInt s = 4091 ->
  PF.MaximumPFDFrequency s = 50000000 ->
  pf_frac_stops r v R = true ->
  PF.frac_body (Zq r) R s = (s, Break).
Proof.
  intros HD Hmin Hmax Hpfd Hs.
  unfold pf_frac_stops in Hs. apply andb_true_iff in Hs. destruct Hs as (HR & Hs).
  unfold PF.frac_body. cbv zeta.
  rewrite (pf_pfd_ok_limits R s Hpfd), HD, Hmin, Hmax, HR.
  fold (pf_frac_N r v R).
  destruct (pf_pfd_in r R); [|reflexivity].
  cbn [negb orb] in Hs. rewrite Hs.
  replace (pf_frac_N r v R <=? 4091) with false
    by (symmetry; apply Z.leb_gt; apply Z.ltb_lt; exact Hs).
  rewrite andb_false_r. reflexivity.
Qed.

(** The fractional search on such an input, when every R from 1 to [Rl]
    is feasible and the R loop is left at [Rl + 1]: the state is the one
    left by the last three candidates of [Rl]. *)
Lemma pf_fractional_search_last Rl t :
  PF.DesiredFrequency t = Zq v ->
  PF.FractionalMode t = true ->
  1 <= Rl < PF.MaximumR ->
  (forall R, 1 <= R <= Rl -> pf_frac_feasible r v R = true) ->
  pf_frac_stops r v (Rl + 1) = true ->
  let N := pf_frac_N r v Rl in
  let rem := (Zq v - Zq N * (Zq r / Zq Rl))%Q in
  exists s3,
    PF.fractional_search (Zq r) t
    = pf_cand (Zq r) Rl N rem 4095
        (pf_cand (Zq r) Rl N rem 4094 (pf_cand (Zq r) Rl N rem 4093 s3))
    /\ PF.MatchAttempted s3 = true.
Proof.
  intros HD Hfm HRl Hfeas Hstop. cbv zeta.
  unfold PF.fractional_search. rewrite Hfm. cbv zeta.
  fold (pf_frac_limits t). set (s0 := pf_frac_limits t).
  assert (HD0 : PF.DesiredFrequency s0 = Zq v) by exact HD.
  destruct (range_split2 Rl (PF.MaximumR + 1)) as (rest & ->); [lia | lia |].
  destruct (for_in_app_inv (pf_kept s0) (PF.frac_body (Zq r)) (range Rl)
              (Rl :: Rl + 1 :: rest)) with (s := s0) as (E & Hk).
  { intros x t' Hx Hk. apply in_range in Hx.
    destruct (Z.eq_dec x 0) as [-> | Hx0].
    - change (PF.frac_body (Zq r) 0 t') with (t', Next). split; [reflexivity | exact Hk].
    - apply (pf_frac_body_feasible_next x s0 t'); try reflexivity; try assumption.
      + lia.
      + apply Hfeas. lia. }
  { apply pf_kept_refl. }
  rewrite E. clear E.
  set (s := for_in (PF.frac_body (Zq r)) (range Rl) s0) in *.
  pose proof Hk as (k1 & _ & _ & _ & k5 & k6 & k7 & _).
  assert (Hmin0 : PF.MinimumInt s0 = 19) by reflexivity.
  assert (Hmax0 : PF.MaximumInt s0 = 4091) by reflexivity.
  assert (Hpfd0 : PF.MaximumPFDFrequency s0 = 50000000) by reflexivity.
  destruct (pf_frac_body_inexact Rl s) as (s3 & E & Hma);
    try congruence; [lia | apply Hfeas; lia |].
  cbv zeta in E.
  rewrite (for_in_cons_next _ _ _ _ _ E).
  exists s3. split; [|exact Hma].
  apply for_in_cons_break. apply pf_frac_body_stops; try assumption.
  - destruct (pf_frac_body_inv (Zq r) Rl s) as ((e1 & _) & _).
    rewrite E in e1. cbn [fst] in e1. congruence.
  - destruct (pf_frac_body_inv (Zq r) Rl s) as ((_ & _ & _ & _ & e5 & _) & _).
    rewrite E in e5. cbn [fst] in e5. congruence.
  - destruct (pf_frac_body_inv (Zq r) Rl s) as ((_ & _ & _ & _ & _ & e6 & _) & _).
    rewrite E in e6. cbn [fst] in e6. congruence.
  - destruct (pf_frac_body_inv (Zq r) Rl s) as ((_ & _ & _ & _ & _ & _ & e7 & _) & _).
    rewrite E in e7. cbn [fst] in e7. congruence.
Qed.

End PfInexact.
Lemma pf_normalize_high fuel s :
  (3000000000 <= PF.DesiredFrequency s)%Q ->
  PF.normalize fuel s
  = Some (PF.set_MatchingDivider (2 ^ PF.MatchingDivider_PowerOf2 s) s).
Proof.
  intros H. unfold PF.normalize.
  assert (E : ltb (PF.DesiredFrequency s) (Zq PF.MaximumRFFrequency / 2) = false).
  { apply ltb_ge. rewrite pf_half_max. exact H. }
  destruct fuel; cbn [PF.vco_loop]; rewrite E; reflexivity.
Qed.

(** The integer search finds nothing at a reference coprime to the VCO
    frequency and larger than [MaximumR]. *)
Lemma pf_integer_search_inexact (r v : Z) s :
  (PF.DesiredFrequency s == Zq v)%Q ->
  Z.gcd r v = 1 -> PF.MaximumR < r ->
  PF.integer_search (Zq r) s = s
  \/ PF.integer_search (Zq r) s = PF.set_MatchAttempted true s.
Proof.
  intros Hv Hg Hbig.
  destruct (pf_integer_search_spec (Zq r) s) as [H | (R & HR & Hhit & _)];
    [exact H | exfalso].
  apply pf_exact_at_facts in Hhit.
  destruct Hhit as (HR0 & _ & _ & Hex & n & Hn & _).
  rewrite Hn, Hv in Hex.
  pose proof (Zq_pos R HR0) as HRq.
  assert (E : (Zq (v * R) == Zq (r * n))%Q).
  { unfold Zq in *. rewrite !inject_Z_mult. rewrite <- Hex. field. lra. }
  unfold Zq in E. apply (proj1 (inject_Z_injective _ _)) in E.
  apply (coprime_no_multiple r v R Hg); [lia|].
  exists n. rewrite E. ring.
Qed.

(** What the script prints for a state in fractional mode (lines
    117-133). *)
Lemma pf_report_fractional_mode s :
  PF.MatchAttempted s = true -> PF.FractionalMode s = true ->
  let e := ((if PF.NegativeFrequencyError s
             then PF.FrequencyError s * Zq (-1) else PF.FrequencyError s)
            / Zq (PF.MatchingDivider s))%Q in
  snd (PF.report s)
  = PF.FractionalReport e
      (PF.DesiredFrequency s / Zq (PF.MatchingDivider s) + e)
      (PF.MatchingR s) (PF.MatchingInt s) (PF.MatchingMod s) (PF.MatchingFrac s)
      (PF.MatchingDivider s) (PF.MatchingDivider_PowerOf2 s).
Proof.
  destruct s as [D mi ma mp neg att fe mr mint mm mf md mdp fm].
  cbn [PF.MatchAttempted PF.FractionalMode]. intros -> ->.
  destruct neg; reflexivity.
Qed.

(** The whole script on an input without exact solution whose R loop ends
    after [Rl]: the printed state is the one left by the last three
    candidates of [Rl]. *)
Lemma pf_main_last fuel (r v Rl : Z) :
  Z.gcd r v = 1 ->
  PF.MaximumR * PF.MaximumMod < r ->
  leb (Zq PF.MinimumReferenceFrequency) (Zq r)
  && leb (Zq r) (Zq PF.MaximumReferenceFrequency) = true ->
  (3000000000 <= Zq v)%Q -> (Zq v <= 6000000000)%Q ->
  1 <= Rl < PF.MaximumR ->
  (forall R, 1 <= R <= Rl -> pf_frac_feasible r v R = true) ->
  pf_frac_stops r v (Rl + 1) = true ->
  let N := pf_frac_N r v Rl in
  let rem := (Zq v - Zq N * (Zq r / Zq Rl))%Q in
  exists s3,
    let X := pf_cand (Zq r) Rl N rem 4095
               (pf_cand (Zq r) Rl N rem 4094 (pf_cand (Zq r) Rl N rem 4093 s3)) in
    PF.main fuel (Zq r) (Zq v) = Some (PF.report X)
    /\ PF.MatchAttempted X = true
    /\ PF.FractionalMode X = true
    /\ PF.DesiredFrequency X = Zq v
    /\ PF.MatchingDivider X = 1
    /\ PF.MatchingDivider_PowerOf2 X = 0.
Proof.
  intros Hg Hbig Href Hlo Hhi HRl Hfeas Hstop. cbv zeta.
  unfold PF.main. cbv zeta. rewrite Href.
  change (PF.DesiredFrequency (PF.init (Zq r) (Zq v))) with (Zq v).
  assert (Hrf : leb (Zq PF.MinimumRFFrequency) (Zq v)
                && leb (Zq v) (Zq PF.MaximumRFFrequency) = true).
  { apply andb_true_iff. rewrite !leb_le.
    assert (Zq PF.MinimumRFFrequency == 23475000)%Q by reflexivity.
    assert (Zq PF.MaximumRFFrequency == 6000000000)%Q by reflexivity.
    split; lra. }
  rewrite Hrf. unfold PF.search.
  rewrite pf_normalize_high by exact Hlo.
  set (s1 := PF.set_MatchingDivider _ _).
  assert (Hs1 : forall t, t = s1 \/ t = PF.set_MatchAttempted true s1 ->
                  PF.DesiredFrequency t = Zq v /\ PF.FractionalMode t = true
                  /\ PF.MatchingDivider t = 1 /\ PF.MatchingDivider_PowerOf2 t = 0).
  { intros t [-> | ->]; repeat split. }
  assert (Hi : PF.integer_search (Zq r) s1 = s1
               \/ PF.integer_search (Zq r) s1 = PF.set_MatchAttempted true s1).
  { apply (pf_integer_search_inexact r v); [reflexivity | exact Hg|].
    unfold PF.MaximumR, PF.MaximumMod in *. lia. }
  destruct (Hs1 _ Hi) as (HD & Hfm & Hdiv & Hpw).
  destruct (pf_fractional_search_last r v Hg Hbig Rl
              (PF.integer_search (Zq r) s1) HD Hfm HRl Hfeas Hstop)
    as (s3 & E & Hma).
  cbv zeta in E.
  destruct (pf_fractional_search_inv (Zq r) (PF.integer_search (Zq r) s1))
    as (i1 & i2 & i3 & i4 & _).
  cbv zeta in i1, i2, i3, i4. rewrite E in i1, i2, i3, i4 |- *.
  exists s3. split; [reflexivity|].
  split.
  { destruct (pf_cand_kept (Zq r) Rl (pf_frac_N r v Rl)
                (Zq v - Zq (pf_frac_N r v Rl) * (Zq r / Zq Rl)) 4093 s3)
      as (_ & _ & _ & _ & _ & _ & _ & a).
    match type of a with _ -> PF.MatchAttempted ?Z = true =>
      destruct (pf_cand_kept (Zq r) Rl (pf_frac_N r v Rl)
                  (Zq v - Zq (pf_frac_N r v Rl) * (Zq r / Zq Rl)) 4094 Z)
        as (_ & _ & _ & _ & _ & _ & _ & b)
    end.
    match type of b with _ -> PF.MatchAttempted ?Y = true =>
      destruct (pf_cand_kept (Zq r) Rl (pf_frac_N r v Rl)
                  (Zq v - Zq (pf_frac_N r v Rl) * (Zq r / Zq Rl)) 4095 Y)
        as (_ & _ & _ & _ & _ & _ & _ & c)
    end.
    auto. }
  repeat split; congruence.
Qed.
(** ** C1: the error of the returned candidate in MAX2870pf.py *)

(** C1 fails in MAX2870pf.py at [--ref 10000000 --rf 5991250001].  The
    script reports fractional mode with R = 6, Int = 3594, Mod = 4095,
    Frac = 3071 and the frequency error 252457/2457 Hz (about 102.75 Hz),
    the error of the last candidate of the search.  The search examines
    R = 1, and its candidate at MOD = 8 there has the error 1 Hz. *)
Theorem C1_pf_returns_last_candidate :
  (exists s e a,
     PF.main 7 (Zq 10000000) (Zq 5991250001)
     = Some (s, PF.FractionalReport e a 6 (Zq 3594) 4095 3071 1 0)
     /\ (e == 252457 # 2457)%Q)
  /\ pf_frac_feasible 10000000 5991250001 1 = true
  /\ (cand_abs (Zq 10000000 / Zq 1)
        (Zq 5991250001
         - Zq (pf_frac_N 10000000 5991250001 1) * (Zq 10000000 / Zq 1)) 8 == 1)%Q.
Proof.
  split; [|split; [vm_compute; reflexivity | vm_compute; reflexivity]].
  destruct (pf_main_last 7 10000000 5991250001 6)
    as (s3 & Hmain & Hma & Hfm & HD & Hdiv & Hpw); try reflexivity.
  { apply Qle_bool_iff. reflexivity. }
  { apply Qle_bool_iff. reflexivity. }
  { unfold PF.MaximumR. lia. }
  { intros R HR.
    assert (H : R = 1 \/ R = 2 \/ R = 3 \/ R = 4 \/ R = 5 \/ R = 6) by lia.
    destruct H as [-> | [-> | [-> | [-> | [-> | ->]]]]]; vm_compute; reflexivity. }
  cbv zeta in Hmain, Hma, Hfm, HD, Hdiv, Hpw.
  change (pf_frac_N 10000000 5991250001 6) with 3594 in *.
  set (pfd := (Zq 10000000 / Zq 6)%Q) in *.
  set (rem := (Zq 5991250001 - Zq 3594 * pfd)%Q) in *.
  set (Y := pf_cand (Zq 10000000) 6 3594 rem 4094 _) in *.
  assert (EY : PF.FrequencyError Y = cand_abs pfd rem 4094)
    by apply pf_cand_error.
  assert (EX : ltb (cand_abs pfd rem 4095) (PF.FrequencyError Y) = true).
  { rewrite EY. vm_compute. reflexivity. }
  rewrite (pf_cand_recorded (Zq 10000000) 6 3594 rem 4095 Y EX)
    in Hmain, Hma, Hfm, HD, Hdiv, Hpw.
  fold pfd in Hmain, Hma, Hfm, HD, Hdiv, Hpw.
  set (X := PF.set_MatchingFrac _ _) in *.
  pose proof (pf_report_fractional_mode X Hma Hfm) as Hr. cbv zeta in Hr.
  rewrite Hdiv, Hpw, HD in Hr.
  change (PF.NegativeFrequencyError X) with (ltb (cand_err pfd rem 4095) 0) in Hr.
  change (PF.FrequencyError X) with (cand_abs pfd rem 4095) in Hr.
  change (PF.MatchingR X) with 6 in Hr.
  change (PF.MatchingInt X) with (Zq 3594) in Hr.
  change (PF.MatchingMod X) with 4095 in Hr.
  change (PF.MatchingFrac X) with (cand_frac pfd rem 4095) in Hr.
  replace (cand_frac pfd rem 4095) with 3071 in Hr by (vm_compute; reflexivity).
  replace (ltb (cand_err pfd rem 4095) 0) with false in Hr by (vm_compute; reflexivity).
  rewrite Hmain. destruct (PF.report X) as [sx p]. cbn [snd] in Hr. subst p.
  eexists. eexists. eexists. split; [reflexivity|].
  vm_compute. reflexivity.
Qed.

(** ** C2: the reported error and the reported tuple in MAX2870pf.py *)

(** C2 fails in MAX2870pf.py at [--ref 10000000 --rf 5992500001].  The
    script reports fractional mode with R = 6, Int = 3595, Mod = 4094,
    Frac = 2047, a tuple whose residual is +1 Hz, together with the
    frequency error -497543/2457 Hz (about -202.5 Hz), which is the error
    of the candidate at MOD = 4095 that came after it. *)
Theorem C2_pf_error_of_another_candidate :
  exists s e a,
    PF.main 7 (Zq 10000000) (Zq 5992500001)
    = Some (s, PF.FractionalReport e a 6 (Zq 3595) 4094 2047 1 0)
    /\ (e == - (497543 # 2457))%Q
    /\ (residual (Zq 5992500001) (Zq 10000000) 6 (Zq 3595) 4094 2047 == 1)%Q.
Proof.
  destruct (pf_main_last 7 10000000 5992500001 6)
    as (s3 & Hmain & Hma & Hfm & HD & Hdiv & Hpw); try reflexivity.
  { apply Qle_bool_iff. reflexivity. }
  { apply Qle_bool_iff. reflexivity. }
  { unfold PF.MaximumR. lia. }
  { intros R HR.
    assert (H : R = 1 \/ R = 2 \/ R = 3 \/ R = 4 \/ R = 5 \/ R = 6) by lia.
    destruct H as [-> | [-> | [-> | [-> | [-> | ->]]]]]; vm_compute; reflexivity. }
  cbv zeta in Hmain, Hma, Hfm, HD, Hdiv, Hpw.
  change (pf_frac_N 10000000 5992500001 6) with 3595 in *.
  set (pfd := (Zq 10000000 / Zq 6)%Q) in *.
  set (rem := (Zq 5992500001 - Zq 3595 * pfd)%Q) in *.
  set (Z3 := pf_cand (Zq 10000000) 6 3595 rem 4093 _) in *.
  assert (EZ : PF.FrequencyError Z3 = cand_abs pfd rem 4093)
    by apply pf_cand_error.
  assert (EY : ltb (cand_abs pfd rem 4094) (PF.FrequencyError Z3) = true).
  { rewrite EZ. vm_compute. reflexivity. }
  rewrite (pf_cand_recorded (Zq 10000000) 6 3595 rem 4094 Z3 EY)
    in Hmain, Hma, Hfm, HD, Hdiv, Hpw.
  fold pfd in Hmain, Hma, Hfm, HD, Hdiv, Hpw.
  set (Y := PF.set_MatchingFrac _ _) in *.
  assert (EX : ltb (cand_abs pfd rem 4095) (PF.FrequencyError Y) = false).
  { change (PF.FrequencyError Y) with (cand_abs pfd rem 4094).
    vm_compute. reflexivity. }
  rewrite (pf_cand_skipped (Zq 10000000) 6 3595 rem 4095 Y EX)
    in Hmain, Hma, Hfm, HD, Hdiv, Hpw.
  fold pfd in Hmain, Hma, Hfm, HD, Hdiv, Hpw.
  set (X := PF.set_NegativeFrequencyError (ltb (cand_err pfd rem 4095) 0)
              (PF.set_FrequencyError (cand_abs pfd rem 4095) Y)) in *.
  pose proof (pf_report_fractional_mode X Hma Hfm) as Hr. cbv zeta in Hr.
  rewrite Hdiv, Hpw, HD in Hr.
  change (PF.NegativeFrequencyError X) with (ltb (cand_err pfd rem 4095) 0) in Hr.
  change (PF.FrequencyError X) with (cand_abs pfd rem 4095) in Hr.
  change (PF.MatchingR X) with 6 in Hr.
  change (PF.MatchingInt X) with (Zq 3595) in Hr.
  change (PF.MatchingMod X) with 4094 in Hr.
  change (PF.MatchingFrac X) with (cand_frac pfd rem 4094) in Hr.
  replace (cand_frac pfd rem 4094) with 2047 in Hr by (vm_compute; reflexivity).
  replace (ltb (cand_err pfd rem 4095) 0) with true in Hr by (vm_compute; reflexivity).
  rewrite Hmain. destruct (PF.report X) as [sx p]. cbn [snd] in Hr. subst p.
  eexists. eexists. eexists. split; [reflexivity|].
  split; vm_compute; reflexivity.
Qed.
(** ** C4: a phase-detector frequency out of range in the integer search *)

(** C4 fails in MAX2870pf.py at [--ref 120000000 --rf 3600000000].  At
    R = 1 the phase-detector frequency, 120 MHz, is above the limit and
    the [else] branch of lines 66-68 leaves the R loop; R = 2, an exact
    match with N = 60, is never examined and the script reports that no
    result is possible.  MAX2870spf.py, whose loop has no such branch,
    reports the integer-mode result R = 2, N = 60 for the same
    frequencies. *)
Theorem C4_pf_integer_search_ends_at_high_pfd :
  let ref := Zq 120000000 in
  let rf := Zq 3600000000 in
  PF.int_body ref 1 (PF.init ref rf) = (PF.init ref rf, Break)
  /\ pf_exact_at ref (PF.init ref rf) 2 = true
  /\ (exists s, PF.main 7 ref rf = Some (s, PF.NotPossible))
  /\ (exists s N,
        SPF.main 11 rf 120000000 0
        = Some (s, SPF.IntegerReport 2 N 2 0 1 0 120000000)
        /\ (N == 60)%Q).
Proof.
  cbv zeta. split; [reflexivity|]. split; [vm_compute; reflexivity|]. split.
  - eexists. vm_compute. reflexivity.
  - eexists. eexists. split; [vm_compute; reflexivity | reflexivity].
Qed.
(** ** MAX2870spf.py keeps the best error so far *)

(** A [for] loop whose body never raises a measure. *)
Lemma for_in_le {S : Type} (P : S -> Prop) (fe : S -> Q) body (xs : list Z) :
  (forall x s, In x xs -> P s ->
     P (fst (body x s)) /\ (fe (fst (body x s)) <= fe s)%Q) ->
  forall s, P s -> P (for_in body xs s) /\ (fe (for_in body xs s) <= fe s)%Q.
Proof.
  induction xs as [|x xs IH]; intros H s Hs; cbn [for_in].
  - split; [exact Hs | lra].
  - destruct (H x s (or_introl eq_refl) Hs) as (H1 & H2).
    destruct (body x s) as [s' f]. cbn [fst] in H1, H2. destruct f.
    + destruct (IH (fun y t Hy => H y t (or_intror Hy)) s' H1) as (H3 & H4).
      split; [exact H3 | lra].
    + split; assumption.
Qed.

(** If moreover the body leaves the loop only with the measure at most
    [b], and the pass at [x0] brings the measure to at most [b], the loop
    ends with the measure at most [b]. *)
Lemma for_in_bound {S : Type} (P : S -> Prop) (fe : S -> Q) body (xs : list Z)
    (x0 : Z) (b : Q) :
  (forall x s, In x xs -> P s ->
     P (fst (body x s)) /\ (fe (fst (body x s)) <= fe s)%Q) ->
  (forall x s, In x xs -> P s -> snd (body x s) = Break ->
     (fe (fst (body x s)) <= b)%Q) ->
  In x0 xs ->
  (forall s, P s -> (fe (fst (body x0 s)) <= b)%Q) ->
  forall s, P s -> (fe (for_in body xs s) <= b)%Q.
Proof.
  induction xs as [|x xs IH]; intros Hmono Hbrk Hin Hx0 s Hs; [destruct Hin|].
  cbn [for_in].
  destruct (Hmono x s (or_introl eq_refl) Hs) as (H1 & H2).
  pose proof (Hbrk x s (or_introl eq_refl) Hs) as H3.
  destruct (body x s) as [s' f] eqn:E. cbn [fst snd] in H1, H2, H3. destruct f.
  - destruct Hin as [<- | Hin].
    + pose proof (Hx0 s Hs) as H4. rewrite E in H4. cbn [fst] in H4.
      destruct (for_in_le P fe body xs (fun y t Hy => Hmono y t (or_intror Hy)) s' H1)
        as (_ & H5).
      lra.
    + apply IH; auto.
      * intros y t Hy. apply Hmono. now right.
      * intros y t Hy. apply Hbrk. now right.
  - apply H3. reflexivity.
Qed.

Lemma spf_cand_error R N rem m s :
  SPF.FrequencyError (spf_cand R N rem m s)
  = if ltb (cand_abs (Zq (SPF.ReferenceFrequencyToMatch s) / Zq R) rem m)
         (SPF.FrequencyError s)
    then cand_abs (Zq (SPF.ReferenceFrequencyToMatch s) / Zq R) rem m
    else SPF.FrequencyError s.
Proof.
  unfold spf_cand. cbv zeta.
  destruct (ltb _ (SPF.FrequencyError s)); reflexivity.
Qed.

(** One pass of the MOD loop: the best error does not grow, and is at most
    the error of the candidate of the pass. *)
Lemma spf_mod_body_le R N rem m s :
  (SPF.FrequencyError (fst (SPF.mod_body R N rem m s)) <= SPF.FrequencyError s)%Q
  /\ (2 <= m ->
      (SPF.FrequencyError (fst (SPF.mod_body R N rem m s))
       <= cand_abs (Zq (SPF.ReferenceFrequencyToMatch s) / Zq R) rem m)%Q)
  /\ (snd (SPF.mod_body R N rem m s) = Break ->
      (SPF.FrequencyError (fst (SPF.mod_body R N rem m s)) == 0)%Q).
Proof.
  destruct (2 <=? m) eqn:E2.
  2:{ unfold SPF.mod_body. rewrite E2. cbn [fst snd].
      apply Z.leb_gt in E2. split; [lra|]. split; [lia | discriminate]. }
  rewrite spf_mod_body_eq by exact E2. cbn [fst snd].
  rewrite spf_cand_error.
  set (a := cand_abs (Zq (SPF.ReferenceFrequencyToMatch s) / Zq R) rem m).
  destruct (ltb a (SPF.FrequencyError s)) eqn:El.
  - apply ltb_lt in El. split; [lra|]. split; [intros _; lra|].
    destruct (eqb a 0) eqn:E0; [|discriminate].
    intros _. apply eqb_eq. exact E0.
  - apply ltb_ge in El. split; [lra|]. split; [intros _; exact El|].
    destruct (eqb (SPF.FrequencyError s) 0) eqn:E0; [|discriminate].
    intros _. apply eqb_eq. exact E0.
Qed.

(** The MOD loop: the best error does not grow and is at most the error
    of every candidate of the loop. *)
Lemma spf_mod_loop_le R N rem s :
  let s' := for_in (SPF.mod_body R N rem) (range (SPF.MaximumMod + 1)) s in
  (SPF.FrequencyError s' <= SPF.FrequencyError s)%Q
  /\ forall m, 2 <= m <= SPF.MaximumMod ->
       (SPF.FrequencyError s'
        <= cand_abs (Zq (SPF.ReferenceFrequencyToMatch s) / Zq R) rem m)%Q.
Proof.
  cbv zeta.
  set (P := fun t => SPF.ReferenceFrequencyToMatch t = SPF.ReferenceFrequencyToMatch s).
  assert (Hmono : forall x t, In x (range (SPF.MaximumMod + 1)) -> P t ->
            P (fst (SPF.mod_body R N rem x t))
            /\ (SPF.FrequencyError (fst (SPF.mod_body R N rem x t))
                <= SPF.FrequencyError t)%Q).
  { intros x t _ Ht. split.
    - destruct (spf_mod_body_kept R N rem x t) as (_ & _ & _ & _ & _ & _ & _ & _ & k & _).
      unfold P in *. congruence.
    - apply spf_mod_body_le. }
  split.
  - apply (for_in_le P SPF.FrequencyError _ _ Hmono s eq_refl).
  - intros m Hm.
    apply (for_in_bound P SPF.FrequencyError _ _ m _ Hmono); try reflexivity.
    + intros x t _ _ Hb.
      destruct (spf_mod_body_le R N rem x t) as (_ & _ & H). rewrite (H Hb).
      apply cand_abs_nonneg.
    + apply in_range. lia.
    + intros t Ht. unfold P in Ht. rewrite <- Ht. apply spf_mod_body_le. lia.
Qed.

(** One pass of the R loop. *)
Lemma spf_frac_body_le R s :
  (SPF.FrequencyError (fst (SPF.frac_body R s)) <= SPF.FrequencyError s)%Q
  /\ (snd (SPF.frac_body R s) = Break ->
      (SPF.FrequencyError (fst (SPF.frac_body R s)) == 0)%Q)
  /\ (SPF.pfd_ok R s = true ->
      (SPF.MinimumInt s <=? spf_frac_N s R) && (spf_frac_N s R <=? SPF.MaximumInt s)
      = true ->
      forall m, 2 <= m <= SPF.MaximumMod ->
        (SPF.FrequencyError (fst (SPF.frac_body R s)) <= spf_cand_abs s R m)%Q).
Proof.
  unfold SPF.frac_body. cbv zeta. fold (spf_frac_N s R).
  destruct (SPF.pfd_ok R s) eqn:Hp.
  2:{ cbn [fst snd]. split; [lra|]. split; discriminate. }
  destruct ((SPF.MinimumInt s <=? spf_frac_N s R)
            && (spf_frac_N s R <=? SPF.MaximumInt s)) eqn:HN.
  2:{ cbn [fst snd]. split; [lra|]. split; discriminate. }
  change (SPF.DesiredFrequency (SPF.set_MatchAttempted true s))
    with (SPF.DesiredFrequency s).
  change (SPF.ReferenceFrequencyToMatch (SPF.set_MatchAttempted true s))
    with (SPF.ReferenceFrequencyToMatch s).
  set (rem := (SPF.DesiredFrequency s
               - Zq (spf_frac_N s R) * (Zq (SPF.ReferenceFrequencyToMatch s) / Zq R))%Q).
  destruct (spf_mod_loop_le R (spf_frac_N s R) rem (SPF.set_MatchAttempted true s))
    as (H1 & H2).
  cbv zeta in H1, H2.
  set (s' := for_in _ _ _) in *.
  change (SPF.FrequencyError (SPF.set_MatchAttempted true s))
    with (SPF.FrequencyError s) in H1.
  change (SPF.ReferenceFrequencyToMatch (SPF.set_MatchAttempted true s))
    with (SPF.ReferenceFrequencyToMatch s) in H2.
  destruct (eqb (SPF.FrequencyError s') 0) eqn:E0; cbn [fst snd].
  - split; [exact H1|]. split; [intros _; apply eqb_eq; exact E0|].
    intros _ _ m Hm. apply H2. exact Hm.
  - split; [exact H1|]. split; [discriminate|].
    intros _ _ m Hm. apply H2. exact Hm.
Qed.

(** The fractional search of MAX2870spf.py: the best error does not grow,
    and after the search it is at most the error of every candidate
    [(R, m)] of every feasible [R]. *)
Lemma spf_fractional_search_le s :
  (SPF.FrequencyError (SPF.fractional_search s) <= SPF.FrequencyError s)%Q
  /\ forall R m,
       0 <= R <= SPF.MaximumR -> spf_feasible s R = true ->
       2 <= m <= SPF.MaximumMod ->
       (SPF.FrequencyError (SPF.fractional_search s) <= spf_cand_abs s R m)%Q.
Proof.
  unfold SPF.fractional_search. cbv zeta. fold (spf_frac_limits s).
  set (s0 := spf_frac_limits s).
  assert (Hmono : forall x t, In x (range (SPF.MaximumR + 1)) -> spf_kept s0 t ->
            spf_kept s0 (fst (SPF.frac_body x t))
            /\ (SPF.FrequencyError (fst (SPF.frac_body x t)) <= SPF.FrequencyError t)%Q).
  { intros x t _ Ht. split.
    - eapply spf_kept_trans; [exact Ht|]. apply spf_frac_body_inv.
    - apply spf_frac_body_le. }
  split.
  - apply (for_in_le (spf_kept s0) SPF.FrequencyError _ _ Hmono s0 (spf_kept_refl s0)).
  - intros R m HR Hf Hm.
    apply (for_in_bound (spf_kept s0) SPF.FrequencyError _ _ R _ Hmono).
    + intros x t _ _ Hb.
      destruct (spf_frac_body_le x t) as (_ & H & _). rewrite (H Hb).
      apply cand_abs_nonneg.
    + apply in_range. lia.
    + intros t Ht.
      pose proof Ht as (k1 & _ & _ & _ & _ & k6 & k7 & k8 & k9 & _).
      unfold spf_feasible in Hf. apply andb_true_iff in Hf. destruct Hf as (Hp & HN).
      fold s0 in Hp.
      assert (EN : spf_frac_N t R = spf_frac_N s R).
      { unfold spf_frac_N. rewrite k1, k9. reflexivity. }
      assert (Ec : spf_cand_abs t R m = spf_cand_abs s R m).
      { unfold spf_cand_abs. cbv zeta. rewrite EN, k1, k9. reflexivity. }
      rewrite <- Ec. apply spf_frac_body_le; [| |exact Hm].
      * unfold SPF.pfd_ok in *. rewrite k8, k9. exact Hp.
      * rewrite EN, k6, k7. exact HN.
    + apply spf_kept_refl.
Qed.
(** ** The best error over the whole sweep *)

Lemma spf_vco_loop_D fuel : forall s t s' t',
  SPF.vco_loop fuel s = Some s' -> SPF.vco_loop fuel t = Some t' ->
  SPF.DesiredFrequency s = SPF.DesiredFrequency t ->
  SPF.DesiredFrequency s' = SPF.DesiredFrequency t'.
Proof.
  induction fuel as [|fuel IH]; intros s t s' t'; cbn [SPF.vco_loop]; intros Hs Ht E;
    rewrite <- E in Ht;
    destruct (ltb (SPF.DesiredFrequency s) (Zq SPF.MaximumRFFrequency / 2)).
  - discriminate.
  - congruence.
  - apply (IH _ _ _ _ Hs Ht). cbn [SPF.DesiredFrequency SPF.set_DesiredFrequency].
    rewrite E. reflexivity.
  - congruence.
Qed.

Lemma spf_normalize_D fuel s t s' t' :
  SPF.normalize fuel s = Some s' -> SPF.normalize fuel t = Some t' ->
  SPF.DesiredFrequency s = SPF.DesiredFrequency t ->
  SPF.DesiredFrequency s' = SPF.DesiredFrequency t'.
Proof.
  unfold SPF.normalize.
  destruct (SPF.vco_loop fuel s) as [s1|] eqn:Es; [|discriminate].
  destruct (SPF.vco_loop fuel t) as [t1|] eqn:Et; [|discriminate].
  intros [= <-] [= <-] E.
  apply (spf_vco_loop_D fuel s t s1 t1 Es Et E).
Qed.

(** Feasibility and the error of a candidate depend on the state through
    the VCO frequency and the reference only. *)
Lemma spf_feasible_ext s t R :
  SPF.DesiredFrequency s = SPF.DesiredFrequency t ->
  SPF.ReferenceFrequencyToMatch s = SPF.ReferenceFrequencyToMatch t ->
  spf_feasible s R = spf_feasible t R.
Proof.
  intros Ed Er. unfold spf_feasible, spf_frac_N, SPF.pfd_ok.
  change (SPF.ReferenceFrequencyToMatch (spf_frac_limits s))
    with (SPF.ReferenceFrequencyToMatch s).
  change (SPF.ReferenceFrequencyToMatch (spf_frac_limits t))
    with (SPF.ReferenceFrequencyToMatch t).
  change (SPF.MaximumPFDFrequency (spf_frac_limits s)) with 50000000.
  change (SPF.MaximumPFDFrequency (spf_frac_limits t)) with 50000000.
  rewrite Ed, Er. reflexivity.
Qed.

Lemma spf_cand_abs_ext s t R m :
  SPF.DesiredFrequency s = SPF.DesiredFrequency t ->
  SPF.ReferenceFrequencyToMatch s = SPF.ReferenceFrequencyToMatch t ->
  spf_cand_abs s R m = spf_cand_abs t R m.
Proof.
  intros Ed Er. unfold spf_cand_abs, spf_frac_N. cbv zeta.
  rewrite Ed, Er. reflexivity.
Qed.

(** A [for] loop that may fail, with a measure that never grows. *)
Lemma for_in_opt_le {S : Type} (P : S -> Prop) (fe : S -> Q) body (xs : list Z) :
  (forall x s s' f, In x xs -> P s -> body x s = Some (s', f) ->
     P s' /\ (fe s' <= fe s)%Q) ->
  forall s r, P s -> for_in_opt body xs s = Some r -> (fe r <= fe s)%Q.
Proof.
  induction xs as [|x xs IH]; intros H s r Hs; cbn [for_in_opt].
  - intros [= <-]. lra.
  - destruct (body x s) as [[s' f]|] eqn:E; [|discriminate].
    destruct (H x s s' f (or_introl eq_refl) Hs E) as (H1 & H2).
    destruct f.
    + intros Hr.
      pose proof (IH (fun y t t' g Hy => H y t t' g (or_intror Hy)) s' r H1 Hr).
      lra.
    + intros [= <-]. exact H2.
Qed.

Lemma for_in_opt_bound {S : Type} (P G : S -> Prop) (fe : S -> Q) body
    (xs : list Z) (x0 : Z) (b : Q) :
  (forall x s s' f, In x xs -> P s -> body x s = Some (s', f) ->
     P s' /\ (fe s' <= fe s)%Q) ->
  (forall x s s', In x xs -> P s -> body x s = Some (s', Break) -> G s' ->
     (fe s' <= b)%Q) ->
  In x0 xs ->
  (forall s s', P s -> body x0 s = Some (s', Next) -> (fe s' <= b)%Q) ->
  forall s r, P s -> for_in_opt body xs s = Some r -> G r -> (fe r <= b)%Q.
Proof.
  induction xs as [|x xs IH]; intros Hmono Hbrk Hin Hx0 s r Hs; [destruct Hin|].
  cbn [for_in_opt].
  destruct (body x s) as [[s' f]|] eqn:E; [|discriminate].
  destruct (Hmono x s s' f (or_introl eq_refl) Hs E) as (H1 & H2).
  destruct f.
  - intros Hr Hg. destruct Hin as [<- | Hin].
    + pose proof (Hx0 s s' Hs E) as H4.
      pose proof (for_in_opt_le P fe body xs
                    (fun y t t' g Hy => Hmono y t t' g (or_intror Hy)) s' r H1 Hr).
      lra.
    + apply (IH (fun y t t' g Hy => Hmono y t t' g (or_intror Hy))
                (fun y t t' Hy => Hbrk y t t' (or_intror Hy)) Hin Hx0 s' r H1 Hr Hg).
  - intros [= <-] Hg. apply (Hbrk x s s' (or_introl eq_refl) Hs E Hg).
Qed.
Lemma spf_flow_break s : spf_flow s = Break -> (SPF.FrequencyError s == 0)%Q.
Proof.
  unfold spf_flow. destruct (eqb (SPF.FrequencyError s) 0) eqn:E0; [|discriminate].
  intros _. apply eqb_eq. exact E0.
Qed.

Section SpfSweepBest.

Variables (fuel : nat) (rf v : Q) (start : Z).
Hypothesis Hrf_lo : (Zq SPF.MinimumRFFrequency <= rf)%Q.
Hypothesis Hrf_hi : (rf <= Zq SPF.MaximumRFFrequency)%Q.
Hypothesis Hv_lo : (3000000000 <= v)%Q.
Hypothesis Hv_hi : (v <= 6000000000)%Q.
Hypothesis Hnorm : forall s s_n,
  SPF.DesiredFrequency s = rf -> SPF.normalize fuel s = Some s_n ->
  SPF.DesiredFrequency s_n = v.

(** One step of the sweep from a state whose frequency is the target or
    the VCO frequency: either the integer search ends the sweep in integer
    mode, or the fractional search runs at the VCO frequency and the
    reference of the step, from the best error so far. *)
Lemma spf_sweep_body_step x s s' f :
  SPF.DesiredFrequency s = rf \/ SPF.DesiredFrequency s = v ->
  SPF.sweep_body fuel start x s = Some (s', f) ->
  exists u,
    SPF.DesiredFrequency u = v
    /\ SPF.ReferenceFrequencyToMatch u = start + x
    /\ SPF.FrequencyError u = SPF.FrequencyError s
    /\ ((f = Break /\ SPF.FractionalMode s' = false /\ s' = u)
        \/ (s' = SPF.fractional_search u /\ f = spf_flow s')).
Proof.
  intros HD Hb.
  assert (Hok : spf_rf_ok s = true).
  { unfold spf_rf_ok. apply andb_true_iff. rewrite !leb_le.
    assert (Zq SPF.MinimumRFFrequency == 2347500)%Q by reflexivity.
    assert (Zq SPF.MaximumRFFrequency == 6000000000)%Q by reflexivity.
    destruct HD as [-> | ->]; split; lra. }
  apply spf_sweep_body_cases in Hb.
  destruct Hb as [[E _] | (s_n & _ & En & Hb)]; [congruence|].
  assert (Hn : SPF.DesiredFrequency s_n = v
               /\ SPF.ReferenceFrequencyToMatch s_n = start + x
               /\ SPF.FrequencyError s_n = SPF.FrequencyError s).
  { destruct HD as [HD | HD].
    - split; [apply (Hnorm (spf_prep start x s) s_n HD En)|].
      apply spf_normalize_some in En. destruct En as (j & ->). split; reflexivity.
    - rewrite spf_normalize_high in En by (change (3000000000 <= SPF.DesiredFrequency s)%Q;
                                            rewrite HD; exact Hv_lo).
      injection En as <-. split; [exact HD|]. split; reflexivity. }
  destruct Hn as (n1 & n2 & n3).
  destruct (spf_integer_search_keeps s_n) as (_ & i2 & _ & _ & i5 & i6 & _).
  cbv zeta in i2, i5, i6.
  destruct Hb as [(_ & Hfm & E) | [(_ & _ & E) | (_ & E)]];
    injection E as -> ->.
  - exists (SPF.integer_search s_n).
    split; [congruence|]. split; [congruence|]. split; [congruence|].
    left. split; [reflexivity|]. split; [exact Hfm | reflexivity].
  - exists (SPF.integer_search s_n).
    split; [congruence|]. split; [congruence|]. split; [congruence|].
    right. split; reflexivity.
  - exists s_n. split; [exact n1|]. split; [exact n2|]. split; [exact n3|].
    right. split; reflexivity.
Qed.

Lemma spf_sweep_body_mono x s s' f :
  SPF.DesiredFrequency s = rf \/ SPF.DesiredFrequency s = v ->
  SPF.sweep_body fuel start x s = Some (s', f) ->
  (SPF.DesiredFrequency s' = rf \/ SPF.DesiredFrequency s' = v)
  /\ (SPF.FrequencyError s' <= SPF.FrequencyError s)%Q.
Proof.
  intros HD Hb.
  destruct (spf_sweep_body_step x s s' f HD Hb) as (u & u1 & u2 & u3 & Hc).
  destruct Hc as [(_ & _ & ->) | (-> & _)].
  - split; [right; exact u1 | rewrite u3; lra].
  - destruct (spf_fractional_search_inv u) as (d & _). cbv zeta in d.
    split; [right; congruence|].
    destruct (spf_fractional_search_le u) as (Hle & _). rewrite <- u3. exact Hle.
Qed.

(** A step that ends the sweep in fractional mode leaves a best error of
    zero. *)
Lemma spf_sweep_body_break x s s' :
  SPF.DesiredFrequency s = rf \/ SPF.DesiredFrequency s = v ->
  SPF.sweep_body fuel start x s = Some (s', Break) ->
  SPF.FractionalMode s' = true ->
  (SPF.FrequencyError s' == 0)%Q.
Proof.
  intros Ht Hb Hg.
  destruct (spf_sweep_body_step x s s' Break Ht Hb) as (u & _ & _ & _ & Hc).
  destruct Hc as [(_ & Hfm & _) | (-> & Hfl)]; [congruence|].
  apply spf_flow_break. symmetry. exact Hfl.
Qed.

(** A step after which the sweep goes on has run the fractional search. *)
Lemma spf_sweep_body_at x R m s s' :
  SPF.DesiredFrequency s = rf \/ SPF.DesiredFrequency s = v ->
  0 <= R <= SPF.MaximumR -> 2 <= m <= SPF.MaximumMod ->
  spf_feasible (spf_at v (start + x)) R = true ->
  SPF.sweep_body fuel start x s = Some (s', Next) ->
  (SPF.FrequencyError s' <= spf_cand_abs (spf_at v (start + x)) R m)%Q.
Proof.
  intros Ht HR Hm Hf Hb.
  destruct (spf_sweep_body_step x s s' Next Ht Hb) as (u & u1 & u2 & _ & Hc).
  destruct Hc as [(Hbr & _) | (-> & _)]; [discriminate|].
  assert (Ed : SPF.DesiredFrequency u = SPF.DesiredFrequency (spf_at v (start + x)))
    by exact u1.
  assert (Er : SPF.ReferenceFrequencyToMatch u
               = SPF.ReferenceFrequencyToMatch (spf_at v (start + x))) by exact u2.
  rewrite <- (spf_cand_abs_ext u (spf_at v (start + x)) R m Ed Er).
  apply spf_fractional_search_le; [exact HR | | exact Hm].
  rewrite (spf_feasible_ext u (spf_at v (start + x)) R Ed Er). exact Hf.
Qed.

(** The sweep from such a state: a result in fractional mode has a best
    error at most the error of every feasible candidate of every step. *)
Lemma spf_sweep_bound xs x0 R m s r :
  SPF.DesiredFrequency s = rf \/ SPF.DesiredFrequency s = v ->
  In x0 xs ->
  0 <= R <= SPF.MaximumR -> 2 <= m <= SPF.MaximumMod ->
  spf_feasible (spf_at v (start + x0)) R = true ->
  for_in_opt (SPF.sweep_body fuel start) xs s = Some r ->
  SPF.FractionalMode r = true ->
  (SPF.FrequencyError r <= spf_cand_abs (spf_at v (start + x0)) R m)%Q.
Proof.
  intros HD Hin HR Hm Hf Hrun Hg.
  apply (for_in_opt_bound
           (fun t => SPF.DesiredFrequency t = rf \/ SPF.DesiredFrequency t = v)
           (fun t => SPF.FractionalMode t = true)
           SPF.FrequencyError (SPF.sweep_body fuel start) xs x0
           (spf_cand_abs (spf_at v (start + x0)) R m)
           (fun x t t' g _ Ht Hb => spf_sweep_body_mono x t t' g Ht Hb))
    with (s := s); [| exact Hin | | exact HD | exact Hrun | exact Hg].
  - intros x t t' _ Ht Hb Hg'.
    apply (Qle_trans _ 0).
    + apply Qle_lteq. right. exact (spf_sweep_body_break x t t' Ht Hb Hg').
    + unfold spf_cand_abs. cbv zeta. apply cand_abs_nonneg.
  - intros t t' Ht Hb. exact (spf_sweep_body_at x0 R m t t' Ht HR Hm Hf Hb).
Qed.

End SpfSweepBest.
(** ** MAX2870pf.py at a reference above the phase-detector limits *)

(** With [R = 1] the phase-detector frequency is the reference itself; a
    reference above the limit makes the guard of line 54 (line 77) fail at
    [R = 1], and the [else] branch of lines 66-68 (113-115) leaves the R
    loop there. *)
Lemma pf_int_body_high ref s :
  (Zq (PF.MaximumPFDFrequency s) < ref)%Q ->
  PF.int_body ref 1 s = (s, Break).
Proof.
  intros H. unfold PF.int_body, PF.pfd_ok.
  replace (leb (ref / Zq 1) (Zq (PF.MaximumPFDFrequency s))) with false.
  - rewrite andb_false_r. reflexivity.
  - symmetry. apply leb_gt.
    assert (E : (ref / Zq 1 == ref)%Q) by (unfold Zq; field). rewrite E. exact H.
Qed.

Lemma pf_frac_body_high ref s :
  (Zq (PF.MaximumPFDFrequency s) < ref)%Q ->
  PF.frac_body ref 1 s = (s, Break).
Proof.
  intros H. unfold PF.frac_body, PF.pfd_ok.
  replace (leb (ref / Zq 1) (Zq (PF.MaximumPFDFrequency s))) with false.
  - rewrite andb_false_r. reflexivity.
  - symmetry. apply leb_gt.
    assert (E : (ref / Zq 1 == ref)%Q) by (unfold Zq; field). rewrite E. exact H.
Qed.

Lemma pf_integer_search_high ref s :
  (Zq (PF.MaximumPFDFrequency s) < ref)%Q ->
  PF.integer_search ref s = s.
Proof.
  intros H. unfold PF.integer_search.
  destruct (range_from_3 (PF.MaximumR + 1)) as (rest & ->);
    [unfold PF.MaximumR; lia|].
  rewrite (for_in_cons_next _ 0 _ s s) by reflexivity.
  apply for_in_cons_break. apply pf_int_body_high. exact H.
Qed.

Lemma pf_fractional_search_high ref s :
  PF.FractionalMode s = true ->
  (50000000 < ref)%Q ->
  PF.fractional_search ref s = pf_frac_limits s.
Proof.
  intros Hfm H. unfold PF.fractional_search. rewrite Hfm. cbv zeta.
  fold (pf_frac_limits s).
  destruct (range_from_3 (PF.MaximumR + 1)) as (rest & ->);
    [unfold PF.MaximumR; lia|].
  rewrite (for_in_cons_next _ 0 _ (pf_frac_limits s) (pf_frac_limits s)) by reflexivity.
  apply for_in_cons_break. apply pf_frac_body_high. exact H.
Qed.

(** ** Normalisation in the sweep happens once *)

Lemma spf_vco_loop_done fuel : forall s s',
  SPF.vco_loop fuel s = Some s' ->
  ltb (SPF.DesiredFrequency s') (Zq SPF.MaximumRFFrequency / 2) = false.
Proof.
  induction fuel as [|fuel IH]; intros s s'; cbn [SPF.vco_loop];
    destruct (ltb (SPF.DesiredFrequency s) (Zq SPF.MaximumRFFrequency / 2)) eqn:E.
  - discriminate.
  - intros [= <-]. exact E.
  - apply IH.
  - intros [= <-]. exact E.
Qed.

(** ** [IntTemp] along the R loop *)

(** [IntTemp = vco / (ref / R)] grows with [R] ... *)
Lemma int_temp_mono (vco ref : Q) (R R' : Z) :
  (0 < ref)%Q -> (0 <= vco)%Q -> 0 < R <= R' ->
  (vco / (ref / Zq R) <= vco / (ref / Zq R'))%Q
  /\ floor (vco / (ref / Zq R)) <= floor (vco / (ref / Zq R')).
Proof.
  intros Href Hvco HR.
  assert (H1 : (0 < Zq R)%Q) by (apply Zq_pos; lia).
  assert (H2 : (0 < Zq R')%Q) by (apply Zq_pos; lia).
  assert (H3 : (Zq R <= Zq R')%Q) by (unfold Zq; rewrite <- Zle_Qle; lia).
  assert (E1 : (vco / (ref / Zq R) == vco / ref * Zq R)%Q) by (field; lra).
  assert (E2 : (vco / (ref / Zq R') == vco / ref * Zq R')%Q) by (field; lra).
  assert (H4 : (0 <= vco / ref)%Q) by (apply Qle_shift_div_l; lra).
  assert (H5 : (vco / (ref / Zq R) <= vco / (ref / Zq R'))%Q).
  { rewrite E1, E2. rewrite (Qmult_comm _ (Zq R)), (Qmult_comm _ (Zq R')).
    apply Qmult_le_compat_r; assumption. }
  split; [exact H5|].
  unfold floor. apply Qfloor_resp_le. exact H5.
Qed.

(** ... and is at least 28 wherever the phase-detector frequency is within
    the limits and the frequency is a VCO frequency, so that an [IntTemp]
    out of range is one above [MaximumInt]. *)
Lemma int_temp_low (vco ref : Q) (R : Z) :
  (3000000000 <= vco)%Q -> 0 < R ->
  (0 < ref / Zq R)%Q -> (ref / Zq R <= 105000000)%Q ->
  (28 <= vco / (ref / Zq R))%Q.
Proof.
  intros Hv HR Hp Hmax.
  apply Qle_shift_div_l; [exact Hp|].
  assert (H : (28 * (ref / Zq R) <= 28 * 105000000)%Q).
  { rewrite !(Qmult_comm 28). apply Qmult_le_compat_r; [exact Hmax | lra]. }
  assert (E : (28 * 105000000 == 2940000000)%Q) by reflexivity.
  lra.
Qed.
(** * Further properties of the two scripts *)

(** ** The best error of the sweep *)

(** X1: MAX2870spf.py keeps the best error of the whole sweep.  When the
    target is within the RF range and the sweep ends in fractional mode,
    the reported best error is at most the absolute error of every
    candidate [(R, MOD)] of every feasible [R] at every reference of the
    sweep; the VCO frequency is the target doubled [j] times. *)
Theorem spf_sweep_keeps_best_error fuel rf start steps r :
  (11 <= fuel)%nat ->
  (Zq SPF.MinimumRFFrequency <= rf)%Q -> (rf <= Zq SPF.MaximumRFFrequency)%Q ->
  SPF.sweep fuel rf start steps = Some r ->
  SPF.FractionalMode r = true ->
  exists j : nat,
    (3000000000 <= dbl j rf)%Q /\ (dbl j rf <= 6000000000)%Q
    /\ forall i R m,
         In i (range (SPF.clamp_steps steps + 1)) ->
         0 <= R <= SPF.MaximumR -> 2 <= m <= SPF.MaximumMod ->
         let t := spf_at (dbl j rf)
                    (SPF.clamp_start start (SPF.clamp_steps steps) + i) in
         spf_feasible t R = true ->
         (SPF.FrequencyError r <= spf_cand_abs t R m)%Q.
Proof.
  intros Hfuel Hlo Hhi Hrun Hg.
  destruct (spf_normalize_spec fuel (SPF.init rf) Hfuel Hlo)
    as (j & _ & En & Hj1 & Hj2 & Hj3).
  change (SPF.DesiredFrequency (SPF.init rf)) with rf in En, Hj1, Hj2, Hj3.
  exists j.
  assert (Hj4 : (dbl j rf <= 6000000000)%Q).
  { destruct j as [|j].
    - cbn [dbl]. assert (Zq SPF.MaximumRFFrequency == 6000000000)%Q by reflexivity. lra.
    - apply Qlt_le_weak. apply Hj2. discriminate. }
  split; [exact Hj1|]. split; [exact Hj4|].
  intros i R m Hi HR Hm t Hf. subst t.
  unfold SPF.sweep in Hrun. cbv zeta in Hrun.
  apply (spf_sweep_bound fuel rf (dbl j rf)
           (SPF.clamp_start start (SPF.clamp_steps steps)) Hlo Hhi Hj1 Hj4)
    with (xs := range (SPF.clamp_steps steps + 1)) (s := SPF.init rf);
    try assumption.
  - intros s s_n HD Hn.
    rewrite (spf_normalize_D fuel s (SPF.init rf) s_n _ Hn En HD). reflexivity.
  - left. reflexivity.
Qed.

(** A step that does not end the sweep leaves [FractionalMode] set. *)
Lemma spf_sweep_body_next_fractional fuel start i s s' :
  SPF.sweep_body fuel start i s = Some (s', Next) -> SPF.FractionalMode s' = true.
Proof.
  intros H. apply spf_sweep_body_cases in H.
  destruct H as [[_ H] | (s_n & _ & En & [(_ & _ & H) | [(_ & Hf & H) | (_ & H)]])];
    try discriminate; injection H as -> _.
  - destruct (spf_fractional_search_inv (SPF.integer_search s_n))
      as (_ & _ & _ & Hm & _). cbv zeta in Hm. rewrite Hm. exact Hf.
  - destruct (spf_fractional_search_inv s_n) as (_ & _ & _ & Hm & _).
    cbv zeta in Hm. rewrite Hm.
    apply spf_normalize_some in En. destruct En as (j & ->). reflexivity.
Qed.

(** The sweep of [--rf 5990000601 --refstart 10000000 --steps 1]: the
    target is coprime to both references, 10000000 and 10000001, so that
    neither step finds an exact solution. *)
Lemma spf_sweep_5990000601 :
  exists r,
    SPF.sweep 11 (Zq 5990000601) 10000000 1 = Some r
    /\ SPF.FractionalMode r = true
    /\ (0 < SPF.FrequencyError r)%Q.
Proof.
  destruct (spf_step_inexact 11 10000000 0 (SPF.init (Zq 5990000601)) 5990000601)
    as (s1 & E1 & Hi1 & Hp1 & Hd1 & _);
    try reflexivity; try (apply Qle_bool_iff; reflexivity).
  change (SPF.DesiredFrequency (SPF.init (Zq 5990000601))) with (Zq 5990000601) in Hd1.
  destruct (spf_step_inexact 11 10000000 1 s1 5990000601)
    as (s2 & E2 & _ & Hp2 & _);
    try (rewrite Hd1; apply Qle_bool_iff; reflexivity);
    try (rewrite Hd1; reflexivity); try reflexivity; try exact Hp1.
  exists s2.
  assert (E : SPF.sweep 11 (Zq 5990000601) 10000000 1
              = for_in_opt (SPF.sweep_body 11 10000000) [0; 1]
                  (SPF.init (Zq 5990000601))) by reflexivity.
  rewrite E. cbn [for_in_opt]. rewrite E1, E2.
  split; [reflexivity|].
  split; [exact (spf_sweep_body_next_fractional _ _ _ _ _ E2) | exact Hp2].
Qed.

(** X1 at [--rf 5990000601 --refstart 10000000 --steps 1], a sweep over two
    references that ends with a positive error: the reported error is at
    most 601 Hz, the error of the candidate R = 1, MOD = 2 at the first
    reference, and at most the error of the candidate R = 6, MOD = 4095 at
    the second. *)
Lemma spf_sweep_keeps_best_error_witness :
  exists r,
    SPF.sweep 11 (Zq 5990000601) 10000000 1 = Some r
    /\ SPF.FractionalMode r = true
    /\ (0 < SPF.FrequencyError r)%Q
    /\ spf_feasible (spf_at (Zq 5990000601) 10000000) 1 = true
    /\ (spf_cand_abs (spf_at (Zq 5990000601) 10000000) 1 2 == 601)%Q
    /\ (SPF.FrequencyError r <= spf_cand_abs (spf_at (Zq 5990000601) 10000000) 1 2)%Q
    /\ spf_feasible (spf_at (Zq 5990000601) 10000001) 6 = true
    /\ (0 < spf_cand_abs (spf_at (Zq 5990000601) 10000001) 6 4095)%Q
    /\ (SPF.FrequencyError r
        <= spf_cand_abs (spf_at (Zq 5990000601) 10000001) 6 4095)%Q.
Proof.
  destruct spf_sweep_5990000601 as (r & E & Hfm & Hpos).
  assert (Hf1 : spf_feasible (spf_at (Zq 5990000601) 10000000) 1 = true)
    by (vm_compute; reflexivity).
  assert (Hf2 : spf_feasible (spf_at (Zq 5990000601) 10000001) 6 = true)
    by (vm_compute; reflexivity).
  destruct (spf_sweep_keeps_best_error 11 (Zq 5990000601) 10000000 1 r)
    as (j & _ & Hj & H).
  - lia.
  - apply Qle_bool_iff. reflexivity.
  - apply Qle_bool_iff. reflexivity.
  - exact E.
  - exact Hfm.
  - assert (Ej : j = O).
    { destruct j as [|j]; [reflexivity | exfalso].
      cbn [dbl] in Hj.
      pose proof (dbl_pos j (Zq 5990000601 * 2)%Q ltac:(reflexivity)) as Hd.
      assert (Hv : (Zq 5990000601 * 2 == 11980001202)%Q) by reflexivity.
      lra. }
    subst j. cbn [dbl] in H.
    change (SPF.clamp_steps 1) with 1 in H.
    change (SPF.clamp_start 10000000 1) with 10000000 in H.
    exists r. split; [exact E|]. split; [exact Hfm|]. split; [exact Hpos|].
    split; [exact Hf1|].
    split; [vm_compute; reflexivity|].
    split.
    { apply (H 0 1 2); [apply in_range; lia | unfold SPF.MaximumR; lia
                        | unfold SPF.MaximumMod; lia | exact Hf1]. }
    split; [exact Hf2|].
    split; [vm_compute; reflexivity|].
    apply (H 1 6 4095); [apply in_range; lia | unfold SPF.MaximumR; lia
                         | unfold SPF.MaximumMod; lia | exact Hf2].
Defined.

(** X2: one fractional search of MAX2870spf.py never raises the best
    error, and leaves it at most the absolute error of every candidate
    [(R, MOD)] of every feasible [R] of the search; the R loop and the MOD
    loop are left early only with a best error of zero.  (MAX2870pf.py
    compares with the candidate before instead, see C1.) *)
Theorem spf_fractional_search_keeps_best s :
  (SPF.FrequencyError (SPF.fractional_search s) <= SPF.FrequencyError s)%Q
  /\ (forall R m,
        0 <= R <= SPF.MaximumR -> spf_feasible s R = true ->
        2 <= m <= SPF.MaximumMod ->
        (SPF.FrequencyError (SPF.fractional_search s) <= spf_cand_abs s R m)%Q)
  /\ (forall R t,
        snd (SPF.frac_body R t) = Break ->
        (SPF.FrequencyError (fst (SPF.frac_body R t)) == 0)%Q)
  /\ (forall R N rem m t,
        snd (SPF.mod_body R N rem m t) = Break ->
        (SPF.FrequencyError (fst (SPF.mod_body R N rem m t)) == 0)%Q).
Proof.
  split; [exact (proj1 (spf_fractional_search_le s))|].
  split; [exact (proj2 (spf_fractional_search_le s))|].
  split.
  - intros R t. exact (proj1 (proj2 (spf_frac_body_le R t))).
  - intros R N rem m t. exact (proj2 (proj2 (spf_mod_body_le R N rem m t))).
Qed.

(** X2 at a VCO frequency of 5990000601 Hz and a reference of 10 MHz,
    which have no exact solution: the search leaves a positive error of at
    most 601 Hz, the error of the candidate R = 1, MOD = 2. *)
Lemma spf_fractional_search_keeps_best_witness :
  let s := spf_at (Zq 5990000601) 10000000 in
  spf_feasible s 1 = true
  /\ (spf_cand_abs s 1 2 == 601)%Q
  /\ (SPF.FrequencyError (SPF.fractional_search s) <= spf_cand_abs s 1 2)%Q
  /\ (0 < SPF.FrequencyError (SPF.fractional_search s))%Q.
Proof.
  cbv zeta.
  assert (Hf : spf_feasible (spf_at (Zq 5990000601) 10000000) 1 = true)
    by (vm_compute; reflexivity).
  split; [exact Hf|].
  split; [vm_compute; reflexivity|].
  split.
  - apply (proj1 (proj2 (spf_fractional_search_keeps_best _))); [|exact Hf|];
      unfold SPF.MaximumR, SPF.MaximumMod; lia.
  - apply (spf_fractional_search_pos 10000000 5990000601); reflexivity.
Defined.

(** ** MAX2870pf.py: which candidate the result comes from *)

(** X4: in MAX2870pf.py, at a reference [r] coprime to the VCO frequency
    [v] with [R * MaximumMod < r], no candidate of the MOD loop is exact,
    the loop runs to its end, and [FrequencyError] and
    [NegativeFrequencyError] are then those of the candidate at MOD 4095,
    whatever the candidates before it were. *)
Theorem pf_mod_loop_ends_with_last_candidate (r v R N : Z) s :
  Z.gcd r v = 1 -> 0 < R -> R * PF.MaximumMod < r ->
  let pfd := (Zq r / Zq R)%Q in
  let rem := (Zq v - Zq N * pfd)%Q in
  let s' := for_in (PF.mod_body (Zq r) R N rem) (range (PF.MaximumMod + 1)) s in
  PF.FrequencyError s' = cand_abs pfd rem PF.MaximumMod
  /\ PF.NegativeFrequencyError s' = ltb (cand_err pfd rem PF.MaximumMod) 0.
Proof.
  intros Hg HR Hbig. cbv zeta.
  rewrite pf_mod_loop_inexact.
  - apply pf_cand_error.
  - intros m Hm. unfold cand_err.
    apply (candidate_inexact r v R m N _ (Zq v)); try assumption; try lia.
    + reflexivity.
    + unfold PF.MaximumMod in *. nia.
Qed.

(** X4 at [r = 10000000], [v = 5991250001], [R = 1], [N = 599]. *)
Lemma pf_mod_loop_ends_with_last_candidate_witness :
  let pfd := (Zq 10000000 / Zq 1)%Q in
  let rem := (Zq 5991250001 - Zq 599 * pfd)%Q in
  PF.FrequencyError
    (for_in (PF.mod_body (Zq 10000000) 1 599 rem) (range (PF.MaximumMod + 1))
       (PF.init (Zq 10000000) (Zq 5991250001)))
  = cand_abs pfd rem PF.MaximumMod.
Proof.
  cbv zeta.
  apply (pf_mod_loop_ends_with_last_candidate 10000000 5991250001 1 599).
  - reflexivity.
  - lia.
  - reflexivity.
Defined.

(** X5: the fractional search of MAX2870pf.py on such an input.  When
    every [R] from 1 to [Rl] is feasible and the R loop is left at
    [Rl + 1], the search ends with [MatchAttempted] set and with the
    error and the sign of the last candidate examined, the one at [Rl]
    and MOD 4095. *)
Theorem pf_fractional_search_ends_with_last_candidate (r v Rl : Z) t :
  Z.gcd r v = 1 -> PF.MaximumR * PF.MaximumMod < r ->
  PF.DesiredFrequency t = Zq v -> PF.FractionalMode t = true ->
  1 <= Rl < PF.MaximumR ->
  (forall R, 1 <= R <= Rl -> pf_frac_feasible r v R = true) ->
  pf_frac_stops r v (Rl + 1) = true ->
  let pfd := (Zq r / Zq Rl)%Q in
  let rem := (Zq v - Zq (pf_frac_N r v Rl) * pfd)%Q in
  let t' := PF.fractional_search (Zq r) t in
  PF.MatchAttempted t' = true
  /\ PF.FrequencyError t' = cand_abs pfd rem PF.MaximumMod
  /\ PF.NegativeFrequencyError t' = ltb (cand_err pfd rem PF.MaximumMod) 0.
Proof.
  intros Hg Hbig HD Hfm HRl Hfeas Hstop. cbv zeta.
  destruct (pf_fractional_search_last r v Hg Hbig Rl t HD Hfm HRl Hfeas Hstop)
    as (s3 & -> & Hma).
  split.
  - repeat match goal with
           | |- PF.MatchAttempted (pf_cand ?a ?b ?c ?d ?e ?s) = true =>
               let H := fresh in
               destruct (pf_cand_kept a b c d e s) as (_ & _ & _ & _ & _ & _ & _ & H);
               apply H; clear H
           end.
    exact Hma.
  - apply pf_cand_error.
Qed.

(** X5 at [--ref 10000000 --rf 5991250001], where R = 1, ..., 6 are
    feasible and R = 7 gives an [IntTemp] above 4091. *)
Lemma pf_fractional_search_ends_with_last_candidate_witness :
  let pfd := (Zq 10000000 / Zq 6)%Q in
  let rem := (Zq 5991250001 - Zq (pf_frac_N 10000000 5991250001 6) * pfd)%Q in
  PF.FrequencyError
    (PF.fractional_search (Zq 10000000) (PF.init (Zq 10000000) (Zq 5991250001)))
  = cand_abs pfd rem PF.MaximumMod.
Proof.
  cbv zeta.
  apply (pf_fractional_search_ends_with_last_candidate 10000000 5991250001 6).
  - reflexivity.
  - reflexivity.
  - reflexivity.
  - reflexivity.
  - unfold PF.MaximumR. lia.
  - intros R HR.
    assert (H : R = 1 \/ R = 2 \/ R = 3 \/ R = 4 \/ R = 5 \/ R = 6) by lia.
    destruct H as [-> | [-> | [-> | [-> | [-> | ->]]]]]; vm_compute; reflexivity.
  - vm_compute. reflexivity.
Defined.
(** ** MAX2870pf.py at references above the phase-detector limits *)

(** X6: MAX2870pf.py accepts references up to 200 MHz (line 45), but with
    a reference above 105 MHz both R loops are left at [R = 1] (lines
    66-68 and 113-115), nothing is examined and the script reports that no
    result is possible, for every target within the RF range. *)
Theorem pf_reference_above_105MHz_gives_nothing fuel ref rf :
  (7 <= fuel)%nat ->
  (105000000 < ref)%Q -> (ref <= Zq PF.MaximumReferenceFrequency)%Q ->
  (Zq PF.MinimumRFFrequency <= rf)%Q -> (rf <= Zq PF.MaximumRFFrequency)%Q ->
  exists s, PF.main fuel ref rf = Some (s, PF.NotPossible).
Proof.
  intros Hfuel Hlo Hhi Hrlo Hrhi.
  unfold PF.main. cbv zeta.
  change (PF.DesiredFrequency (PF.init ref rf)) with rf.
  assert (E1 : leb (Zq PF.MinimumReferenceFrequency) ref
               && leb ref (Zq PF.MaximumReferenceFrequency) = true).
  { apply andb_true_iff. rewrite !leb_le.
    assert (Zq PF.MinimumReferenceFrequency == 10000000)%Q by reflexivity.
    split; lra. }
  assert (E2 : leb (Zq PF.MinimumRFFrequency) rf
               && leb rf (Zq PF.MaximumRFFrequency) = true).
  { apply andb_true_iff. rewrite !leb_le. split; assumption. }
  rewrite E1, E2. unfold PF.search.
  destruct (pf_normalize_spec fuel (PF.init ref rf) Hfuel Hrlo) as (j & _ & -> & _).
  set (s1 := PF.set_MatchingDivider _ _).
  rewrite pf_integer_search_high by (change (Zq 105000000 < ref)%Q;
                                     assert (Zq 105000000 == 105000000)%Q by reflexivity;
                                     lra).
  rewrite pf_fractional_search_high by (reflexivity || lra).
  eexists. reflexivity.
Qed.

(** X6 at [--ref 200000000 --rf 2400000000], where R = 2 and N = 48
    (divider 2) would be an exact integer-mode solution. *)
Lemma pf_reference_above_105MHz_gives_nothing_witness :
  integer_match (Zq 200000000) (Zq 2400000000 * Zq 2) 2
  /\ exists s, PF.main 7 (Zq 200000000) (Zq 2400000000) = Some (s, PF.NotPossible).
Proof.
  split.
  - unfold integer_match. split; [lia|].
    split; [apply Qle_bool_iff; reflexivity|].
    split; [apply Qle_bool_iff; reflexivity|].
    exists 48. split; [reflexivity | lia].
  - apply pf_reference_above_105MHz_gives_nothing.
    + lia.
    + reflexivity.
    + apply Qle_bool_iff. reflexivity.
    + apply Qle_bool_iff. reflexivity.
    + apply Qle_bool_iff. reflexivity.
Defined.

(** X7: with a reference above 50 MHz the fractional search of
    MAX2870pf.py examines no candidate.  A fractional-mode report is then
    the result of an integer search that set [MatchAttempted] without
    finding a match: it prints the initial values R = 1, Int = 1, Mod = 2,
    Frac = 0, and as frequency error the reference frequency (line 43)
    divided by the RF divider. *)
Theorem pf_fractional_report_above_50MHz fuel ref rf s e a R N M F D P :
  (50000000 < ref)%Q ->
  PF.main fuel ref rf = Some (s, PF.FractionalReport e a R N M F D P) ->
  R = 1 /\ N = Zq 1 /\ M = 2 /\ F = 0 /\ e = (ref / Zq D)%Q.
Proof.
  intros Hhigh Hmain.
  destruct (leb (Zq PF.MinimumReferenceFrequency) ref
            && leb ref (Zq PF.MaximumReferenceFrequency)) eqn:Href.
  2:{ rewrite (proj1 (pf_main_out_of_range fuel ref rf) Href) in Hmain. discriminate. }
  destruct (leb (Zq PF.MinimumRFFrequency) rf && leb rf (Zq PF.MaximumRFFrequency)) eqn:Hrf.
  2:{ rewrite (proj2 (pf_main_out_of_range fuel ref rf) Href Hrf) in Hmain. discriminate. }
  destruct (pf_main_in_range fuel ref rf _ Href Hrf Hmain) as (j & Hr). cbv zeta in Hr.
  set (s1 := PF.set_MatchingDivider (2 ^ Z.of_nat j)
               (PF.set_DesiredFrequency (dbl j rf)
                  (PF.set_MatchingDivider_PowerOf2 (Z.of_nat j) (PF.init ref rf)))) in *.
  symmetry in Hr. pose proof Hr as Hinv. apply pf_report_fractional in Hinv.
  destruct Hinv as (Hfm & Hma & -> & -> & -> & -> & -> & ->).
  pose proof (pf_report_fractional_mode _ Hma Hfm) as Hfwd. cbv zeta in Hfwd.
  rewrite Hr in Hfwd. cbn [snd] in Hfwd. injection Hfwd as He _. clear Hr.
  set (u := PF.integer_search ref s1) in *.
  assert (Hu : (u = s1 \/ u = PF.set_MatchAttempted true s1)
               \/ PF.FractionalMode u = false).
  { destruct (pf_integer_search_spec ref s1) as [H | (R0 & _ & _ & _ & E)].
    - left. exact H.
    - right. cbv zeta in E. fold u in E. rewrite E. reflexivity. }
  destruct Hu as [Hu | Hu].
  2:{ destruct (pf_fractional_search_inv ref u) as (_ & _ & _ & i4 & _).
      cbv zeta in i4. congruence. }
  assert (Hfu : PF.FractionalMode u = true) by (destruct Hu as [-> | ->]; reflexivity).
  rewrite (pf_fractional_search_high ref u Hfu Hhigh) in He |- *.
  destruct Hu as [-> | ->]; subst e; repeat split.
Qed.

(** X7 at [--ref 60000000 --rf 3600000001]: the script prints fractional
    mode with a frequency error of 60 MHz. *)
Lemma pf_fractional_report_above_50MHz_witness :
  exists s e a,
    PF.main 7 (Zq 60000000) (Zq 3600000001)
    = Some (s, PF.FractionalReport e a 1 (Zq 1) 2 0 1 0)
    /\ e = (Zq 60000000 / Zq 1)%Q.
Proof.
  assert (H : exists s e a,
            PF.main 7 (Zq 60000000) (Zq 3600000001)
            = Some (s, PF.FractionalReport e a 1 (Zq 1) 2 0 1 0)).
  { eexists. eexists. eexists. vm_compute. reflexivity. }
  destruct H as (s & e & a & E).
  exists s, e, a. split; [exact E|].
  apply (pf_fractional_report_above_50MHz 7 (Zq 60000000) (Zq 3600000001)
           s e a 1 (Zq 1) 2 0 1 0); [reflexivity | exact E].
Defined.

(** ** A reference without exact solution *)

(** X8: a step of the sweep at a reference [r = start + i] coprime to the
    integer VCO frequency [v], with [MaximumR * MaximumMod < r], finds no
    exact solution of either kind (an exact one needs [r] to divide
    [v * R * MOD]): the sweep goes on to the next reference with a
    positive best error and with [IntegerMode] cleared. *)
Theorem spf_step_without_exact_solution fuel start i s (v : Z) :
  (3000000000 <= SPF.DesiredFrequency s)%Q ->
  (SPF.DesiredFrequency s <= 6000000000)%Q ->
  (SPF.DesiredFrequency s == Zq v)%Q ->
  Z.gcd (start + i) v = 1 ->
  SPF.MaximumR * SPF.MaximumMod < start + i ->
  (0 < SPF.FrequencyError s)%Q ->
  exists s',
    SPF.sweep_body fuel start i s = Some (s', Next)
    /\ SPF.IntegerMode s' = false
    /\ (0 < SPF.FrequencyError s')%Q
    /\ SPF.DesiredFrequency s' = SPF.DesiredFrequency s
    /\ SPF.MatchingDivider_PowerOf2 s' = SPF.MatchingDivider_PowerOf2 s.
Proof. exact (spf_step_inexact fuel start i s v). Qed.

(** X8 at [--rf 5990000599 --refstart 10000000], first step. *)
Lemma spf_step_without_exact_solution_witness :
  exists s',
    SPF.sweep_body 11 10000000 0 (SPF.init (Zq 5990000599)) = Some (s', Next)
    /\ SPF.IntegerMode s' = false
    /\ (0 < SPF.FrequencyError s')%Q.
Proof.
  destruct (spf_step_without_exact_solution 11 10000000 0
              (SPF.init (Zq 5990000599)) 5990000599)
    as (s' & H1 & H2 & H3 & _).
  - apply Qle_bool_iff. reflexivity.
  - apply Qle_bool_iff. reflexivity.
  - reflexivity.
  - reflexivity.
  - reflexivity.
  - reflexivity.
  - exists s'. split; [exact H1|]. split; [exact H2 | exact H3].
Defined.

(** ** Normalisation in the sweep *)

(** X9: MAX2870spf.py runs the doubling loop in every step of the sweep
    (lines 63-67) on the frequency that the step before left.  Normalising
    a normalised state changes nothing, whatever the bound on the passes:
    the doublings and the divider are those of the first step. *)
Theorem spf_normalize_idempotent fuel fuel' s s1 :
  SPF.normalize fuel s = Some s1 -> SPF.normalize fuel' s1 = Some s1.
Proof.
  unfold SPF.normalize at 1.
  destruct (SPF.vco_loop fuel s) as [s'|] eqn:E; [|discriminate].
  intros [= <-]. apply spf_vco_loop_done in E.
  unfold SPF.normalize.
  assert (E' : SPF.vco_loop fuel'
                 (SPF.set_MatchingDivider (2 ^ SPF.MatchingDivider_PowerOf2 s') s')
               = Some (SPF.set_MatchingDivider (2 ^ SPF.MatchingDivider_PowerOf2 s') s')).
  { destruct fuel'; cbn [SPF.vco_loop];
      change (SPF.DesiredFrequency
                (SPF.set_MatchingDivider (2 ^ SPF.MatchingDivider_PowerOf2 s') s'))
        with (SPF.DesiredFrequency s'); rewrite E; reflexivity. }
  rewrite E'. reflexivity.
Qed.

(** X9 at a target of 915 MHz: two doublings, and none the second time. *)
Lemma spf_normalize_idempotent_witness :
  exists s1,
    SPF.normalize 11 (SPF.init (Zq 915000000)) = Some s1
    /\ SPF.MatchingDivider_PowerOf2 s1 = 2
    /\ SPF.normalize 0 s1 = Some s1.
Proof.
  destruct (SPF.normalize 11 (SPF.init (Zq 915000000))) as [s1|] eqn:E.
  2:{ vm_compute in E. discriminate. }
  exists s1. split; [reflexivity|]. split.
  - pose proof E as E'. vm_compute in E'. injection E' as <-. reflexivity.
  - apply (spf_normalize_idempotent 11 0 (SPF.init (Zq 915000000)) s1 E).
Defined.

(** ** The early exits on [IntTemp] *)

Lemma for_in_ext_inv {S : Type} (P : S -> Prop) (f g : Z -> S -> S * flow) xs :
  (forall x s, P s -> f x s = g x s) ->
  (forall x s, P s -> P (fst (f x s))) ->
  forall s, P s -> for_in f xs s = for_in g xs s.
Proof.
  intros Hfg Hinv. induction xs as [|x xs IH]; intros s Hs; cbn [for_in]; [reflexivity|].
  rewrite <- (Hfg x s Hs). pose proof (Hinv x s Hs) as H.
  destruct (f x s) as [s' [|]]; [apply IH; exact H | reflexivity].
Qed.

(** Once [IntTemp] is above [MaximumInt] at [R0], the loop without the
    exit does nothing at any later R. *)
Lemma pf_frac_no_exit_tail (ref : Q) (R0 : Z) (s : PF.state) xs :
  (0 < ref)%Q -> (0 <= PF.DesiredFrequency s)%Q -> 0 < R0 ->
  PF.MaximumInt s < floor (PF.DesiredFrequency s / (ref / Zq R0)) ->
  (forall x, In x xs -> R0 <= x) ->
  for_in (pf_frac_body_no_exit ref) xs s = s.
Proof.
  intros Href HD HR0 Hbig. induction xs as [|x xs IH]; intros Hxs; [reflexivity|].
  cbn [for_in]. unfold pf_frac_body_no_exit. cbv zeta.
  assert (Hx : R0 <= x) by (apply Hxs; left; reflexivity).
  destruct (PF.pfd_ok ref x s).
  - pose proof (proj2 (int_temp_mono (PF.DesiredFrequency s) ref R0 x Href HD
                         ltac:(lia))) as Hm.
    replace (floor (PF.DesiredFrequency s / (ref / Zq x)) <=? PF.MaximumInt s)
      with false by (symmetry; apply Z.leb_gt; lia).
    rewrite andb_false_r. apply IH. intros y Hy. apply Hxs. right. exact Hy.
  - replace (0 <? x) with true by (symmetry; apply Z.ltb_lt; lia). reflexivity.
Qed.

Lemma pf_frac_no_exit_seq (ref : Q) :
  (0 < ref)%Q ->
  forall n a s,
    (0 <= PF.DesiredFrequency s)%Q ->
    for_in (PF.frac_body ref) (map Z.of_nat (seq a n)) s
    = for_in (pf_frac_body_no_exit ref) (map Z.of_nat (seq a n)) s.
Proof.
  intros Href. induction n as [|n IH]; intros a s HD; [reflexivity|].
  cbn [seq map for_in].
  destruct (PF.pfd_ok ref (Z.of_nat a) s) eqn:Ep.
  - destruct ((PF.MinimumInt s
               <=? floor (PF.DesiredFrequency s / (ref / Zq (Z.of_nat a))))
              && (floor (PF.DesiredFrequency s / (ref / Zq (Z.of_nat a)))
                  <=? PF.MaximumInt s)) eqn:Er.
    + assert (E : pf_frac_body_no_exit ref (Z.of_nat a) s
                  = PF.frac_body ref (Z.of_nat a) s).
      { unfold pf_frac_body_no_exit. cbv zeta. rewrite Ep, Er. reflexivity. }
      rewrite E.
      destruct (pf_frac_body_inv ref (Z.of_nat a) s) as [(Hk & _) _].
      destruct (PF.frac_body ref (Z.of_nat a) s) as [s' [|]]; [|reflexivity].
      apply IH. cbn [fst] in Hk. rewrite Hk. exact HD.
    + assert (E1 : PF.frac_body ref (Z.of_nat a) s
                   = (s, if PF.MaximumInt s
                            <? floor (PF.DesiredFrequency s / (ref / Zq (Z.of_nat a)))
                         then Break else Next)).
      { unfold PF.frac_body. cbv zeta. rewrite Ep, Er.
        destruct (PF.MaximumInt s <? _); reflexivity. }
      assert (E2 : pf_frac_body_no_exit ref (Z.of_nat a) s = (s, Next)).
      { unfold pf_frac_body_no_exit. cbv zeta. rewrite Ep, Er. reflexivity. }
      rewrite E1, E2.
      destruct (PF.MaximumInt s
                <? floor (PF.DesiredFrequency s / (ref / Zq (Z.of_nat a)))) eqn:El.
      * symmetry. apply (pf_frac_no_exit_tail ref (Z.of_nat a)); try assumption.
        -- apply (pfd_ok_pos _ _ _ Ep).
        -- apply Z.ltb_lt. exact El.
        -- intros x Hx. apply in_map_iff in Hx. destruct Hx as (k & <- & Hk).
           apply in_seq in Hk. lia.
      * apply IH. exact HD.
  - assert (E1 : PF.frac_body ref (Z.of_nat a) s
                 = (s, if 0 <? Z.of_nat a then Break else Next)).
    { unfold PF.frac_body. cbv zeta. rewrite Ep. destruct (0 <? _); reflexivity. }
    assert (E2 : pf_frac_body_no_exit ref (Z.of_nat a) s
                 = (s, if 0 <? Z.of_nat a then Break else Next)).
    { unfold pf_frac_body_no_exit. rewrite Ep. destruct (0 <? _); reflexivity. }
    rewrite E1, E2. destruct (0 <? Z.of_nat a); [reflexivity | apply IH; exact HD].
Qed.

(** In the integer-mode loop a VCO frequency within [[3 GHz, 6 GHz]] and a
    PFD frequency within the limits give an [IntTemp] within [[28, 48000]]:
    the [else] of lines 64-65 is not reached. *)
Lemma pf_int_temp_in_range (ref : Q) (R : Z) (s : PF.state) :
  (3000000000 <= PF.DesiredFrequency s)%Q ->
  (PF.DesiredFrequency s <= 6000000000)%Q ->
  PF.MinimumInt s <= 28 -> 48000 <= PF.MaximumInt s ->
  PF.MaximumPFDFrequency s <= 105000000 ->
  PF.pfd_ok ref R s = true ->
  leb (Zq (PF.MinimumInt s)) (PF.DesiredFrequency s / (ref / Zq R))
  && leb (PF.DesiredFrequency s / (ref / Zq R)) (Zq (PF.MaximumInt s)) = true.
Proof.
  intros Hlo Hhi Hmin Hmax Hpfd Hok.
  destruct (pfd_ok_pos _ _ _ Hok) as [HR Hpos].
  unfold PF.pfd_ok in Hok. rewrite !andb_true_iff, !leb_le in Hok.
  destruct Hok as [[_ H1] H2].
  assert (Hm : (Zq PF.MinimumPFDFrequency == 125000)%Q) by reflexivity.
  assert (H3 : (Zq (PF.MaximumPFDFrequency s) <= 105000000)%Q).
  { change 105000000%Q with (Zq 105000000). unfold Zq. rewrite <- Zle_Qle. exact Hpfd. }
  assert (H4 : (Zq (PF.MinimumInt s) <= 28)%Q).
  { change 28%Q with (Zq 28). unfold Zq. rewrite <- Zle_Qle. exact Hmin. }
  assert (H5 : (48000 <= Zq (PF.MaximumInt s))%Q).
  { change 48000%Q with (Zq 48000). unfold Zq. rewrite <- Zle_Qle. exact Hmax. }
  pose proof (int_temp_low (PF.DesiredFrequency s) ref R Hlo HR Hpos ltac:(lra)) as H6.
  assert (H7 : (PF.DesiredFrequency s / (ref / Zq R) <= 48000)%Q).
  { apply Qle_shift_div_r; [exact Hpos|].
    assert (48000 * 125000 <= 48000 * (ref / Zq R))%Q.
    { rewrite !(Qmult_comm 48000). apply Qmult_le_compat_r; lra. }
    assert (48000 * 125000 == 6000000000)%Q by reflexivity. lra. }
  apply andb_true_iff. rewrite !leb_le. split; lra.
Qed.

(** X10: the early exits of MAX2870pf.py on an [IntTemp] outside the
    limits lose no candidate.  For a positive reference and a VCO frequency
    that is not negative, the fractional-mode search (lines 71-115) leaves
    the state that the same loop leaves without the exit of lines 110-112,
    going on to the next R instead: [IntTemp] grows with R, so that after
    an [IntTemp] above [MaximumInt] no later R is feasible.  For a VCO
    frequency within [[3 GHz, 6 GHz]] under limits no tighter than
    [[28, 48000]] for [IntTemp] and no looser than 105 MHz for the PFD
    frequency, the integer-mode search (lines 53-68) leaves the state that
    its loop leaves without the [else: break] of lines 64-65. *)
Theorem pf_int_temp_exits_lose_nothing (ref : Q) (s : PF.state) :
  (0 < ref)%Q -> (0 <= PF.DesiredFrequency s)%Q ->
  PF.fractional_search ref s
  = (if PF.FractionalMode s
     then for_in (pf_frac_body_no_exit ref) (range (PF.MaximumR + 1)) (pf_frac_limits s)
     else s)
  /\ ((3000000000 <= PF.DesiredFrequency s)%Q ->
      (PF.DesiredFrequency s <= 6000000000)%Q ->
      PF.MinimumInt s <= 28 -> 48000 <= PF.MaximumInt s ->
      PF.MaximumPFDFrequency s <= 105000000 ->
      PF.integer_search ref s
      = for_in (pf_int_body_no_exit ref) (range (PF.MaximumR + 1)) s).
Proof.
  intros Href HD. split.
  - unfold PF.fractional_search. destruct (PF.FractionalMode s); [|reflexivity].
    cbv zeta. unfold range. apply (pf_frac_no_exit_seq ref Href). exact HD.
  - intros Hlo Hhi Hmin Hmax Hpfd. unfold PF.integer_search.
    apply (for_in_ext_inv
             (fun t => (3000000000 <= PF.DesiredFrequency t)%Q
                       /\ (PF.DesiredFrequency t <= 6000000000)%Q
                       /\ PF.MinimumInt t <= 28 /\ 48000 <= PF.MaximumInt t
                       /\ PF.MaximumPFDFrequency t <= 105000000)).
    + intros x t (H1 & H2 & H3 & H4 & H5).
      unfold pf_int_body_no_exit. cbv zeta.
      destruct (PF.pfd_ok ref x t) eqn:Ep.
      * rewrite (pf_int_temp_in_range ref x t H1 H2 H3 H4 H5 Ep). reflexivity.
      * unfold PF.int_body. rewrite Ep. reflexivity.
    + intros x t Ht. unfold PF.int_body. cbv zeta.
      destruct (PF.pfd_ok ref x t); [|destruct (0 <? x); exact Ht].
      destruct (leb _ _ && leb _ _); [|exact Ht].
      destruct (eqb _ 0); cbn [fst]; exact Ht.
    + repeat split; assumption.
Qed.

(** X10 at [--ref 10000000 --rf 5991250001], where the fractional-mode
    loop is left at R = 7 with an [IntTemp] of 4193. *)
Lemma pf_int_temp_exits_lose_nothing_witness :
  let ref := Zq 10000000 in
  let s := PF.init ref (Zq 5991250001) in
  floor (PF.DesiredFrequency s / (ref / Zq 7)) = 4193
  /\ PF.fractional_search ref s
     = for_in (pf_frac_body_no_exit ref) (range (PF.MaximumR + 1)) (pf_frac_limits s)
  /\ PF.integer_search ref s
     = for_in (pf_int_body_no_exit ref) (range (PF.MaximumR + 1)) s.
Proof.
  cbv zeta.
  destruct (pf_int_temp_exits_lose_nothing (Zq 10000000)
              (PF.init (Zq 10000000) (Zq 5991250001))) as [H1 H2].
  - reflexivity.
  - apply Qle_bool_iff. reflexivity.
  - assert (Hfm : PF.FractionalMode (PF.init (Zq 10000000) (Zq 5991250001)) = true)
      by reflexivity.
    rewrite Hfm in H1.
    split; [reflexivity|]. split; [exact H1|].
    apply H2.
    + apply Qle_bool_iff. reflexivity.
    + apply Qle_bool_iff. reflexivity.
    + vm_compute. discriminate.
    + vm_compute. discriminate.
    + vm_compute. discriminate.
Defined.

(** ** The frequency that MAX2870pf.py prints *)

(** X11: line 118 divides the VCO frequency by the RF divider before the
    report.  The doublings of lines 47-49 and the divider of line 50
    cancel, so that the actual frequency printed with a fractional-mode
    result is the target RF frequency plus the printed error. *)
Theorem pf_actual_frequency fuel ref rf s e a R N M F D P :
  PF.main fuel ref rf = Some (s, PF.FractionalReport e a R N M F D P) ->
  (a == rf + e)%Q.
Proof.
  intros Hmain.
  destruct (leb (Zq PF.MinimumReferenceFrequency) ref
            && leb ref (Zq PF.MaximumReferenceFrequency)) eqn:Href.
  2:{ rewrite (proj1 (pf_main_out_of_range fuel ref rf) Href) in Hmain. discriminate. }
  destruct (leb (Zq PF.MinimumRFFrequency) rf && leb rf (Zq PF.MaximumRFFrequency)) eqn:Hrf.
  2:{ rewrite (proj2 (pf_main_out_of_range fuel ref rf) Href Hrf) in Hmain. discriminate. }
  destruct (pf_main_in_range fuel ref rf _ Href Hrf Hmain) as (j & Hr). cbv zeta in Hr.
  set (s1 := PF.set_MatchingDivider (2 ^ Z.of_nat j)
               (PF.set_DesiredFrequency (dbl j rf)
                  (PF.set_MatchingDivider_PowerOf2 (Z.of_nat j) (PF.init ref rf)))) in *.
  symmetry in Hr. pose proof Hr as Hinv. apply pf_report_fractional in Hinv.
  destruct Hinv as (Hfm & Hma & _).
  pose proof (pf_report_fractional_mode _ Hma Hfm) as Hfwd. cbv zeta in Hfwd.
  rewrite Hr in Hfwd. cbn [snd] in Hfwd. injection Hfwd as He Ha _. clear Hr.
  rewrite <- He in Ha. clear He. subst a.
  destruct (pf_fractional_search_inv ref (PF.integer_search ref s1))
    as (i1 & i2 & _). cbv zeta in i1, i2. rewrite i1, i2.
  assert (Hu : PF.DesiredFrequency (PF.integer_search ref s1) = dbl j rf
               /\ PF.MatchingDivider (PF.integer_search ref s1) = 2 ^ Z.of_nat j).
  { destruct (pf_integer_search_spec ref s1) as [[E | E] | (R0 & _ & _ & _ & E)];
      cbv zeta in E; rewrite E; split; reflexivity. }
  destruct Hu as (-> & ->).
  rewrite dbl_pow.
  assert (Hpos : (0 < Zq (2 ^ Z.of_nat j))%Q) by (apply Zq_pos; lia).
  assert (E : (rf * Zq (2 ^ Z.of_nat j) / Zq (2 ^ Z.of_nat j) == rf)%Q)
    by (field; lra).
  rewrite E. reflexivity.
Qed.

(** X11 at [--ref 10000000 --rf 750025000]: two doublings, exact at
    MOD 100. *)
Lemma pf_actual_frequency_witness :
  exists s e a R N M F,
    PF.main 7 (Zq 10000000) (Zq 750025000)
    = Some (s, PF.FractionalReport e a R N M F 4 2)
    /\ (a == Zq 750025000 + e)%Q.
Proof.
  assert (H : exists s e a R N M F,
            PF.main 7 (Zq 10000000) (Zq 750025000)
            = Some (s, PF.FractionalReport e a R N M F 4 2)).
  { do 7 eexists. vm_compute. reflexivity. }
  destruct H as (s & e & a & R & N & M & F & E).
  exists s, e, a, R, N, M, F. split; [exact E|].
  apply (pf_actual_frequency 7 (Zq 10000000) (Zq 750025000) s e a R N M F 4 2 E).
Defined.

(** ** MAX2870spf.py when nothing is searched *)

Lemma spf_sweep_lines_state fuel start xs : forall s,
  option_map fst (spf_sweep_lines fuel start xs s)
  = for_in_opt (SPF.sweep_body fuel start) xs s.
Proof.
  induction xs as [|x xs IH]; intros s; cbn [spf_sweep_lines for_in_opt]; [reflexivity|].
  destruct (SPF.sweep_body fuel start x s) as [[s' [|]]|]; try reflexivity.
  rewrite <- IH. destruct (spf_sweep_lines fuel start xs s') as [[s'' ls]|]; reflexivity.
Qed.

Lemma clamp_steps_nonneg steps : 0 <= steps -> 0 <= SPF.clamp_steps steps.
Proof.
  intros H. unfold SPF.clamp_steps.
  destruct (_ <? steps); [vm_compute; discriminate | exact H].
Qed.

Lemma clamp_steps_neg steps : steps < 0 -> SPF.clamp_steps steps = steps.
Proof.
  intros H. unfold SPF.clamp_steps.
  destruct (_ <? steps) eqn:E; [|reflexivity].
  apply Z.ltb_lt in E. unfold SPF.MaximumReferenceFrequency,
    SPF.MinimumReferenceFrequency in E. lia.
Qed.

Lemma range_cons n : 0 <= n -> exists xs, range (n + 1) = 0 :: xs.
Proof.
  intros H. unfold range. replace (Z.to_nat (n + 1)) with (S (Z.to_nat n)) by lia.
  cbn [seq map]. eexists. reflexivity.
Qed.

(** X12: what MAX2870spf.py prints when nothing is searched.  For a target
    outside the RF range and a step count that is not negative, the first
    pass of the sweep prints the step number 0 and "RF frequency is out of
    range" (lines 61 and 69) and leaves the sweep at line 70 before any
    search; the last line printed is the message of line 157, that no R
    and Int values are possible.  For a negative step count the sweep has
    no pass, and that message alone follows the lines of the clamps.  The
    variables that the sweep leaves beside the printed lines are those of
    [SPF.sweep]. *)
Theorem spf_prints_when_nothing_searched fuel rf start steps :
  (leb (Zq SPF.MinimumRFFrequency) rf && leb rf (Zq SPF.MaximumRFFrequency) = false ->
   0 <= steps ->
   spf_output fuel rf start steps
   = Some (spf_clamp_lines start steps
           ++ [StepNumber 0; RFOutOfRangeLine; FinalReport SPF.NotPossible]))
  /\ (steps < 0 ->
      spf_output fuel rf start steps
      = Some (spf_clamp_lines start steps ++ [FinalReport SPF.NotPossible]))
  /\ (forall xs s,
        option_map fst (spf_sweep_lines fuel start xs s)
        = for_in_opt (SPF.sweep_body fuel start) xs s).
Proof.
  split; [|split].
  - intros Hrf Hsteps. unfold spf_output. cbv zeta.
    destruct (range_cons _ (clamp_steps_nonneg steps Hsteps)) as (xs & ->).
    cbn [spf_sweep_lines]. unfold SPF.sweep_body. cbv zeta.
    change (SPF.DesiredFrequency
              (SPF.set_FractionalMode true
                 (SPF.set_ReferenceFrequencyToMatch ?[r] (SPF.init rf))))
      with rf.
    rewrite Hrf. unfold spf_step_lines.
    change (SPF.DesiredFrequency (SPF.init rf)) with rf. rewrite Hrf.
    reflexivity.
  - intros Hsteps. unfold spf_output. cbv zeta.
    rewrite (clamp_steps_neg steps Hsteps).
    assert (E : range (steps + 1) = []).
    { unfold range. replace (Z.to_nat (steps + 1)) with O by lia. reflexivity. }
    rewrite E. reflexivity.
  - apply spf_sweep_lines_state.
Qed.

(** X12 at [--rf 6000000001 --refstart 10000000 --steps 5] and at
    [--rf 2400000000 --refstart 10000000 --steps -1]; neither changes the
    start or the step count. *)
Lemma spf_prints_when_nothing_searched_witness :
  spf_output 11 (Zq 6000000001) 10000000 5
  = Some [StepNumber 0; RFOutOfRangeLine; FinalReport SPF.NotPossible]
  /\ spf_output 11 (Zq 2400000000) 10000000 (-1)
     = Some [FinalReport SPF.NotPossible].
Proof.
  split.
  - apply (proj1 (spf_prints_when_nothing_searched 11 (Zq 6000000001) 10000000 5)).
    + reflexivity.
    + lia.
  - apply (proj1 (proj2 (spf_prints_when_nothing_searched
                           11 (Zq 2400000000) 10000000 (-1)))).
    lia.
Defined.
